(** * xcf: a reader for GIMP's XCF files (package [xcf], file [xcf.go])

    A shallow embedding of the decoder and the properties established
    about it.

    Conventions of the embedding.
    - A byte is Stdlib's [byte]; [u8 b] is its value as an integer.
    - Go's [uint32] is a [Z] in [0, 2^32); arithmetic carried out at that
      type is reduced with [wrap32].  Go's [int] is the 64-bit one; no
      [int] computation of the decoder leaves that range, so it is a [Z].
    - The input is what [LoadFromFile] hands to [Decode]: a regular file
      opened for reading, that is a finite sequence of bytes, which the
      decoder never changes, and a cursor.
    - Memory is unbounded: [make] does not fail.
    - A Go [error] is represented by its message.
    - A run-time panic (index or slice bounds) is an outcome of its own. *)

From Stdlib Require Import ZArith Lia.
From Stdlib.Strings Require Import Byte.
From stdpp Require Import base tactics option list strings pretty.

Local Open Scope Z_scope.

(** ** Bytes and integers *)

Definition u8 (b : byte) : Z := Z.of_N (Byte.to_N b).

(** Conversion of an integer to [uint8]: the low 8 bits. *)
Definition uint8 (z : Z) : byte :=
  default x00 (Byte.of_N (Z.to_N (z mod 256))).

Definition wrap32 (z : Z) : Z := z mod 2 ^ 32.

(** [binary.BigEndian.Uint32]. *)
Definition be32 (bs : list byte) : Z :=
  match bs with
  | [b0; b1; b2; b3] =>
      u8 b0 * 2 ^ 24 + u8 b1 * 2 ^ 16 + u8 b2 * 2 ^ 8 + u8 b3
  | _ => 0
  end.

(** The same four bytes read as an [int32]. *)
Definition be32s (bs : list byte) : Z :=
  let u := be32 bs in if u <? 2 ^ 31 then u else u - 2 ^ 32.

(** [string(bs)] for a byte slice. *)
Definition gostring (bs : list byte) : string := String.string_of_list_byte bs.

(** [fmt]'s [%v] of an unsigned integer. *)
Definition fmtv (z : Z) : string := pretty (Z.to_N z).

(** ** The input stream *)

(** The bytes of the file from the cursor on. *)
Definition avail (file : list byte) (pos : nat) : list byte := drop pos file.

(** ** Outcomes *)

Inductive panic :=
| IndexOutOfRange (i len : Z)
| SliceBoundsOutOfRange (hi cap : Z)
| HugeDimensions.

Definition error := string.

(** What running a piece of the decoder on a stream leads to: a value, a
    Go error, a run-time panic, or a loop that was still running when its
    fuel ran out. *)
Inductive outcome (A : Type) :=
| Ok (a : A) (pos : nat)
| Err (e : error) (pos : nat)
| Panic (p : panic)
| OutOfFuel.
Arguments Ok {A} a pos%_nat.
Arguments Err {A} e pos%_nat.
Arguments Panic {A} p.
Arguments OutOfFuel {A}.

(** A computation on the stream: from the file and the cursor to an
    outcome that carries the new cursor. *)
Definition M (A : Type) : Type := list byte -> nat -> outcome A.

Definition ret {A} (a : A) : M A := fun _ pos => Ok a pos.
Definition fail {A} (e : error) : M A := fun _ pos => Err e pos.
Definition throw {A} (p : panic) : M A := fun _ _ => Panic p.
Definition spin {A} : M A := fun _ _ => OutOfFuel.

Definition bind {A B} (m : M A) (k : A -> M B) : M B := fun file pos =>
  match m file pos with
  | Ok a pos' => k a file pos'
  | Err e pos' => Err e pos'
  | Panic p => Panic p
  | OutOfFuel => OutOfFuel
  end.

(** A loop that consumes input at every turn gets one unit of fuel per
    byte that is left, and one more. *)
Definition withFuel {A} (loop : nat -> M A) : M A := fun file pos =>
  loop (S (length (avail file pos))) file pos.

Notation "'let*' x ':=' m 'in' k" := (bind m (fun x => k))
  (at level 10, x pattern, m at level 100, k at level 200, only parsing).

(** [errors.New(prefix + err.Error())] on the error path of [m]. *)
Definition wrapErr {A} (prefix : string) (m : M A) : M A := fun file pos =>
  match m file pos with
  | Err e pos' => Err (prefix +:+ e) pos'
  | o => o
  end.

(** Pure code that may panic. *)
Definition bindP {A B} (x : panic + A) (k : A -> panic + B) : panic + B :=
  match x with inl p => inl p | inr a => k a end.

Notation "'let+' x ':=' m 'in' k" := (bindP m (fun x => k))
  (at level 10, x pattern, m at level 100, k at level 200, only parsing).

Definition lift {A} (x : panic + A) : M A :=
  match x with inl p => throw p | inr a => ret a end.

(** ** The [io] primitives on a file

    [Read(b)] of an [os.File] with [len(b) = n]: a read of no bytes returns
    [0, nil]; at the end of the file it returns [0, io.EOF]; otherwise it
    returns the bytes that are there, at most [n] of them, and no error. *)
Definition Read (n : Z) : M (list byte) := fun file pos =>
  if n <=? 0 then Ok [] pos
  else match take (Z.to_nat n) (avail file pos) with
       | [] => Err "EOF" pos
       | got => Ok got (pos + length got)%nat
       end.

(** [io.ReadFull] with a buffer of [n] bytes: all [n] bytes or an error,
    [io.EOF] when nothing was read and [io.ErrUnexpectedEOF] when the file
    ended inside the buffer. *)
Definition ReadFull (n : Z) : M (list byte) := fun file pos =>
  if n <=? 0 then Ok [] pos
  else let got := take (Z.to_nat n) (avail file pos) in
       if decide (length got = Z.to_nat n) then Ok got (pos + length got)%nat
       else match got with
            | [] => Err "EOF" pos
            | _ => Err "unexpected EOF" (pos + length got)%nat
            end.

(** [io.CopyN(ioutil.Discard, r, n)]. *)
Definition CopyN (n : Z) : M unit := fun file pos =>
  let got := take (Z.to_nat n) (avail file pos) in
  if decide (length got = Z.to_nat n) then Ok tt (pos + length got)%nat
  else Err "EOF" (pos + length got)%nat.

(** [r.Seek(offset, 0)] with a non-negative offset; it cannot fail on a
    regular file, also beyond its end. *)
Definition Seek (offset : Z) : M unit := fun _ _ => Ok tt (Z.to_nat offset).

(** [binary.Read] of one [uint32], of one [int32]. *)
Definition readUint32 : M Z := let* bs := ReadFull 4 in ret (be32 bs).
Definition readInt32 : M Z := let* bs := ReadFull 4 in ret (be32s bs).

(** ** Byte slices

    [overlay l i bs] is [l] after [copy(l[i:], bs)] where [bs] fits. *)
Definition overlay (l : list byte) (i : Z) (bs : list byte) : list byte :=
  take (Z.to_nat i) l ++ bs ++ drop (Z.to_nat i + length bs) l.

Definition at0 (l : list byte) (i : nat) : byte := default x00 (l !! i).

(** A slice that starts at the beginning of its backing array: [arr] is the
    array up to the slice's capacity and [len] its length. *)
Record slice := Slice { arr : list byte; len : Z }.

Definition cap (s : slice) : Z := Z.of_nat (length (arr s)).

(** [make([]byte, n)]. *)
Definition make (n : Z) : slice :=
  {| arr := replicate (Z.to_nat n) x00; len := n |}.

(** [s[i] = v]. *)
Definition store (s : slice) (i : Z) (v : byte) : panic + slice :=
  if (0 <=? i) && (i <? len s)
  then inr {| arr := <[Z.to_nat i := v]> (arr s); len := len s |}
  else inl (IndexOutOfRange i (len s)).

(** [s[i]]. *)
Definition load (s : slice) (i : Z) : panic + byte :=
  if (0 <=? i) && (i <? len s)
  then inr (at0 (arr s) (Z.to_nat i))
  else inl (IndexOutOfRange i (len s)).

(** The bounds check of [s[lo:hi]] where [0 <= lo <= hi]. *)
Definition subslice (s : slice) (hi : Z) : panic + unit :=
  if hi <=? cap s then inr tt else inl (SliceBoundsOutOfRange hi (cap s)).

(** ** decodeRLE *)

(** [for i := 0; i < count; i++ { dest[next] = value; next++ }] *)
Fixpoint fillRun (count : nat) (dest : slice) (next : Z) (value : byte)
  : panic + (slice * Z) :=
  match count with
  | O => inr (dest, next)
  | S count' =>
      match store dest next value with
      | inl p => inl p
      | inr dest' => fillRun count' dest' (next + 1) value
      end
  end.

(** [encoded.Read(dest[next : next+count])] then [next += count]. *)
Definition copyRun (count : Z) (dest : slice) (next : Z) : M (slice * Z) :=
  let* _ := lift (subslice dest (next + count)) in
  let* got := Read count in
  ret ({| arr := overlay (arr dest) next got; len := len dest |}, next + count).

(** The loop of [decodeRLE]; [buffer] is the four-byte scratch array. *)
Fixpoint decodeRLE_loop (fuel : nat) (buffer : list byte) (dest : slice)
    (next : Z) : M slice :=
  if next <? len dest then
    match fuel with
    | O => spin
    | S fuel' =>
        let* got := Read 1 in
        let buffer := overlay buffer 0 got in
        let op := u8 (at0 buffer 0) in
        if op <=? 126 then
          let* got := Read 1 in
          let buffer := overlay buffer 1 got in
          let count := op + 1 in
          let value := at0 buffer 1 in
          let* st := lift (fillRun (Z.to_nat count) dest next value) in
          decodeRLE_loop fuel' buffer (fst st) (snd st)
        else if op =? 127 then
          let* got := Read 3 in
          let buffer := overlay buffer 1 got in
          let count := u8 (at0 buffer 1) * 256 + u8 (at0 buffer 2) in
          let value := at0 buffer 3 in
          let* st := lift (fillRun (Z.to_nat count) dest next value) in
          decodeRLE_loop fuel' buffer (fst st) (snd st)
        else if op =? 128 then
          let* got := Read 2 in
          let buffer := overlay buffer 1 got in
          let count := u8 (at0 buffer 1) * 256 + u8 (at0 buffer 2) in
          let* st := copyRun count dest next in
          decodeRLE_loop fuel' buffer (fst st) (snd st)
        else
          let count := 256 - op in
          let* st := copyRun count dest next in
          decodeRLE_loop fuel' buffer (fst st) (snd st)
    end
  else ret dest.

(** [decodeRLE(encoded, dest)].  Every turn of the loop reads the control
    byte or returns, so one unit of fuel per remaining byte is enough
    ([decodeRLE_terminates]). *)
Definition decodeRLE (dest : slice) : M slice :=
  withFuel (fun fuel => decodeRLE_loop fuel [x00; x00; x00; x00] dest 0).
Arguments decodeRLE dest file pos%_nat : rename.

(** ** Generic counted loops

    [for i := lo; i < lo + n; i++ { body }], over a state [St]: in pure code
    that may panic, and in code that reads the stream. *)
Fixpoint forP {St} (n : nat) (i : Z) (body : Z -> St -> panic + St) (s : St)
  : panic + St :=
  match n with
  | O => inr s
  | S n' =>
      match body i s with
      | inl p => inl p
      | inr s' => forP n' (i + 1) body s'
      end
  end.

Fixpoint forM {St} (n : nat) (i : Z) (body : Z -> St -> M St) (s : St)
  : M St :=
  match n with
  | O => ret s
  | S n' => let* s' := body i s in forM n' (i + 1) body s'
  end.

(** ** Constants *)

(* main image color formats *)
Definition rgb : Z := 0.
Definition grayscale : Z := 1.
Definition indexed : Z := 2.
(* layer color formats *)
Definition rgbNoAlpha : Z := 0.
Definition rgbAlpha : Z := 1.

(* property types *)
Definition propEnd : Z := 0.
Definition propColormap : Z := 1.
Definition propOpacity : Z := 6.
Definition propVisible : Z := 8.
Definition propOffsets : Z := 15.
Definition propCompression : Z := 17.

(* compression types *)
Definition rleCompression : Z := 1.

(** ** The records read with [binary.Read] *)

Module fileHeader.
Record t := Make {
  MagicID : list byte;          (* [9]byte *)
  Version : list byte;          (* [4]byte *)
  VersionTerminator : byte;
  Width : Z; Height : Z;        (* uint32 *)
  ColorFormat : Z               (* uint32 *)
}.
Definition size : Z := 26.
Definition decode (bs : list byte) : t :=
  {| MagicID := take 9 bs;
     Version := take 4 (drop 9 bs);
     VersionTerminator := at0 bs 13;
     Width := be32 (take 4 (drop 14 bs));
     Height := be32 (take 4 (drop 18 bs));
     ColorFormat := be32 (take 4 (drop 22 bs)) |}.
End fileHeader.

Module propertyHeader.
Record t := Make { MagicID : Z; Length : Z }.
Definition size : Z := 8.
Definition decode (bs : list byte) : t :=
  {| MagicID := be32 (take 4 bs); Length := be32 (take 4 (drop 4 bs)) |}.
End propertyHeader.

Module layerHeader.
Record t := Make { Width : Z; Height : Z; ColorFormat : Z }.
Definition size : Z := 12.
Definition decode (bs : list byte) : t :=
  {| Width := be32 (take 4 bs);
     Height := be32 (take 4 (drop 4 bs));
     ColorFormat := be32 (take 4 (drop 8 bs)) |}.
End layerHeader.

Module hierarchyHeader.
Record t := Make {
  Width : Z; Height : Z; BytesPerPixel : Z; FirstLevelPointer : Z
}.
Definition size : Z := 16.
Definition decode (bs : list byte) : t :=
  {| Width := be32 (take 4 bs);
     Height := be32 (take 4 (drop 4 bs));
     BytesPerPixel := be32 (take 4 (drop 8 bs));
     FirstLevelPointer := be32 (take 4 (drop 12 bs)) |}.
End hierarchyHeader.

Definition readFileHeader : M fileHeader.t :=
  let* bs := ReadFull fileHeader.size in ret (fileHeader.decode bs).
Definition readPropertyHeader : M propertyHeader.t :=
  let* bs := ReadFull propertyHeader.size in ret (propertyHeader.decode bs).
Definition readLayerHeader : M layerHeader.t :=
  let* bs := ReadFull layerHeader.size in ret (layerHeader.decode bs).
Definition readHierarchyHeader : M hierarchyHeader.t :=
  let* bs := ReadFull hierarchyHeader.size in ret (hierarchyHeader.decode bs).

(** ** Images: [image.Rectangle], [image.RGBA] *)

Record Rectangle := { MinX : Z; MinY : Z; MaxX : Z; MaxY : Z }.

(** [image.Rect]: the corners are put in order. *)
Definition imageRect (x0 y0 x1 y1 : Z) : Rectangle :=
  let '(x0, x1) := if x1 <? x0 then (x1, x0) else (x0, x1) in
  let '(y0, y1) := if y1 <? y0 then (y1, y0) else (y0, y1) in
  {| MinX := x0; MinY := y0; MaxX := x1; MaxY := y1 |}.

Definition Dx (r : Rectangle) : Z := MaxX r - MinX r.
Definition Dy (r : Rectangle) : Z := MaxY r - MinY r.

Record RGBA := { Pix : list byte; Stride : Z; Rect : Rectangle }.

(** [image.NewRGBA]: it panics when the buffer length [4 * Dx * Dy] is not
    an [int]. *)
Definition NewRGBA (r : Rectangle) : panic + RGBA :=
  let n := 4 * Dx r * Dy r in
  if (0 <=? n) && (n <? 2 ^ 63)
  then inr {| Pix := replicate (Z.to_nat n) x00; Stride := 4 * Dx r; Rect := r |}
  else inl HugeDimensions.

(** A colour: [color.RGBA]. *)
Record color := { R : byte; G : byte; B : byte; A : byte }.

Definition PixOffset (p : RGBA) (x y : Z) : Z :=
  (y - MinY (Rect p)) * Stride p + (x - MinX (Rect p)) * 4.

(** [(p *RGBA) RGBAAt(x, y)]: the pixel-fetch-by-coordinate of a layer. *)
Definition RGBAAt (p : RGBA) (x y : Z) : color :=
  let r := Rect p in
  if (MinX r <=? x) && (x <? MaxX r) && (MinY r <=? y) && (y <? MaxY r) then
    let i := Z.to_nat (PixOffset p x y) in
    {| R := at0 (Pix p) i; G := at0 (Pix p) (i + 1);
       B := at0 (Pix p) (i + 2); A := at0 (Pix p) (i + 3) |}
  else {| R := x00; G := x00; B := x00; A := x00 |}.

(** ** The canvas *)

Record Layer := {
  Image : RGBA;          (* the embedded image.Image *)
  Name : string;
  Visible : bool;
  Opacity : byte         (* uint8 *)
}.

Record Canvas := { Width : Z; Height : Z; Layers : list Layer }.

(** [GetLayerByName].  The pointer [&c.Layers[i]] is represented by the
    index [i], [nil] by [None]; the canvas a call leaves behind is returned
    with the result. *)
Fixpoint GetLayerByName_loop (i : nat) (layers : list Layer) (name : string)
  : option nat :=
  match layers with
  | [] => None
  | l :: layers' =>
      if String.eqb (Name l) name then Some i
      else GetLayerByName_loop (S i) layers' name
  end.

Definition GetLayerByName (c : Canvas) (name : string) : option nat * Canvas :=
  (GetLayerByName_loop 0 (Layers c) name, c).

(** ** Properties and strings *)

Definition skipProperty (header : propertyHeader.t) : M unit :=
  wrapErr "read XCF: unable to skip property: "
    (CopyN (propertyHeader.Length header)).

Definition readString : M string :=
  let* length := wrapErr "reading string length: " readUint32 in
  (* the empty string is stored simply as the number 0 *)
  if length =? 0 then ret EmptyString
  else
    (* the length includes a 0 terminator that has to be read as well *)
    let* got := wrapErr "reading string: " (Read length) in
    let data := overlay (replicate (Z.to_nat length) x00) 0 got in
    ret (gostring (take (Z.to_nat (length - 1)) data)).
Arguments readString file pos%_nat : rename.

(** What the property loop of [loadLayer] assigns: [layer.Visible],
    [layer.Opacity], [x] and [y]. *)
Record layerProps := {
  lpVisible : bool; lpOpacity : byte; lpX : Z; lpY : Z
}.

Fixpoint loadLayer_props (fuel : nat) (st : layerProps) : M layerProps :=
  match fuel with
  | O => spin
  | S fuel' =>
      let* propHeader := readPropertyHeader in
      let id := propertyHeader.MagicID propHeader in
      if id =? propEnd then ret st
      else if id =? propOffsets then
        let* x := readInt32 in
        let* y := readInt32 in
        loadLayer_props fuel'
          {| lpVisible := lpVisible st; lpOpacity := lpOpacity st;
             lpX := x; lpY := y |}
      else if id =? propVisible then
        let* visible := readUint32 in
        loadLayer_props fuel'
          {| lpVisible := negb (visible =? 0); lpOpacity := lpOpacity st;
             lpX := lpX st; lpY := lpY st |}
      else if id =? propOpacity then
        let* opacity := readUint32 in
        loadLayer_props fuel'
          {| lpVisible := lpVisible st; lpOpacity := uint8 opacity;
             lpX := lpX st; lpY := lpY st |}
      else
        let* _ := skipProperty propHeader in
        loadLayer_props fuel' st
  end.

(** ** readImageData *)

(** The tile grid of a layer. *)
Definition tileCountX (lh : layerHeader.t) : Z :=
  wrap32 (layerHeader.Width lh + 63) / 64.
Definition tileCountY (lh : layerHeader.t) : Z :=
  wrap32 (layerHeader.Height lh + 63) / 64.
Definition rightMostTileWidth (lh : layerHeader.t) : Z :=
  let w := layerHeader.Width lh mod 64 in if w =? 0 then 64 else w.
Definition bottomMostTileHeight (lh : layerHeader.t) : Z :=
  let h := layerHeader.Height lh mod 64 in if h =? 0 then 64 else h.

(** Width and height of the tile in column [tileX], row [tileY]. *)
Definition tileW (lh : layerHeader.t) (tileX : Z) : Z :=
  if tileX =? tileCountX lh - 1 then rightMostTileWidth lh else 64.
Definition tileH (lh : layerHeader.t) (tileY : Z) : Z :=
  if tileY =? tileCountY lh - 1 then bottomMostTileHeight lh else 64.

(** [line := pix[base:]], the bounds check of the slice expression. *)
Definition lineFrom (pix : list byte) (base : Z) : panic + unit :=
  let n := Z.of_nat (length pix) in
  if (0 <=? base) && (base <=? n) then inr tt
  else inl (SliceBoundsOutOfRange base n).

(** [line[i] = v] for [line := pix[base:]]. *)
Definition storeLine (pix : list byte) (base i : Z) (v : byte)
  : panic + list byte :=
  let n := Z.of_nat (length pix) - base in
  if (0 <=? i) && (i <? n)
  then inr (<[Z.to_nat (base + i) := v]> pix)
  else inl (IndexOutOfRange i n).

(** One pixel of a tile: the body of the loops over [x]. *)
Definition putPixel (colorFormat : Z) (data : slice) (base : Z) (x : Z)
    (st : list byte * Z) : panic + (list byte * Z) :=
  let '(pix, dataIndex) := st in
  if colorFormat =? rgbAlpha then
    let ofs := len data / 4 in
    let+ v0 := load data dataIndex in
    let+ pix := storeLine pix base (x * 4) v0 in
    let+ v1 := load data (dataIndex + ofs) in
    let+ pix := storeLine pix base (x * 4 + 1) v1 in
    let+ v2 := load data (dataIndex + 2 * ofs) in
    let+ pix := storeLine pix base (x * 4 + 2) v2 in
    let+ v3 := load data (dataIndex + 3 * ofs) in
    let+ pix := storeLine pix base (x * 4 + 3) v3 in
    inr (pix, dataIndex + 1)
  else if colorFormat =? rgbNoAlpha then
    let ofs := len data / 3 in
    let+ v0 := load data dataIndex in
    let+ pix := storeLine pix base (x * 4) v0 in
    let+ v1 := load data (dataIndex + ofs) in
    let+ pix := storeLine pix base (x * 4 + 1) v1 in
    let+ v2 := load data (dataIndex + 2 * ofs) in
    let+ pix := storeLine pix base (x * 4 + 2) v2 in
    let+ pix := storeLine pix base (x * 4 + 3) xff in
    inr (pix, dataIndex + 1)
  else inr (pix, dataIndex).

(** The loops over [y] and [x] that move one decoded tile from the planar
    [data] into the interleaved [pix]. *)
Definition scatterTile (colorFormat stride : Z) (data : slice)
    (left top w h : Z) (pix : list byte) : panic + list byte :=
  let+ st :=
    forP (Z.to_nat h) top
      (fun y st =>
         let base := stride * y in
         let+ _ := lineFrom (fst st) base in
         forP (Z.to_nat w) left (putPixel colorFormat data base) st)
      (pix, 0) in
  inr (fst st).

(** The body of the loops over [tileY] and [tileX]: [buffer] is the scratch
    buffer shared by all tiles, [pix] is [rgba.Pix]. *)
Definition readTile (lh : layerHeader.t) (bytesPerPixel stride : Z)
    (tileY tileX : Z) (st : slice * list byte) : M (slice * list byte) :=
  let '(buffer, pix) := st in
  let left := tileX * 64 in
  let top := tileY * 64 in
  let w := tileW lh tileX in
  let h := tileH lh tileY in
  let destByteCount := w * h * bytesPerPixel in
  let* _ := lift (subslice buffer destByteCount) in
  let* data := decodeRLE {| arr := arr buffer; len := destByteCount |} in
  let* pix :=
    lift (scatterTile (layerHeader.ColorFormat lh) stride data left top w h pix) in
  ret ({| arr := arr data; len := len buffer |}, pix).

(** The loop over the unused level pointers. *)
Fixpoint skipLevelPointers (fuel : nat) : M unit :=
  match fuel with
  | O => spin
  | S fuel' =>
      let* ptr := readUint32 in
      if ptr =? 0 then ret tt else skipLevelPointers fuel'
  end.

Definition readImageData (lh : layerHeader.t) (layerX layerY : Z)
    (offset : Z) : M RGBA :=
  let* _ := Seek offset in
  let* header := readHierarchyHeader in
  (* read unused level pointers *)
  let* _ := withFuel skipLevelPointers in
  (* read first level data *)
  let* _ := Seek (hierarchyHeader.FirstLevelPointer header) in
  let* levelWidth := readUint32 in
  let* levelHeight := readUint32 in
  let tileCount := tileCountX lh * tileCountY lh in
  let* tilePointers := ReadFull (4 * (tileCount + 1)) in
  let* rgba :=
    lift (NewRGBA (imageRect layerX layerY
                     (layerX + layerHeader.Width lh)
                     (layerY + layerHeader.Height lh))) in
  let bytesPerPixel := hierarchyHeader.BytesPerPixel header in
  let buffer := make (wrap32 (64 * 64 * bytesPerPixel)) in
  let* st :=
    forM (Z.to_nat (tileCountY lh)) 0
      (fun tileY =>
         forM (Z.to_nat (tileCountX lh)) 0
           (readTile lh bytesPerPixel (Stride rgba) tileY))
      (buffer, Pix rgba) in
  ret {| Pix := snd st; Stride := Stride rgba; Rect := Rect rgba |}.

(** ** loadLayer *)

Definition loadLayer (offset : Z) : M Layer :=
  let* _ := Seek offset in
  let* header := readLayerHeader in
  let cf := layerHeader.ColorFormat header in
  if negb ((cf =? rgbAlpha) || (cf =? rgbNoAlpha)) then
    fail ("unsupported layer color format, must be RGB: " +:+ fmtv cf)
  else
    let* name := readString in
    (* read properties *)
    let* props :=
      withFuel (fun fuel =>
        loadLayer_props fuel
          {| lpVisible := true; lpOpacity := x00; lpX := 0; lpY := 0 |}) in
    let* pixelPointer := readUint32 in
    let* maskPointer := readUint32 in
    let* img := readImageData header (lpX props) (lpY props) pixelPointer in
    ret {| Image := img; Name := name;
           Visible := lpVisible props; Opacity := lpOpacity props |}.
Arguments loadLayer offset file pos%_nat : rename.

(** ** Decode *)

(** The property loop of [Decode].  [finalErr] is the named result: the
    branch that skips an unknown property assigns it and goes on. *)
Fixpoint Decode_props (fuel : nat) (finalErr : option error)
  : M (option error) :=
  match fuel with
  | O => spin
  | S fuel' =>
      let* propHeader :=
        wrapErr "read XCF: error reading property header: "
          readPropertyHeader in
      let id := propertyHeader.MagicID propHeader in
      if id =? propEnd then ret finalErr
      else if id =? propColormap then
        let* colorCount :=
          wrapErr "read XCF: unable to read number of colors in color map: "
            readUint32 in
        let* _ :=
          wrapErr "read XCF: error skipping color map: "
            (CopyN (wrap32 (3 * colorCount))) in
        Decode_props fuel' finalErr
      else if id =? propCompression then
        let* got := wrapErr "read XCF: error reading compression: " (Read 1) in
        let compression := overlay [x00] 0 got in
        let c := u8 (at0 compression 0) in
        if negb (c =? rleCompression) then
          fail ("read XCF: unsupported compression: " +:+ fmtv c)
        else Decode_props fuel' finalErr
      else
        (* skip unknown properties *)
        fun file pos =>
          match skipProperty propHeader file pos with
          | Ok _ pos' => Decode_props fuel' finalErr file pos'
          | Err e pos' =>
              Decode_props fuel' (Some ("unable to skip property: " +:+ e))
                file pos'
          | Panic p => Panic p
          | OutOfFuel => OutOfFuel
          end
  end.

(** The loop that reads the layer pointers; the error of [binary.Read] is
    dropped, and [ptr] then keeps the value it had. *)
Fixpoint Decode_layerPointers (fuel : nat) (ptr : Z) (layerPointers : list Z)
  : M (list Z) := fun file pos =>
  match fuel with
  | O => OutOfFuel
  | S fuel' =>
      match readUint32 file pos with
      | Ok v pos' =>
          if v =? 0 then Ok layerPointers pos'
          else Decode_layerPointers fuel' v (layerPointers ++ [v]) file pos'
      | Err _ pos' =>
          if ptr =? 0 then Ok layerPointers pos'
          else
            Decode_layerPointers fuel' ptr (layerPointers ++ [ptr]) file pos'
      | Panic p => Panic p
      | OutOfFuel => OutOfFuel
      end
  end.

(** [for _, ptr := range layerPointers { ... }] *)
Fixpoint Decode_layers (layerPointers : list Z) (layers : list Layer)
  : M (list Layer) :=
  match layerPointers with
  | [] => ret layers
  | ptr :: rest =>
      let* layer :=
        wrapErr "read XCF: error reading layers: " (loadLayer ptr) in
      Decode_layers rest (layers ++ [layer])
  end.

(** [Decode].  The loop over the layer pointers is the one loop of the
    decoder that a file can keep running for ever; [fuel] bounds its
    turns.  Every other loop consumes input at each turn. *)
Definition Decode (fuel : nat) : M Canvas :=
  (* read header *)
  let* header := wrapErr "read XCF: error reading header: " readFileHeader in
  let magic := gostring (fileHeader.MagicID header) in
  if negb (String.eqb magic "gimp xcf ") then
    fail ("read XCF: wrong magic ID: " +:+ magic)
  else
    let version := gostring (fileHeader.Version header) in
    if negb (String.eqb version "file") then
      fail ("read XCF: unsupported file version: " +:+ version)
    else if negb (fileHeader.ColorFormat header =? rgb) then
      fail ("read XCF: unsupported color format: "
              +:+ fmtv (fileHeader.ColorFormat header))
    else
      (* read properties *)
      let* finalErr := withFuel (fun fuel => Decode_props fuel None) in
      (* read layers *)
      let* layerPointers := Decode_layerPointers fuel 0 [] in
      let* layers := Decode_layers layerPointers [] in
      ret {| Width := fileHeader.Width header;
             Height := fileHeader.Height header;
             Layers := layers |}.
Arguments Decode fuel%_nat file pos%_nat : rename.

(** * Definitions for the statements *)

(** ** Runs of the run-length code *)

(** The four kinds of run of the format, with the bytes that encode each
    and the bytes each stands for. *)
Inductive rle_run :=
| ShortFill (op value : byte)                  (* op in 0..126 *)
| LongFill (hi lo value : byte)                (* op = 127 *)
| LongCopy (hi lo : byte) (bytes : list byte)  (* op = 128 *)
| ShortCopy (op : byte) (bytes : list byte).   (* op in 129..255 *)

Definition count16 (hi lo : byte) : Z := u8 hi * 256 + u8 lo.

Definition run_wf (r : rle_run) : Prop :=
  match r with
  | ShortFill op _ => u8 op <= 126
  | LongFill _ _ _ => True
  | LongCopy hi lo bytes => Z.of_nat (length bytes) = count16 hi lo
  | ShortCopy op bytes =>
      129 <= u8 op /\ Z.of_nat (length bytes) = 256 - u8 op
  end.

Definition encode_run (r : rle_run) : list byte :=
  match r with
  | ShortFill op value => [op; value]
  | LongFill hi lo value => [x7f; hi; lo; value]
  | LongCopy hi lo bytes => x80 :: hi :: lo :: bytes
  | ShortCopy op bytes => op :: bytes
  end.

Definition expand_run (r : rle_run) : list byte :=
  match r with
  | ShortFill op value => replicate (Z.to_nat (u8 op + 1)) value
  | LongFill hi lo value => replicate (Z.to_nat (count16 hi lo)) value
  | LongCopy _ _ bytes => bytes
  | ShortCopy _ bytes => bytes
  end.

Definition encode_runs (rs : list rle_run) : list byte :=
  concat (map encode_run rs).
Definition expand_runs (rs : list rle_run) : list byte :=
  concat (map expand_run rs).

(** ** Pixels of a tile *)

(** The four bytes of the pixel whose first plane byte is [data[di]]. *)
Definition pixelBytes (colorFormat : Z) (data : slice) (di : Z) : list byte :=
  if colorFormat =? rgbAlpha then
    let ofs := len data / 4 in
    [at0 (arr data) (Z.to_nat di); at0 (arr data) (Z.to_nat (di + ofs));
     at0 (arr data) (Z.to_nat (di + 2 * ofs));
     at0 (arr data) (Z.to_nat (di + 3 * ofs))]
  else
    let ofs := len data / 3 in
    [at0 (arr data) (Z.to_nat di); at0 (arr data) (Z.to_nat (di + ofs));
     at0 (arr data) (Z.to_nat (di + 2 * ofs)); xff].

(** The bytes of [n] pixels from [data[di]] on. *)
Fixpoint rowBytes (n : nat) (colorFormat : Z) (data : slice) (di : Z)
  : list byte :=
  match n with
  | O => []
  | S n' => pixelBytes colorFormat data di ++ rowBytes n' colorFormat data (di + 1)
  end.

(** The planes are large enough for the pixels [di .. di + n - 1]. *)
Definition planesFit (cf : Z) (data : slice) (di n : Z) : Prop :=
  0 <= di /\ len data <= Z.of_nat (length (arr data))
  /\ (cf = rgbAlpha /\ 0 <= len data / 4
      /\ di + n - 1 + 3 * (len data / 4) < len data
      \/ cf = rgbNoAlpha /\ 0 <= len data / 3
         /\ di + n - 1 + 2 * (len data / 3) < len data).

(** The pixels a tile writes and the ones it leaves.  [rowsDone] says what
    the array holds after [n] scanlines from [top] on. *)
Definition rowsDone (cf : Z) (data : slice) (stride left top w : Z)
    (n : nat) (di0 : Z) (pix pix' : list byte) : Prop :=
  length pix' = length pix
  /\ (forall j i c, 0 <= j < Z.of_nat n -> 0 <= i < w -> 0 <= c < 4 ->
        pix' !! Z.to_nat (stride * (top + j) + (left + i) * 4 + c)
        = pixelBytes cf data (di0 + j * w + i) !! Z.to_nat c)
  /\ (forall k : nat,
        (forall j, 0 <= j < Z.of_nat n ->
           ~ (stride * (top + j) + left * 4 <= Z.of_nat k
              < stride * (top + j) + (left + w) * 4)) ->
        pix' !! k = pix !! k).

(** Byte [k] of plane [c] of a tile whose planes have [size] bytes. *)
Definition plane (data : slice) (size c k : Z) : byte :=
  at0 (arr data) (Z.to_nat (c * size + k)).

(** ** Property sequences of a layer *)

(** The properties [loadLayer] tells apart. *)
Inductive layerProp :=
| POffsets (x y : Z)
| PVisible (value : Z)
| POpacity (value : Z)
| POther (id : Z).

Definition propId (bs : list byte) : Z :=
  propertyHeader.MagicID (propertyHeader.decode (take 8 bs)).
Definition propLength (bs : list byte) : Z :=
  propertyHeader.Length (propertyHeader.decode (take 8 bs)).

(** [propsAt bs ps rest]: the bytes [bs] hold the property sequence [ps],
    then the End property, then [rest].  Offsets has two 4-byte values,
    Visible and Opacity one, and any other property has as many bytes as
    its header says. *)
Inductive propsAt : list byte -> list layerProp -> list byte -> Prop :=
| props_End bs :
    (8 <= length bs)%nat -> propId bs = propEnd ->
    propsAt bs [] (drop 8 bs)
| props_Offsets bs ps rest :
    (16 <= length bs)%nat -> propId bs = propOffsets ->
    propsAt (drop 16 bs) ps rest ->
    propsAt bs (POffsets (be32s (take 4 (drop 8 bs)))
                  (be32s (take 4 (drop 12 bs))) :: ps) rest
| props_Visible bs ps rest :
    (12 <= length bs)%nat -> propId bs = propVisible ->
    propsAt (drop 12 bs) ps rest ->
    propsAt bs (PVisible (be32 (take 4 (drop 8 bs))) :: ps) rest
| props_Opacity bs ps rest :
    (12 <= length bs)%nat -> propId bs = propOpacity ->
    propsAt (drop 12 bs) ps rest ->
    propsAt bs (POpacity (be32 (take 4 (drop 8 bs))) :: ps) rest
| props_Other bs ps rest :
    (8 + Z.to_nat (propLength bs) <= length bs)%nat ->
    propId bs <> propEnd -> propId bs <> propOffsets ->
    propId bs <> propVisible -> propId bs <> propOpacity ->
    propsAt (drop (8 + Z.to_nat (propLength bs)) bs) ps rest ->
    propsAt bs (POther (propId bs) :: ps) rest.

(** [propsStart bs ps rest]: the bytes [bs] hold the properties [ps], none
    of them End, and then [rest]. *)
Inductive propsStart : list byte -> list layerProp -> list byte -> Prop :=
| pstart_nil bs : propsStart bs [] bs
| pstart_Offsets bs ps rest :
    (16 <= length bs)%nat -> propId bs = propOffsets ->
    propsStart (drop 16 bs) ps rest ->
    propsStart bs (POffsets (be32s (take 4 (drop 8 bs)))
                     (be32s (take 4 (drop 12 bs))) :: ps) rest
| pstart_Visible bs ps rest :
    (12 <= length bs)%nat -> propId bs = propVisible ->
    propsStart (drop 12 bs) ps rest ->
    propsStart bs (PVisible (be32 (take 4 (drop 8 bs))) :: ps) rest
| pstart_Opacity bs ps rest :
    (12 <= length bs)%nat -> propId bs = propOpacity ->
    propsStart (drop 12 bs) ps rest ->
    propsStart bs (POpacity (be32 (take 4 (drop 8 bs))) :: ps) rest
| pstart_Other bs ps rest :
    (8 + Z.to_nat (propLength bs) <= length bs)%nat ->
    propId bs <> propEnd -> propId bs <> propOffsets ->
    propId bs <> propVisible -> propId bs <> propOpacity ->
    propsStart (drop (8 + Z.to_nat (propLength bs)) bs) ps rest ->
    propsStart bs (POther (propId bs) :: ps) rest.

(** The value of the last Visible, Opacity, Offsets property, if any. *)
Definition visibleOf (ps : list layerProp) : option Z :=
  last (omap (fun p => match p with PVisible v => Some v | _ => None end) ps).
Definition opacityOf (ps : list layerProp) : option Z :=
  last (omap (fun p => match p with POpacity v => Some v | _ => None end) ps).
Definition offsetsOf (ps : list layerProp) : option (Z * Z) :=
  last (omap (fun p => match p with POffsets x y => Some (x, y) | _ => None end)
          ps).

(** What a property sequence makes of the values the loop starts with. *)
Definition propsResult (st : layerProps) (ps : list layerProp) : layerProps :=
  {| lpVisible := match visibleOf ps with
                  | Some v => negb (v =? 0)
                  | None => lpVisible st
                  end;
     lpOpacity := match opacityOf ps with
                  | Some v => uint8 v
                  | None => lpOpacity st
                  end;
     lpX := match offsetsOf ps with Some xy => fst xy | None => lpX st end;
     lpY := match offsetsOf ps with Some xy => snd xy | None => lpY st end |}.

(** One property at a time. *)
Definition propStep (st : layerProps) (p : layerProp) : layerProps :=
  match p with
  | POffsets x y =>
      {| lpVisible := lpVisible st; lpOpacity := lpOpacity st;
         lpX := x; lpY := y |}
  | PVisible v =>
      {| lpVisible := negb (v =? 0); lpOpacity := lpOpacity st;
         lpX := lpX st; lpY := lpY st |}
  | POpacity v =>
      {| lpVisible := lpVisible st; lpOpacity := uint8 v;
         lpX := lpX st; lpY := lpY st |}
  | POther _ => st
  end.

(** ** The layer offset list *)

(** The layer offset list that a run of bytes starts with: its 4-byte
    entries up to the zero entry (or up to where the bytes run out). *)
Fixpoint layerOffsetList (bs : list byte) : list Z :=
  match bs with
  | b0 :: b1 :: b2 :: b3 :: rest =>
      let ptr := be32 [b0; b1; b2; b3] in
      if ptr =? 0 then [] else ptr :: layerOffsetList rest
  | _ => []
  end.

(** ** Fuel

    [consumes m k]: [m] does not run out of fuel, and where it returns it
    has moved the cursor over at least [k] bytes of the file. *)
Definition consumes {A} (m : M A) (k : nat) : Prop :=
  forall file pos,
    match m file pos with
    | Ok _ pos' =>
        (length (avail file pos') + k <= length (avail file pos))%nat
    | OutOfFuel => False
    | _ => True
    end.

(** [total m]: [m] does not run out of fuel. *)
Definition total {A} (m : M A) : Prop :=
  forall file pos, m file pos <> OutOfFuel.

(** ** A small file

    A canvas of 2 x 1 with two layers.  The first, "bg", is 2 x 1 with
    alpha, has the properties Visible 0, Opacity 511 and Offsets (1, -1)
    and one tile of eight literal bytes; the second has the empty name, is
    1 x 1 without alpha, has no property and one tile of three literal
    bytes. *)
Definition u32 (z : Z) : list byte :=
  [uint8 (z / 2 ^ 24); uint8 (z / 2 ^ 16); uint8 (z / 2 ^ 8); uint8 z].

Definition sample_xcf : list byte := Eval vm_compute in
  (* 0: file header *)
  String.list_byte_of_string "gimp xcf file" ++ [x00]
    ++ u32 2 ++ u32 1 ++ u32 rgb
  (* 26: canvas properties *)
    ++ u32 propCompression ++ u32 1 ++ [x01]
    ++ u32 19 ++ u32 2 ++ [x07; x07]
    ++ u32 propEnd ++ u32 0
  (* 53: layer pointers *)
    ++ u32 65 ++ u32 185 ++ u32 0
  (* 65: first layer *)
    ++ u32 2 ++ u32 1 ++ u32 rgbAlpha
    ++ u32 3 ++ String.list_byte_of_string "bg" ++ [x00]
    ++ u32 propVisible ++ u32 4 ++ u32 0
    ++ u32 propOpacity ++ u32 4 ++ u32 511
    ++ u32 propOffsets ++ u32 8 ++ u32 1 ++ u32 (2 ^ 32 - 1)
    ++ u32 propEnd ++ u32 0
    ++ u32 140 ++ u32 0
  (* 140: hierarchy, 160: level, 176: tile *)
    ++ u32 2 ++ u32 1 ++ u32 4 ++ u32 160 ++ u32 0
    ++ u32 2 ++ u32 1 ++ u32 176 ++ u32 0
    ++ [xf8; x01; x02; x03; x04; x05; x06; x07; x08]
  (* 185: second layer *)
    ++ u32 1 ++ u32 1 ++ u32 rgbNoAlpha
    ++ u32 0
    ++ u32 propEnd ++ u32 0
    ++ u32 217 ++ u32 0
  (* 217: hierarchy, 237: level, 253: tile *)
    ++ u32 1 ++ u32 1 ++ u32 3 ++ u32 237 ++ u32 0
    ++ u32 1 ++ u32 1 ++ u32 253 ++ u32 0
    ++ [xfd; x0a; x0b; x0c].

(** ** The file header and the canvas properties *)

(** The header [Decode] accepts. *)
Definition headerAccepted (header : fileHeader.t) : Prop :=
  gostring (fileHeader.MagicID header) = "gimp xcf "
  /\ gostring (fileHeader.Version header) = "file"
  /\ fileHeader.ColorFormat header = rgb.

(** The properties [Decode] tells apart, End aside. *)
Inductive canvasProp :=
| CColormap (colorCount : Z)
| CCompression
| COther (id length : Z).

(** [canvasPropsAt bs ps rest]: the bytes [bs] hold the properties [ps] and
    then [rest].  A colour map has the 4 bytes of its colour count and
    three bytes per colour, Compression has the one byte of RLE, and any
    other property has as many bytes as its header says. *)
Inductive canvasPropsAt : list byte -> list canvasProp -> list byte -> Prop :=
| cprops_nil bs : canvasPropsAt bs [] bs
| cprops_Colormap bs ps rest :
    (12 + Z.to_nat (wrap32 (3 * be32 (take 4 (drop 8 bs)))) <= length bs)%nat ->
    propId bs = propColormap ->
    canvasPropsAt
      (drop (12 + Z.to_nat (wrap32 (3 * be32 (take 4 (drop 8 bs))))) bs)
      ps rest ->
    canvasPropsAt bs (CColormap (be32 (take 4 (drop 8 bs))) :: ps) rest
| cprops_Compression bs ps rest :
    (9 <= length bs)%nat -> propId bs = propCompression ->
    u8 (at0 bs 8) = rleCompression ->
    canvasPropsAt (drop 9 bs) ps rest ->
    canvasPropsAt bs (CCompression :: ps) rest
| cprops_Other bs ps rest :
    (8 + Z.to_nat (propLength bs) <= length bs)%nat ->
    propId bs <> propEnd -> propId bs <> propColormap ->
    propId bs <> propCompression ->
    canvasPropsAt (drop (8 + Z.to_nat (propLength bs)) bs) ps rest ->
    canvasPropsAt bs (COther (propId bs) (propLength bs) :: ps) rest.

(** Whether the layer offset list that a run of bytes starts with has its
    zero entry. *)
Fixpoint offsetListEnds (bs : list byte) : bool :=
  match bs with
  | b0 :: b1 :: b2 :: b3 :: rest =>
      if be32 [b0; b1; b2; b3] =? 0 then true else offsetListEnds rest
  | _ => false
  end.

(** The runs [rs] fill a destination of [n] bytes, and the last of them is
    needed for it. *)
Definition runsFill (n : Z) (rs : list rle_run) : Prop :=
  Forall run_wf rs
  /\ Z.of_nat (length (expand_runs rs)) = n
  /\ exists rs0 r,
       rs = rs0 ++ [r] /\ Z.of_nat (length (expand_runs rs0)) < n.

(** ** The tiles of a layer in the stream *)

(** The encoded tiles of a layer in the order [readImageData] reads them:
    row by row, and from left to right in a row; [runsOf tileY tileX] are
    the runs of the tile in row [tileY] and column [tileX]. *)
Definition tileStream (lh : layerHeader.t) (runsOf : Z -> Z -> list rle_run)
  : list byte :=
  concat
    (map (fun tileY =>
            concat (map (fun tileX => encode_runs (runsOf tileY tileX))
                      (seqZ 0 (tileCountX lh))))
       (seqZ 0 (tileCountY lh))).

(** The colour of pixel [k] of a tile of [size] pixels whose decoded planes
    are the bytes [bs]. *)
Definition tilePixel (cf : Z) (bs : list byte) (size k : Z) : color :=
  {| R := at0 bs (Z.to_nat k);
     G := at0 bs (Z.to_nat (size + k));
     B := at0 bs (Z.to_nat (2 * size + k));
     A := if cf =? rgbAlpha then at0 bs (Z.to_nat (3 * size + k)) else xff |}.

(** The planes that the runs of a tile expand to, as a slice. *)
Definition tileData (rs : list rle_run) : slice :=
  {| arr := expand_runs rs; len := Z.of_nat (length (expand_runs rs)) |}.

(** The four bytes of the pixel [x], [y] of a layer, from the runs of the
    tile it lies in. *)
Definition pixelOf (lh : layerHeader.t) (runsOf : Z -> Z -> list rle_run)
    (x y : Z) : list byte :=
  pixelBytes (layerHeader.ColorFormat lh) (tileData (runsOf (y / 64) (x / 64)))
    (y mod 64 * tileW lh (x / 64) + x mod 64).

(** Where byte [c] of the pixel [x], [y] lies in the pixel buffer of an
    image of width [W]. *)
Definition pixIndex (W x y c : Z) : nat := Z.to_nat (4 * W * y + x * 4 + c).

(** [offsetListAt file pos p1]: read from [pos], the file has a header that
    [Decode] accepts and canvas properties that its loop reads through, up
    to [p1], where the layer offset list is due. *)
Definition offsetListAt (file : list byte) (pos p1 : nat) : Prop :=
  (26 <= length (avail file pos))%nat
  /\ headerAccepted (fileHeader.decode (take 26 (avail file pos)))
  /\ exists finalErr,
       withFuel (fun fuel => Decode_props fuel None) file (pos + 26)%nat
       = Ok finalErr p1.

(** * Properties *)

(** ** Bytes, integers and the stream primitives *)

Lemma u8_range (b : byte) : 0 <= u8 b < 256.
Proof.
  unfold u8. pose proof (Byte.to_N_bounded b) as Hb.
  split; [apply N2Z.is_nonneg | lia].
Qed.

Lemma be32_range (bs : list byte) : 0 <= be32 bs < 2 ^ 32.
Proof.
  unfold be32.
  destruct bs as [|b0 [|b1 [|b2 [|b3 [|? ?]]]]]; try lia.
  pose proof (u8_range b0). pose proof (u8_range b1).
  pose proof (u8_range b2). pose proof (u8_range b3). lia.
Qed.

Lemma avail_length file pos :
  length (avail file pos) = (length file - pos)%nat.
Proof. unfold avail. apply length_drop. Qed.

Lemma avail_add file pos n : avail file (pos + n) = drop n (avail file pos).
Proof. unfold avail. by rewrite drop_drop. Qed.

(** A read of [n > 0] bytes where [n] bytes are left returns them all. *)
Lemma Read_enough n file pos :
  0 < n -> (Z.to_nat n <= length (avail file pos))%nat ->
  Read n file pos = Ok (take (Z.to_nat n) (avail file pos)) (pos + Z.to_nat n).
Proof.
  intros Hn Hlen. unfold Read.
  destruct (Z.leb_spec n 0) as [|_]; [lia|].
  destruct (take (Z.to_nat n) (avail file pos)) as [|b got] eqn:E.
  - apply (f_equal length) in E. rewrite length_take in E. simpl in E. lia.
  - f_equal. rewrite <- E, length_take. lia.
Qed.

Lemma Read_prefix n file pos bs rest :
  avail file pos = bs ++ rest -> Z.of_nat (length bs) = n ->
  Read n file pos = Ok bs (pos + length bs).
Proof.
  intros E Hl. destruct bs as [|b bs].
  - unfold Read. simpl in *. subst n. simpl. by rewrite Nat.add_0_r.
  - rewrite Read_enough; [| simpl in Hl; lia | rewrite E, length_app; lia].
    rewrite E. replace (Z.to_nat n) with (length (b :: bs)) by lia.
    by rewrite take_app_length.
Qed.

Lemma avail_prefix file pos bs rest :
  avail file pos = bs ++ rest -> avail file (pos + length bs) = rest.
Proof. intros E. by rewrite avail_add, E, drop_app_length. Qed.

Lemma ReadFull_enough n file pos :
  (Z.to_nat n <= length (avail file pos))%nat ->
  ReadFull n file pos
  = Ok (take (Z.to_nat n) (avail file pos)) (pos + Z.to_nat n).
Proof.
  intros Hlen. unfold ReadFull.
  destruct (Z.leb_spec n 0) as [Hn|Hn].
  - replace (Z.to_nat n) with 0%nat by lia. simpl. by rewrite Nat.add_0_r.
  - rewrite decide_True by (rewrite length_take; lia).
    f_equal. rewrite length_take. lia.
Qed.

Lemma ReadFull_prefix n file pos bs rest :
  avail file pos = bs ++ rest -> Z.of_nat (length bs) = n ->
  ReadFull n file pos = Ok bs (pos + length bs).
Proof.
  intros E Hl. rewrite ReadFull_enough by (rewrite E, length_app; lia).
  rewrite E. replace (Z.to_nat n) with (length bs) by lia.
  by rewrite take_app_length.
Qed.

(** A failed [ReadFull] leaves the cursor at the end of the file. *)
Lemma ReadFull_short n file pos :
  (length (avail file pos) < Z.to_nat n)%nat ->
  exists e pos', ReadFull n file pos = Err e pos' /\ avail file pos' = [].
Proof.
  intros Hlen. unfold ReadFull.
  destruct (Z.leb_spec n 0) as [Hn|Hn]; [lia|].
  rewrite decide_False by (rewrite length_take; lia).
  rewrite take_ge by lia.
  destruct (avail file pos) as [|b l] eqn:E.
  - eauto.
  - eexists _, _. split; [reflexivity|].
    rewrite avail_add, E. apply drop_all.
Qed.

(** No primitive moves the cursor backwards, and none runs out of fuel. *)
Lemma Read_cursor n file pos :
  match Read n file pos with
  | Ok got pos' => pos' = (pos + length got)%nat
                   /\ (0 < n -> got <> [])
                   /\ got = take (Z.to_nat n) (avail file pos)
  | Err e pos' => pos' = pos /\ avail file pos = []
  | _ => False
  end.
Proof.
  unfold Read. destruct (Z.leb_spec n 0) as [Hn|Hn].
  - split; [simpl; lia|]. split; [lia|].
    replace (Z.to_nat n) with 0%nat by lia. done.
  - destruct (take (Z.to_nat n) (avail file pos)) as [|b got] eqn:E.
    + split; [done|]. destruct (avail file pos); [done|].
      destruct (Z.to_nat n) eqn:En; [lia|done].
    + done.
Qed.

Lemma ReadFull_cursor n file pos :
  match ReadFull n file pos with
  | Ok got pos' => pos' = (pos + length got)%nat
                   /\ length got = Z.to_nat n
                   /\ got = take (Z.to_nat n) (avail file pos)
  | Err e pos' => (pos <= pos')%nat /\ avail file pos' = []
  | _ => False
  end.
Proof.
  destruct (le_lt_dec (Z.to_nat n) (length (avail file pos))) as [H|H].
  - rewrite ReadFull_enough by done. rewrite length_take.
    repeat split; lia.
  - unfold ReadFull.
    destruct (Z.leb_spec n 0) as [Hn|Hn]; [lia|].
    rewrite decide_False by (rewrite length_take; lia).
    rewrite take_ge by lia.
    destruct (avail file pos) as [|b l] eqn:E.
    + done.
    + split; [lia|]. rewrite avail_add, E. apply drop_all.
Qed.

Lemma CopyN_cursor n file pos :
  match CopyN n file pos with
  | Ok _ pos' => pos' = (pos + Z.to_nat n)%nat
                 /\ (Z.to_nat n <= length (avail file pos))%nat
  | Err e pos' => (pos <= pos')%nat /\ avail file pos' = []
  | _ => False
  end.
Proof.
  unfold CopyN.
  destruct (decide (length (take (Z.to_nat n) (avail file pos)) = Z.to_nat n))
    as [E|E]; rewrite length_take in E |- *.
  - split; lia.
  - split; [lia|]. rewrite Nat.min_r by lia.
    rewrite avail_add. apply drop_all.
Qed.

(** ** Writing a run of bytes into an array *)

Lemma overlay_nil l i : overlay l i [] = l.
Proof.
  unfold overlay. simpl. rewrite Nat.add_0_r. apply take_drop.
Qed.

Lemma length_overlay l i bs :
  (Z.to_nat i + length bs <= length l)%nat ->
  length (overlay l i bs) = length l.
Proof.
  intros H. unfold overlay.
  rewrite !length_app, length_take, length_drop. lia.
Qed.

(** Two writes one after the other are one write of both runs. *)
Lemma overlay_overlay l i bs j cs :
  0 <= i -> j = i + Z.of_nat (length bs) ->
  (Z.to_nat i + length bs <= length l)%nat ->
  overlay (overlay l i bs) j cs = overlay l i (bs ++ cs).
Proof.
  intros Hi -> Hlen. unfold overlay.
  replace (Z.to_nat (i + Z.of_nat (length bs)))
    with (Z.to_nat i + length bs)%nat by lia.
  set (k := Z.to_nat i) in *.
  assert (Hk : length (take k l) = k) by (rewrite length_take; lia).
  rewrite (app_assoc (take k l) bs).
  rewrite take_app_length' by (rewrite length_app; lia).
  rewrite drop_app_ge by (rewrite length_app; lia).
  rewrite drop_drop, !length_app, Hk, <- !app_assoc.
  do 4 f_equal. lia.
Qed.

Lemma insert_overlay l i v :
  0 <= i < Z.of_nat (length l) -> <[Z.to_nat i := v]> l = overlay l i [v].
Proof.
  intros H. unfold overlay. simpl.
  rewrite insert_take_drop by lia. do 3 f_equal. lia.
Qed.

(** What lies before a write is not touched, nor what lies after. *)
Lemma take_overlay l i bs :
  (Z.to_nat i <= length l)%nat -> take (Z.to_nat i) (overlay l i bs) = take (Z.to_nat i) l.
Proof.
  intros H. unfold overlay. rewrite take_app_length'; [done|].
  rewrite length_take. lia.
Qed.

Lemma overlay_at_0 l bs :
  (length bs <= length l)%nat -> overlay l 0 bs = bs ++ drop (length bs) l.
Proof. intros H. unfold overlay. by simpl. Qed.

(** A fill that fits writes [count] copies of [value] at [next]. *)
Lemma fillRun_fits count a n next value :
  0 <= next -> next + Z.of_nat count <= n -> n <= Z.of_nat (length a) ->
  fillRun count {| arr := a; len := n |} next value
  = inr ({| arr := overlay a next (replicate count value); len := n |},
         next + Z.of_nat count).
Proof.
  revert a next. induction count as [|count IH]; intros a next H0 H1 H2.
  - simpl. rewrite overlay_nil. do 3 f_equal. lia.
  - simpl. unfold store. simpl.
    destruct (Z.leb_spec 0 next); [|lia].
    destruct (Z.ltb_spec next n); [|lia]. simpl.
    rewrite insert_overlay by lia.
    rewrite IH; [| lia | lia | rewrite length_overlay; simpl; lia].
    rewrite overlay_overlay by (simpl; lia).
    simpl. do 2 f_equal. lia.
Qed.

(** A fill that does not fit stops with a panic at the end of the
    destination. *)
Lemma fillRun_overshoot count a n next value :
  0 <= next <= n -> n < next + Z.of_nat count ->
  fillRun count {| arr := a; len := n |} next value
  = inl (IndexOutOfRange n n).
Proof.
  revert a next. induction count as [|count IH]; intros a next H0 H1.
  - lia.
  - simpl. unfold store. simpl.
    destruct (Z.leb_spec 0 next); [|lia].
    destruct (Z.ltb_spec next n); simpl.
    + apply IH; lia.
    + do 2 f_equal; lia.
Qed.

(** The scratch array of [decodeRLE] after a read into [buffer[1:]]. *)
Lemma buffer_overlay_1 buffer b1 :
  length buffer = 4%nat ->
  at0 (overlay buffer 1 [b1]) 1 = b1 /\ length (overlay buffer 1 [b1]) = 4%nat.
Proof.
  intros H. destruct buffer as [|? [|? [|? [|? [|? ?]]]]]; done.
Qed.

Lemma buffer_overlay_2 buffer b1 b2 :
  length buffer = 4%nat ->
  let buffer' := overlay buffer 1 [b1; b2] in
  at0 buffer' 1 = b1 /\ at0 buffer' 2 = b2 /\ length buffer' = 4%nat.
Proof.
  intros H. destruct buffer as [|? [|? [|? [|? [|? ?]]]]]; done.
Qed.

Lemma buffer_overlay_3 buffer b1 b2 b3 :
  length buffer = 4%nat ->
  let buffer' := overlay buffer 1 [b1; b2; b3] in
  at0 buffer' 1 = b1 /\ at0 buffer' 2 = b2 /\ at0 buffer' 3 = b3
  /\ length buffer' = 4%nat.
Proof.
  intros H. destruct buffer as [|? [|? [|? [|? [|? ?]]]]]; done.
Qed.

Lemma buffer_overlay_0 buffer b0 :
  length buffer = 4%nat ->
  at0 (overlay buffer 0 [b0]) 0 = b0 /\ length (overlay buffer 0 [b0]) = 4%nat.
Proof.
  intros H. destruct buffer as [|? [|? [|? [|? [|? ?]]]]]; done.
Qed.

(** ** The run-length decoder *)

Lemma bind_Ok {A B} (m : M A) (k : A -> M B) file pos a pos' :
  m file pos = Ok a pos' -> bind m k file pos = k a file pos'.
Proof. intros H. unfold bind. by rewrite H. Qed.

Lemma copyRun_fits count dest next file pos bytes rest :
  avail file pos = bytes ++ rest -> Z.of_nat (length bytes) = count ->
  next + count <= cap dest ->
  copyRun count dest next file pos
  = Ok ({| arr := overlay (arr dest) next bytes; len := len dest |},
        next + count) (pos + length bytes)%nat.
Proof.
  intros E Hl Hc. unfold copyRun, subslice.
  destruct (Z.leb_spec (next + count) (cap dest)); [|lia].
  unfold bind at 1. simpl.
  by rewrite (bind_Ok _ _ _ _ _ _ (Read_prefix _ _ _ _ _ E Hl)).
Qed.

Lemma copyRun_beyond_cap count dest next file pos :
  cap dest < next + count ->
  copyRun count dest next file pos
  = Panic (SliceBoundsOutOfRange (next + count) (cap dest)).
Proof.
  intros Hc. unfold copyRun, subslice.
  destruct (Z.leb_spec (next + count) (cap dest)); [lia|]. done.
Qed.

(** One turn of the loop, for each kind of control byte. *)
Lemma step_ShortFill fuel buffer dest next file pos op value rest :
  next < len dest -> length buffer = 4%nat ->
  avail file pos = [op; value] ++ rest -> u8 op <= 126 ->
  exists buffer', length buffer' = 4%nat /\
    decodeRLE_loop (S fuel) buffer dest next file pos
    = match fillRun (Z.to_nat (u8 op + 1)) dest next value with
      | inl p => Panic p
      | inr st =>
          decodeRLE_loop fuel buffer' (fst st) (snd st) file (pos + 2)%nat
      end.
Proof.
  intros Hnext Hbuf E Hop.
  destruct (buffer_overlay_0 buffer op Hbuf) as [B0 L0].
  destruct (buffer_overlay_1 _ value L0) as [B1 L1].
  eexists. split; [exact L1|].
  simpl. destruct (Z.ltb_spec next (len dest)); [|lia].
  rewrite (bind_Ok _ _ _ _ [op] (pos + 1)%nat)
    by (apply (Read_prefix 1 _ _ [op] (value :: rest)); done).
  rewrite B0. destruct (Z.leb_spec (u8 op) 126); [|lia].
  rewrite (bind_Ok _ _ _ _ [value] (pos + 2)%nat).
  2:{ replace (pos + 2)%nat with (pos + 1 + length [value])%nat by (simpl; lia).
      apply (Read_prefix 1 _ _ [value] rest); [|done].
      exact (avail_prefix _ _ [op] _ E). }
  rewrite B1. unfold bind, lift.
  by destruct (fillRun _ _ _ _).
Qed.

Lemma step_LongFill fuel buffer dest next file pos op hi lo value rest :
  next < len dest -> length buffer = 4%nat ->
  avail file pos = [op; hi; lo; value] ++ rest -> u8 op = 127 ->
  exists buffer', length buffer' = 4%nat /\
    decodeRLE_loop (S fuel) buffer dest next file pos
    = match fillRun (Z.to_nat (count16 hi lo)) dest next value with
      | inl p => Panic p
      | inr st =>
          decodeRLE_loop fuel buffer' (fst st) (snd st) file (pos + 4)%nat
      end.
Proof.
  intros Hnext Hbuf E Hop.
  destruct (buffer_overlay_0 buffer op Hbuf) as [B0 L0].
  destruct (buffer_overlay_3 _ hi lo value L0) as (B1 & B2 & B3 & L1).
  eexists. split; [exact L1|].
  simpl. destruct (Z.ltb_spec next (len dest)); [|lia].
  rewrite (bind_Ok _ _ _ _ [op] (pos + 1)%nat)
    by (apply (Read_prefix 1 _ _ [op] (hi :: lo :: value :: rest)); done).
  rewrite B0, Hop. simpl.
  rewrite (bind_Ok _ _ _ _ [hi; lo; value] (pos + 4)%nat).
  2:{ replace (pos + 4)%nat
        with (pos + 1 + length [hi; lo; value])%nat by (simpl; lia).
      apply (Read_prefix 3 _ _ [hi; lo; value] rest); [|done].
      exact (avail_prefix _ _ [op] _ E). }
  rewrite B1, B2, B3. unfold bind, lift, count16.
  by destruct (fillRun _ _ _ _).
Qed.

Lemma step_LongCopy fuel buffer dest next file pos op hi lo rest :
  next < len dest -> length buffer = 4%nat ->
  avail file pos = [op; hi; lo] ++ rest -> u8 op = 128 ->
  exists buffer', length buffer' = 4%nat /\
    decodeRLE_loop (S fuel) buffer dest next file pos
    = bind (copyRun (count16 hi lo) dest next)
        (fun st => decodeRLE_loop fuel buffer' (fst st) (snd st))
        file (pos + 3)%nat.
Proof.
  intros Hnext Hbuf E Hop.
  destruct (buffer_overlay_0 buffer op Hbuf) as [B0 L0].
  destruct (buffer_overlay_2 _ hi lo L0) as (B1 & B2 & L1).
  eexists. split; [exact L1|].
  simpl. destruct (Z.ltb_spec next (len dest)); [|lia].
  rewrite (bind_Ok _ _ _ _ [op] (pos + 1)%nat)
    by (apply (Read_prefix 1 _ _ [op] (hi :: lo :: rest)); done).
  rewrite B0, Hop. simpl.
  rewrite (bind_Ok _ _ _ _ [hi; lo] (pos + 3)%nat).
  2:{ replace (pos + 3)%nat
        with (pos + 1 + length [hi; lo])%nat by (simpl; lia).
      apply (Read_prefix 2 _ _ [hi; lo] rest); [|done].
      exact (avail_prefix _ _ [op] _ E). }
  by rewrite B1, B2.
Qed.

Lemma step_ShortCopy fuel buffer dest next file pos op rest :
  next < len dest -> length buffer = 4%nat ->
  avail file pos = [op] ++ rest -> 129 <= u8 op ->
  exists buffer', length buffer' = 4%nat /\
    decodeRLE_loop (S fuel) buffer dest next file pos
    = bind (copyRun (256 - u8 op) dest next)
        (fun st => decodeRLE_loop fuel buffer' (fst st) (snd st))
        file (pos + 1)%nat.
Proof.
  intros Hnext Hbuf E Hop.
  destruct (buffer_overlay_0 buffer op Hbuf) as [B0 L0].
  eexists. split; [exact L0|].
  simpl. destruct (Z.ltb_spec next (len dest)); [|lia].
  rewrite (bind_Ok _ _ _ _ [op] (pos + 1)%nat)
    by (apply (Read_prefix 1 _ _ [op] rest); done).
  rewrite B0.
  destruct (Z.leb_spec (u8 op) 126); [lia|].
  destruct (Z.eqb_spec (u8 op) 127); [lia|].
  destruct (Z.eqb_spec (u8 op) 128); [lia|]. done.
Qed.

Lemma expand_runs_cons r rs : expand_runs (r :: rs) = expand_run r ++ expand_runs rs.
Proof. done. Qed.

Lemma encode_runs_cons r rs : encode_runs (r :: rs) = encode_run r ++ encode_runs rs.
Proof. done. Qed.

Lemma encode_run_length r : (1 <= length (encode_run r))%nat.
Proof. destruct r; simpl; lia. Qed.

Lemma count16_range hi lo : 0 <= count16 hi lo < 65536.
Proof.
  unfold count16. pose proof (u8_range hi). pose proof (u8_range lo). lia.
Qed.

(** The loop runs through a sequence of well-formed runs that fits the
    destination: it arrives, with the runs written one after the other from
    [next] on, at the state from which the rest of the stream is decoded. *)
Lemma decodeRLE_loop_runs rs :
  forall fuel buffer a n next file pos rest,
    Forall run_wf rs ->
    avail file pos = encode_runs rs ++ rest ->
    length buffer = 4%nat ->
    0 <= next -> next + Z.of_nat (length (expand_runs rs)) <= n ->
    n <= Z.of_nat (length a) ->
    (length rs < fuel)%nat ->
    exists fuel' buffer' pos',
      decodeRLE_loop fuel buffer {| arr := a; len := n |} next file pos
      = decodeRLE_loop fuel' buffer'
          {| arr := overlay a next (expand_runs rs); len := n |}
          (next + Z.of_nat (length (expand_runs rs))) file pos'
      /\ length buffer' = 4%nat
      /\ (fuel - length rs <= fuel')%nat
      /\ (next + Z.of_nat (length (expand_runs rs)) < n ->
          pos' = (pos + length (encode_runs rs))%nat).
Proof.
  induction rs as [|r rs IH];
    intros fuel buffer a n next file pos rest Hwf E Hbuf H0 Hfit Hcap Hfuel.
  { exists fuel, buffer, pos. simpl.
    rewrite overlay_nil, Z.add_0_r, Nat.add_0_r. repeat split; [done|lia]. }
  apply Forall_cons in Hwf as [Hr Hwf].
  rewrite expand_runs_cons, length_app in Hfit |- *.
  rewrite encode_runs_cons, <- app_assoc in E.
  rewrite encode_runs_cons, length_app.
  destruct (Z.ltb_spec next n) as [Hlt|Hge].
  2:{ (* the destination is full: every run that is left is empty *)
      assert (expand_run r = []) as Er by (apply length_zero_iff_nil; lia).
      assert (expand_runs rs = []) as Ers by (apply length_zero_iff_nil; lia).
      exists fuel, buffer, pos. rewrite Er, Ers. simpl.
      rewrite overlay_nil, Z.add_0_r. repeat split; [done|lia|lia]. }
  destruct fuel as [|fuel]; [simpl in Hfuel; lia|]. simpl in Hfuel.
  assert (forall k bs a1 next1 pos1,
    avail file pos1 = encode_runs rs ++ rest ->
    pos1 = (pos + k)%nat ->
    length (encode_run r) = k -> expand_run r = bs ->
    a1 = overlay a next bs -> next1 = next + Z.of_nat (length bs) ->
    forall buffer1, length buffer1 = 4%nat ->
    exists fuel' buffer' pos',
      decodeRLE_loop fuel buffer1 {| arr := a1; len := n |} next1 file pos1
      = decodeRLE_loop fuel' buffer'
          {| arr := overlay a next (expand_run r ++ expand_runs rs); len := n |}
          (next + Z.of_nat (length (expand_run r) + length (expand_runs rs)))
          file pos'
      /\ length buffer' = 4%nat
      /\ (S fuel - length (r :: rs) <= fuel')%nat
      /\ (next + Z.of_nat (length (expand_run r) + length (expand_runs rs)) < n ->
          pos' = (pos + (length (encode_run r) + length (encode_runs rs)))%nat))
    as Hrest.
  { intros k bs a1 next1 pos1 E1 -> Hk Hbs -> -> buffer1 Hb1.
    rewrite Hbs in Hfit |- *.
    destruct (IH fuel buffer1 (overlay a next bs) n
                (next + Z.of_nat (length bs)) file (pos + k)%nat rest)
      as (fuel' & buffer' & pos' & Heq & HL & Hf & Hpos);
      [done|done|done|lia|lia| |lia|].
    { rewrite length_overlay; lia. }
    exists fuel', buffer', pos'. rewrite Heq.
    rewrite overlay_overlay by lia.
    repeat split; [|done|simpl; lia|].
    - f_equal. lia.
    - intros Hlt'. rewrite Hpos by lia. lia. }
  destruct r as [op value|hi lo value|hi lo bytes|op bytes]; simpl in Hr.
  - (* 0..126 *)
    destruct (step_ShortFill fuel buffer {| arr := a; len := n |} next file
                pos op value (encode_runs rs ++ rest))
      as (buffer1 & Hb1 & ->); [done|done|done|done|].
    simpl in Hfit. rewrite length_replicate in Hfit.
    rewrite fillRun_fits by lia. simpl fst; simpl snd.
    eapply (Hrest 2%nat); try done.
    + exact (avail_prefix _ _ [op; value] _ E).
    + simpl. rewrite length_replicate. lia.
  - (* 127 *)
    pose proof (count16_range hi lo) as Hc.
    destruct (step_LongFill fuel buffer {| arr := a; len := n |} next file
                pos x7f hi lo value (encode_runs rs ++ rest))
      as (buffer1 & Hb1 & ->); [done|done|done|done|].
    simpl in Hfit. rewrite length_replicate in Hfit.
    rewrite fillRun_fits by lia. simpl fst; simpl snd.
    eapply (Hrest 4%nat); try done.
    + exact (avail_prefix _ _ [x7f; hi; lo; value] _ E).
    + simpl. rewrite length_replicate. lia.
  - (* 128 *)
    destruct (step_LongCopy fuel buffer {| arr := a; len := n |} next file
                pos x80 hi lo (bytes ++ encode_runs rs ++ rest))
      as (buffer1 & Hb1 & ->); [done|done|done|done|].
    simpl in Hfit.
    pose proof (avail_prefix _ _ [x80; hi; lo] _ E) as E3. simpl in E3.
    assert (next + count16 hi lo <= cap {| arr := a; len := n |}) as Hc
      by (unfold cap; simpl; lia).
    rewrite (bind_Ok _ _ _ _ _ _ (copyRun_fits _ _ _ _ _ _ _ E3 Hr Hc)).
    simpl fst; simpl snd.
    eapply (Hrest (3 + length bytes)%nat); try done.
    + exact (avail_prefix _ _ bytes _ E3).
    + lia.
    + simpl. lia.
  - (* 129..255 *)
    destruct Hr as [Hop Hr].
    destruct (step_ShortCopy fuel buffer {| arr := a; len := n |} next file
                pos op (bytes ++ encode_runs rs ++ rest))
      as (buffer1 & Hb1 & ->); [done|done|done|done|].
    simpl in Hfit.
    pose proof (avail_prefix _ _ [op] _ E) as E1. simpl in E1.
    assert (next + (256 - u8 op) <= cap {| arr := a; len := n |}) as Hc
      by (unfold cap; simpl; lia).
    rewrite (bind_Ok _ _ _ _ _ _ (copyRun_fits _ _ _ _ _ _ _ E1 Hr Hc)).
    simpl fst; simpl snd.
    eapply (Hrest (1 + length bytes)%nat); try done.
    + exact (avail_prefix _ _ bytes _ E1).
    + lia.
    + simpl. lia.
Qed.

(** A continuation after a read runs where no more of the file is left
    than before, and less when a byte was asked for. *)
Lemma bind_Read_fuel {B} n (k : list byte -> M B) file pos :
  (forall got pos',
     (length (avail file pos') <= length (avail file pos))%nat ->
     (0 < n -> (length (avail file pos') < length (avail file pos))%nat) ->
     k got file pos' <> OutOfFuel) ->
  bind (Read n) k file pos <> OutOfFuel.
Proof.
  intros Hk. unfold bind.
  pose proof (Read_cursor n file pos) as H.
  destruct (Read n file pos) as [got pos'|e pos'|p|]; try done.
  destruct H as (-> & Hne & Hgot).
  assert (length got <= length (avail file pos))%nat as Hle
    by (rewrite Hgot, length_take; lia).
  apply Hk; rewrite avail_add, length_drop; [lia|].
  intros Hn. specialize (Hne Hn). destruct got; [done|]. simpl in *. lia.
Qed.

Lemma bind_assoc {A B C} (m : M A) (f : A -> M B) (g : B -> M C) file pos :
  bind (bind m f) g file pos = bind m (fun a => bind (f a) g) file pos.
Proof. unfold bind. by destruct (m file pos). Qed.

Lemma bind_lift_fuel {A B} (x : panic + A) (k : A -> M B) file pos :
  (forall a, k a file pos <> OutOfFuel) ->
  bind (lift x) k file pos <> OutOfFuel.
Proof. intros Hk. unfold bind, lift. destruct x; [done|]. apply Hk. Qed.

(** Every turn of the loop moves the cursor: the fuel [decodeRLE] starts
    with is never used up. *)
Lemma decodeRLE_loop_fuel fuel :
  forall buffer dest next file pos,
    (length (avail file pos) < fuel)%nat ->
    decodeRLE_loop fuel buffer dest next file pos <> OutOfFuel.
Proof.
  induction fuel as [|fuel IH]; intros buffer dest next file pos Hfuel.
  { lia. }
  assert (forall p2 b d x,
            (length (avail file p2) < length (avail file pos))%nat ->
            decodeRLE_loop fuel b d x file p2 <> OutOfFuel) as Hnext.
  { intros p2 b d x Hp. apply IH. lia. }
  assert (forall count b d x p2,
            (length (avail file p2) < length (avail file pos))%nat ->
            bind (copyRun count d x)
              (fun st => decodeRLE_loop fuel b (fst st) (snd st)) file p2
            <> OutOfFuel) as Hcopy.
  { intros count b d x p2 Hp. unfold copyRun.
    rewrite bind_assoc. apply bind_lift_fuel. intros _.
    rewrite bind_assoc. apply bind_Read_fuel. intros got pos' Hle _.
    apply Hnext. lia. }
  simpl. destruct (next <? len dest); [|done].
  apply bind_Read_fuel. intros got pos1 _ Hp1. specialize (Hp1 eq_refl).
  repeat case_match.
  - apply bind_Read_fuel. intros got2 pos2 Hp2 _.
    apply bind_lift_fuel. intros st. apply Hnext. lia.
  - apply bind_Read_fuel. intros got2 pos2 Hp2 _.
    apply bind_lift_fuel. intros st. apply Hnext. lia.
  - apply bind_Read_fuel. intros got2 pos2 Hp2 _.
    apply Hcopy. lia.
  - apply Hcopy. lia.
Qed.

(** [decodeRLE] returns, fails with an error or panics, on every input. *)
Lemma decodeRLE_terminates dest file pos :
  decodeRLE dest file pos <> OutOfFuel.
Proof. unfold decodeRLE, withFuel. apply decodeRLE_loop_fuel. lia. Qed.

Lemma decodeRLE_loop_done fuel buffer dest next file pos :
  len dest <= next ->
  decodeRLE_loop fuel buffer dest next file pos = Ok dest pos.
Proof.
  intros H. destruct fuel; simpl;
    by destruct (Z.ltb_spec next (len dest)); [lia|].
Qed.

Lemma encode_runs_length rs : (length rs <= length (encode_runs rs))%nat.
Proof.
  induction rs as [|r rs IH]; [done|].
  rewrite encode_runs_cons, length_app. pose proof (encode_run_length r).
  simpl. lia.
Qed.

(** C1 (as amended).  [decodeRLE] interprets the control bytes as the four
    kinds of run: on a stream that holds a sequence of well-formed runs
    (control byte 0..126 and a value, repeated op+1 times; 127, a two-byte
    big-endian count and a value, repeated count times; 128, a two-byte
    count and that many bytes, copied; 129..255 and 256-op bytes, copied)
    whose expansions add up to the length of the destination, it returns
    with the destination holding exactly the expansions in order.  In
    particular 05 AA decodes to six times AA, FF 42 to 42, 7F 00 03 09 to
    three times 09, and 80 00 02 11 22 to 11 22. *)
Theorem decodeRLE_expands_runs :
  (forall rs dest file pos rest,
      Forall run_wf rs ->
      avail file pos = encode_runs rs ++ rest ->
      len dest = Z.of_nat (length (expand_runs rs)) ->
      len dest <= cap dest ->
      exists pos',
        decodeRLE dest file pos
        = Ok {| arr := expand_runs rs
                         ++ drop (length (expand_runs rs)) (arr dest);
                len := len dest |} pos')
  /\ decodeRLE (make 6) [x05; xaa] 0
     = Ok {| arr := [xaa; xaa; xaa; xaa; xaa; xaa]; len := 6 |} 2
  /\ decodeRLE (make 1) [xff; x42] 0 = Ok {| arr := [x42]; len := 1 |} 2
  /\ decodeRLE (make 3) [x7f; x00; x03; x09] 0
     = Ok {| arr := [x09; x09; x09]; len := 3 |} 4
  /\ decodeRLE (make 2) [x80; x00; x02; x11; x22] 0
     = Ok {| arr := [x11; x22]; len := 2 |} 5.
Proof.
  split; [|by vm_compute].
  intros rs [a n] file pos rest Hwf E Hlen Hcap. unfold cap in Hcap.
  simpl in *. unfold decodeRLE, withFuel.
  destruct (decodeRLE_loop_runs rs (S (length (avail file pos)))
              [x00; x00; x00; x00] a n 0 file pos rest)
    as (fuel' & buffer' & pos' & -> & _); [done|done|done|lia|lia|lia| |].
  { pose proof (encode_runs_length rs). rewrite E, length_app. lia. }
  exists pos'. rewrite decodeRLE_loop_done by (simpl; lia).
  rewrite overlay_at_0 by lia. done.
Qed.

(** The theorem at the stream 04 AA 80 00 02 11 22: five times AA, then
    11 22. *)
Lemma decodeRLE_expands_runs_witness :
  exists pos',
    decodeRLE (make 7) [x04; xaa; x80; x00; x02; x11; x22] 0
    = Ok {| arr := [xaa; xaa; xaa; xaa; xaa; x11; x22]; len := 7 |} pos'.
Proof.
  apply (proj1 decodeRLE_expands_runs
           [ShortFill x04 xaa; LongCopy x00 x02 [x11; x22]]
           (make 7) [x04; xaa; x80; x00; x02; x11; x22] 0%nat []).
  - repeat constructor; vm_compute; congruence.
  - reflexivity.
  - reflexivity.
  - vm_compute. congruence.
Defined.

(** C1, as stated, fails: the control byte 05 stands for six copies of
    the value, not five.  With a destination of five bytes the sixth store
    is out of range and [decodeRLE] panics; with six bytes all six are
    written. *)
Lemma decodeRLE_05_AA_not_five :
  decodeRLE (make 5) [x05; xaa] 0 = Panic (IndexOutOfRange 5 5)
  /\ decodeRLE (make 6) [x05; xaa] 0
     = Ok {| arr := [xaa; xaa; xaa; xaa; xaa; xaa]; len := 6 |} 2.
Proof. by vm_compute. Qed.

(** Where the stream ends at a control byte, with the destination not yet
    full, [decodeRLE] fails with [io.EOF]. *)
Lemma decodeRLE_ends_at_control_byte rs dest file pos :
  Forall run_wf rs ->
  avail file pos = encode_runs rs ->
  Z.of_nat (length (expand_runs rs)) < len dest <= cap dest ->
  decodeRLE dest file pos = Err "EOF" (pos + length (encode_runs rs)).
Proof.
  destruct dest as [a n]. unfold cap. simpl. intros Hwf E [Hlt Hcap].
  unfold decodeRLE, withFuel.
  pose proof (encode_runs_length rs) as Hrs.
  destruct (decodeRLE_loop_runs rs (S (length (avail file pos)))
              [x00; x00; x00; x00] a n 0 file pos [])
    as (fuel' & buffer' & pos' & -> & Hb & Hfuel & Hpos);
    [done|by rewrite app_nil_r|done|lia|lia|lia|rewrite E; lia|].
  rewrite Hpos by lia. clear Hpos pos'.
  destruct fuel' as [|fuel]; [rewrite E in Hfuel; simpl in Hfuel; lia|].
  simpl. destruct (Z.ltb_spec (0 + Z.of_nat (length (expand_runs rs))) n);
    [|lia].
  assert (avail file (pos + length (encode_runs rs)) = []) as Hav
    by (rewrite avail_add, E; apply drop_all).
  unfold bind, Read. simpl. by rewrite Hav.
Qed.

(** C5: the failing inputs.  The stream FE 11 announces two literal bytes
    and holds one: the short read is not an error for [Read], and
    [decodeRLE] returns [nil] with the second byte of the destination left
    as it was.  The stream 7F 00 02 09 7F 00 ends inside the operands of
    its second control byte: count and value are taken from what the
    scratch array still holds, and [decodeRLE] returns [nil] again. *)
Theorem decodeRLE_truncated_stream_no_error :
  decodeRLE (make 2) [xfe; x11] 0 = Ok {| arr := [x11; x00]; len := 2 |} 2
  /\ decodeRLE (make 4) [x7f; x00; x02; x09; x7f; x00] 0
     = Ok {| arr := [x09; x09; x09; x09]; len := 4 |} 6.
Proof. by vm_compute. Qed.

(** C6, as stated, fails for the runs of identical bytes: 05 AA stands for
    six bytes, the destination has three, and the decoder does not go on
    for the full count: the store after the last byte of the destination
    panics. *)
Lemma decodeRLE_fill_overshoot_panics :
  decodeRLE (make 3) [x05; xaa] 0 = Panic (IndexOutOfRange 3 3).
Proof. by vm_compute. Qed.

(** C6 (as amended).  After runs that leave the destination short of full,
    a last run whose count is more than what is missing is not cut to fit.
    A run of literal bytes (control byte 128..255) that stays within the
    capacity of the destination slice is copied in full, beyond the length
    of the slice, and [decodeRLE] returns [nil]; beyond the capacity the
    slice expression panics.  A run of identical bytes (control byte
    0..127) panics at the first store beyond the length. *)
Theorem decodeRLE_final_run_overshoots rs final dest file pos rest :
  Forall run_wf rs -> run_wf final ->
  avail file pos = encode_runs rs ++ encode_run final ++ rest ->
  Z.of_nat (length (expand_runs rs)) < len dest <= cap dest ->
  len dest < Z.of_nat (length (expand_runs rs) + length (expand_run final)) ->
  decodeRLE dest file pos
  = match final with
    | ShortFill _ _ | LongFill _ _ _ =>
        Panic (IndexOutOfRange (len dest) (len dest))
    | LongCopy _ _ bytes | ShortCopy _ bytes =>
        let hi := Z.of_nat (length (expand_runs rs) + length bytes) in
        if hi <=? cap dest then
          Ok {| arr := (expand_runs rs ++ bytes)
                         ++ drop (length (expand_runs rs ++ bytes)) (arr dest);
                len := len dest |}
             (pos + length (encode_runs rs) + length (encode_run final))
        else Panic (SliceBoundsOutOfRange hi (cap dest))
    end.
Proof.
  destruct dest as [a n]. unfold cap. simpl.
  intros Hwf Hfin E [Hlt Hcap] Hover.
  unfold decodeRLE, withFuel.
  pose proof (encode_runs_length rs) as Hrs.
  pose proof (encode_run_length final) as Hf1.
  assert (length (avail file pos)
          = (length (encode_runs rs) + length (encode_run final)
             + length rest)%nat) as Hav by (rewrite E, !length_app; lia).
  destruct (decodeRLE_loop_runs rs (S (length (avail file pos)))
              [x00; x00; x00; x00] a n 0 file pos
              (encode_run final ++ rest))
    as (fuel' & buffer' & pos' & -> & Hb & Hfuel & Hpos);
    [done|done|done|lia|lia|lia|lia|].
  rewrite Hpos by lia. clear Hpos pos'. rewrite Z.add_0_l.
  destruct fuel' as [|fuel]; [simpl in Hfuel; lia|]. clear Hfuel.
  pose proof (avail_prefix _ _ _ _ E) as E'.
  set (a' := overlay a 0 (expand_runs rs)).
  assert (length a' = length a) as Ha' by (apply length_overlay; lia).
  set (done := Z.of_nat (length (expand_runs rs))) in *.
  destruct final as [op value|hi lo value|hi lo bytes|op bytes];
    simpl in Hfin, Hover.
  - rewrite length_replicate in Hover.
    destruct (step_ShortFill fuel buffer' {| arr := a'; len := n |} done file
                (pos + length (encode_runs rs))%nat op value rest) as (b1 & _ & ->); [done|done|done|done|].
    rewrite fillRun_overshoot by lia. done.
  - rewrite length_replicate in Hover.
    destruct (step_LongFill fuel buffer' {| arr := a'; len := n |} done file
                (pos + length (encode_runs rs))%nat x7f hi lo value rest) as (b1 & _ & ->);
      [done|done|done|done|].
    rewrite fillRun_overshoot by lia. done.
  - destruct (step_LongCopy fuel buffer' {| arr := a'; len := n |} done file
                (pos + length (encode_runs rs))%nat x80 hi lo (bytes ++ rest)) as (b1 & _ & ->);
      [done|done|done|done|].
    destruct (Z.leb_spec (Z.of_nat (length (expand_runs rs) + length bytes))
                (Z.of_nat (length a))) as [Hin|Hout].
    + pose proof (avail_prefix _ _ [x80; hi; lo] _ E') as E3.
      assert (done + count16 hi lo <= cap {| arr := a'; len := n |}) as Hc
        by (unfold cap; simpl; lia).
      rewrite (bind_Ok _ _ _ _ _ _ (copyRun_fits _ _ _ _ _ _ _ E3 Hfin Hc)).
      simpl fst; simpl snd.
      rewrite decodeRLE_loop_done by (simpl; lia).
      subst a'. simpl. rewrite overlay_overlay by (subst done; lia).
      rewrite overlay_at_0 by (rewrite length_app; lia).
      f_equal. lia.
    + unfold bind. rewrite copyRun_beyond_cap by (unfold cap; simpl; lia).
      unfold cap. simpl. rewrite Ha'. do 2 f_equal. lia.
  - destruct Hfin as [Hop Hfin].
    destruct (step_ShortCopy fuel buffer' {| arr := a'; len := n |} done file
                (pos + length (encode_runs rs))%nat op (bytes ++ rest)) as (b1 & _ & ->);
      [done|done|done|done|].
    destruct (Z.leb_spec (Z.of_nat (length (expand_runs rs) + length bytes))
                (Z.of_nat (length a))) as [Hin|Hout].
    + pose proof (avail_prefix _ _ [op] _ E') as E1.
      assert (done + (256 - u8 op) <= cap {| arr := a'; len := n |}) as Hc
        by (unfold cap; simpl; lia).
      rewrite (bind_Ok _ _ _ _ _ _ (copyRun_fits _ _ _ _ _ _ _ E1 Hfin Hc)).
      simpl fst; simpl snd.
      rewrite decodeRLE_loop_done by (simpl; lia).
      subst a'. simpl. rewrite overlay_overlay by (subst done; lia).
      rewrite overlay_at_0 by (rewrite length_app; lia).
      f_equal. lia.
    + unfold bind. rewrite copyRun_beyond_cap by (unfold cap; simpl; lia).
      unfold cap. simpl. rewrite Ha'. do 2 f_equal. lia.
Qed.

(** The theorem at the stream 00 07 FD 11 22 33 and a destination of
    length 2 and capacity 8: one byte 07, then three literal bytes where
    one is missing. *)
Lemma decodeRLE_final_run_overshoots_witness :
  decodeRLE {| arr := replicate 8 x00; len := 2 |}
    [x00; x07; xfd; x11; x22; x33] 0
  = Ok {| arr := [x07; x11; x22; x33; x00; x00; x00; x00]; len := 2 |} 6.
Proof.
  apply (decodeRLE_final_run_overshoots
           [ShortFill x00 x07] (ShortCopy xfd [x11; x22; x33])
           {| arr := replicate 8 x00; len := 2 |}
           [x00; x07; xfd; x11; x22; x33] 0%nat []).
  - repeat constructor; vm_compute; congruence.
  - split; vm_compute; congruence.
  - reflexivity.
  - split; vm_compute; congruence.
  - vm_compute. reflexivity.
Defined.

(** ** GetLayerByName *)

Lemma GetLayerByName_loop_spec layers name : forall i,
  match GetLayerByName_loop i layers name with
  | Some k =>
      (i <= k)%nat
      /\ (exists l, layers !! (k - i)%nat = Some l /\ Name l = name)
      /\ (forall j l, (j < k - i)%nat -> layers !! j = Some l -> Name l <> name)
  | None => forall l, l ∈ layers -> Name l <> name
  end.
Proof.
  induction layers as [|l0 layers IH]; intros i; simpl.
  { intros l Hl. by apply elem_of_nil in Hl. }
  destruct (String.eqb_spec (Name l0) name) as [Heq|Hne].
  - split; [lia|]. rewrite Nat.sub_diag. split; [by exists l0|].
    intros j l Hj. lia.
  - specialize (IH (S i)).
    destruct (GetLayerByName_loop (S i) layers name) as [k|].
    + destruct IH as (Hik & (l & Hl & Hn) & Hfirst).
      split; [lia|]. replace (k - i)%nat with (S (k - S i)) by lia.
      split; [by exists l|].
      intros [|j] l' Hj Hl'; simpl in Hl'.
      * by injection Hl' as <-.
      * apply (Hfirst j l'); [lia|done].
    + intros l [->|Hl]%elem_of_cons; [done|by apply IH].
Qed.

(** C10.  [GetLayerByName] returns the pointer to the first layer of
    [c.Layers] whose name is [name]: the layer at the returned index has
    that name and no layer at a lower index has; it returns [nil] exactly
    when no layer has that name; and it leaves the canvas as it was. *)
Theorem GetLayerByName_first_match (c : Canvas) (name : string) :
  snd (GetLayerByName c name) = c
  /\ match fst (GetLayerByName c name) with
     | Some i =>
         (exists l, Layers c !! i = Some l /\ Name l = name)
         /\ (forall j l, (j < i)%nat -> Layers c !! j = Some l -> Name l <> name)
     | None => forall l, l ∈ Layers c -> Name l <> name
     end.
Proof.
  split; [done|]. simpl.
  pose proof (GetLayerByName_loop_spec (Layers c) name 0) as H.
  destruct (GetLayerByName_loop 0 (Layers c) name) as [i|]; [|done].
  rewrite Nat.sub_0_r in H. by destruct H as (_ & H1 & H2).
Qed.

(** ** readString *)

(** C8.  Where the stream holds a length field and then [payload]:
    a length field of 0 gives the empty string and the cursor stops
    after the four bytes of the field; a length field of n >= 1 with the n
    bytes there gives the first n-1 of them and the cursor stops after the
    n bytes; so 0 and 1 both give the empty string, after 0 and 1 bytes. *)
Theorem readString_length_field file pos field payload rest :
  avail file pos = field ++ payload ++ rest ->
  length field = 4%nat ->
  (be32 field = 0 ->
   readString file pos = Ok EmptyString (pos + 4))
  /\ (1 <= be32 field -> Z.of_nat (length payload) = be32 field ->
      readString file pos
      = Ok (gostring (take (length payload - 1) payload))
           (pos + 4 + length payload))
  /\ (be32 field = 1 -> length payload = 1%nat ->
      readString file pos = Ok EmptyString (pos + 4 + 1)).
Proof.
  intros E Hfield.
  assert (readUint32 file pos = Ok (be32 field) (pos + 4)) as Hlen.
  { unfold readUint32.
    rewrite (bind_Ok _ _ _ _ field (pos + 4)%nat); [done|].
    rewrite <- Hfield. apply (ReadFull_prefix 4 _ _ _ _ E). lia. }
  assert (forall n, 1 <= n -> Z.of_nat (length payload) = n -> be32 field = n ->
          readString file pos
          = Ok (gostring (take (length payload - 1) payload))
               (pos + 4 + length payload)) as Hn.
  { intros n Hn Hp Hf. unfold readString.
    rewrite (bind_Ok _ _ _ _ (be32 field) (pos + 4)%nat)
      by (unfold wrapErr; by rewrite Hlen).
    rewrite Hf. destruct (Z.eqb_spec n 0); [lia|].
    pose proof (avail_prefix _ _ _ _ E) as E'. rewrite Hfield in E'.
    rewrite (bind_Ok _ _ _ _ payload (pos + 4 + length payload)%nat)
      by (unfold wrapErr; by rewrite (Read_prefix n _ _ _ _ E' Hp)).
    unfold ret. do 2 f_equal.
    rewrite overlay_at_0 by (rewrite length_replicate; lia).
    rewrite take_app_le by lia. f_equal. lia. }
  split; [|split].
  - intros H0. unfold readString.
    rewrite (bind_Ok _ _ _ _ (be32 field) (pos + 4)%nat)
      by (unfold wrapErr; by rewrite Hlen).
    by rewrite H0.
  - intros H1 Hp. by apply (Hn (be32 field)).
  - intros H1 Hp. rewrite (Hn 1) by (done || lia). rewrite Hp.
    destruct payload as [|b [|? ?]]; done.
Qed.

(** The theorem at a length field of 3 followed by the bytes of "bg" and
    the terminator. *)
Lemma readString_length_field_witness :
  readString [x00; x00; x00; x03; x62; x67; x00; x2a] 0 = Ok "bg" 7.
Proof.
  apply (proj1 (proj2 (readString_length_field
           [x00; x00; x00; x03; x62; x67; x00; x2a] 0%nat
           [x00; x00; x00; x03] [x62; x67; x00] [x2a] eq_refl eq_refl)));
    vm_compute; congruence.
Defined.

(** ** The tile grid *)

(** For a width that leaves room for the addition of 63 in 32 bits the
    grid is the one of the format: [ceil(w/64)] columns that cover the
    width exactly, all 64 wide but for the last one, which has what is left
    (64 when that is nothing).  The same holds for rows and height. *)
Lemma tile_grid_geometry (lh : layerHeader.t) :
  let w := layerHeader.Width lh in
  0 <= w -> w + 63 < 2 ^ 32 ->
  64 * (tileCountX lh - 1) < w <= 64 * tileCountX lh
  /\ rightMostTileWidth lh = (if w mod 64 =? 0 then 64 else w mod 64)
  /\ forall tileX, 0 <= tileX < tileCountX lh ->
       (tileX <> tileCountX lh - 1 -> tileW lh tileX = 64)
       /\ (tileX = tileCountX lh - 1 -> tileW lh tileX = rightMostTileWidth lh)
       /\ 0 < tileW lh tileX <= 64
       /\ tileX * 64 + tileW lh tileX <= w
       /\ (tileX = tileCountX lh - 1 -> tileX * 64 + tileW lh tileX = w).
Proof.
  intros w H0 H1. unfold tileW, rightMostTileWidth, tileCountX, wrap32.
  fold w. rewrite (Z.mod_small (w + 63)) by lia.
  pose proof (Z.div_mod (w + 63) 64 ltac:(lia)) as Hd.
  pose proof (Z.mod_pos_bound (w + 63) 64 ltac:(lia)) as Hm.
  pose proof (Z.div_mod w 64 ltac:(lia)) as Hd'.
  pose proof (Z.mod_pos_bound w 64 ltac:(lia)) as Hm'.
  split; [lia|]. split; [done|].
  intros tileX Hx.
  destruct (Z.eqb_spec tileX ((w + 63) / 64 - 1)) as [->|Hne];
    destruct (Z.eqb_spec (w mod 64) 0); repeat split; try lia.
Qed.

Lemma tile_grid_geometry_Y (lh : layerHeader.t) :
  let h := layerHeader.Height lh in
  0 <= h -> h + 63 < 2 ^ 32 ->
  64 * (tileCountY lh - 1) < h <= 64 * tileCountY lh
  /\ bottomMostTileHeight lh = (if h mod 64 =? 0 then 64 else h mod 64)
  /\ forall tileY, 0 <= tileY < tileCountY lh ->
       (tileY <> tileCountY lh - 1 -> tileH lh tileY = 64)
       /\ (tileY = tileCountY lh - 1 -> tileH lh tileY = bottomMostTileHeight lh)
       /\ 0 < tileH lh tileY <= 64
       /\ tileY * 64 + tileH lh tileY <= h
       /\ (tileY = tileCountY lh - 1 -> tileY * 64 + tileH lh tileY = h).
Proof.
  intros h H0 H1.
  exact (tile_grid_geometry
           {| layerHeader.Width := layerHeader.Height lh;
              layerHeader.Height := 0; layerHeader.ColorFormat := 0 |} H0 H1).
Qed.

(** The 70 x 70 layer: a grid of 2 x 2 tiles, the right and bottom ones 6
    wide and 6 high. *)
Example tile_grid_70 :
  let lh := {| layerHeader.Width := 70; layerHeader.Height := 70;
               layerHeader.ColorFormat := rgbAlpha |} in
  tileCountX lh = 2 /\ tileCountY lh = 2
  /\ tileW lh 0 = 64 /\ tileW lh 1 = 6 /\ tileH lh 0 = 64 /\ tileH lh 1 = 6.
Proof. by vm_compute. Qed.

(** C3: the failing input.  The sum [layerHeader.Width+63] is computed in
    [uint32], before the conversion to [int]: for a width of 4294967295 it
    wraps to 62 and the grid has no column at all, where
    [ceil(4294967295/64)] is 67108864; the loops over the tiles of
    [readImageData] leave scratch buffer, image and cursor as they were,
    and no tile is decoded.  The same holds for the height. *)
Theorem tileCount_wraps_in_uint32 :
  let lh := {| layerHeader.Width := 4294967295; layerHeader.Height := 1;
               layerHeader.ColorFormat := rgbAlpha |} in
  tileCountX lh = 0 /\ tileCountY lh = 1
  /\ 64 * (67108864 - 1) < layerHeader.Width lh <= 64 * 67108864
  /\ forall bytesPerPixel stride st file pos,
       forM (Z.to_nat (tileCountY lh)) 0
         (fun tileY =>
            forM (Z.to_nat (tileCountX lh)) 0
              (readTile lh bytesPerPixel stride tileY))
         st file pos
       = Ok st pos.
Proof.
  cbv zeta. split; [reflexivity|]. split; [reflexivity|].
  split; [by vm_compute|]. intros bytesPerPixel stride st file pos.
  reflexivity.
Qed.

(** ** From planes to pixels *)

Lemma lookup_overlay l i bs j :
  0 <= i -> (Z.to_nat i + length bs <= length l)%nat ->
  overlay l i bs !! j
  = if decide (Z.to_nat i <= j < Z.to_nat i + length bs)%nat
    then bs !! (j - Z.to_nat i)%nat else l !! j.
Proof.
  intros Hi Hlen. unfold overlay.
  assert (length (take (Z.to_nat i) l) = Z.to_nat i) as Hk
    by (rewrite length_take; lia).
  destruct (decide (Z.to_nat i <= j < Z.to_nat i + length bs)%nat) as [H|H].
  - rewrite lookup_app_r by lia. rewrite Hk.
    rewrite lookup_app_l by lia. done.
  - destruct (decide (j < Z.to_nat i)%nat).
    + rewrite lookup_app_l by lia. by rewrite lookup_take_lt.
    + rewrite lookup_app_r by lia. rewrite Hk.
      rewrite lookup_app_r by lia. rewrite lookup_drop. f_equal. lia.
Qed.

Lemma length_pixelBytes cf data di : length (pixelBytes cf data di) = 4%nat.
Proof. unfold pixelBytes. by destruct (cf =? rgbAlpha). Qed.

Lemma length_rowBytes n cf data di : length (rowBytes n cf data di) = (4 * n)%nat.
Proof.
  revert di. induction n as [|n IH]; intros di; [done|].
  simpl. rewrite length_app, length_pixelBytes, IH. lia.
Qed.

Lemma lookup_rowBytes n cf data di k c :
  (k < n)%nat -> (c < 4)%nat ->
  rowBytes n cf data di !! (4 * k + c)%nat
  = pixelBytes cf data (di + Z.of_nat k) !! c.
Proof.
  revert di k. induction n as [|n IH]; intros di k Hk Hc; [lia|].
  cbn [rowBytes]. destruct k as [|k].
  - rewrite lookup_app_l by (rewrite length_pixelBytes; lia).
    simpl. by rewrite Z.add_0_r.
  - rewrite lookup_app_r by (rewrite length_pixelBytes; lia).
    rewrite length_pixelBytes.
    replace (4 * S k + c - 4)%nat with (4 * k + c)%nat by lia.
    rewrite IH by lia. do 2 f_equal. lia.
Qed.

Lemma storeLine_ok pix base i v :
  0 <= base -> 0 <= i -> base + i < Z.of_nat (length pix) ->
  storeLine pix base i v = inr (overlay pix (base + i) [v]).
Proof.
  intros Hb Hi Hlt. unfold storeLine.
  destruct (Z.leb_spec 0 i); [|lia].
  destruct (Z.ltb_spec i (Z.of_nat (length pix) - base)); [|lia]. simpl.
  by rewrite insert_overlay by lia.
Qed.

Lemma load_ok data i :
  0 <= i < len data -> load data i = inr (at0 (arr data) (Z.to_nat i)).
Proof.
  intros H. unfold load.
  destruct (Z.leb_spec 0 i); [|lia]. by destruct (Z.ltb_spec i (len data)); [|lia].
Qed.

(** Where the planes have the size the tile needs, one pixel is written
    as its four bytes. *)
Lemma putPixel_ok cf data base x pix di :
  (cf = rgbAlpha /\ 0 <= di /\ di + 3 * (len data / 4) < len data
   \/ cf = rgbNoAlpha /\ 0 <= di /\ di + 2 * (len data / 3) < len data) ->
  0 <= len data / (if cf =? rgbAlpha then 4 else 3) ->
  0 <= base -> 0 <= x -> base + x * 4 + 3 < Z.of_nat (length pix) ->
  putPixel cf data base x (pix, di)
  = inr (overlay pix (base + x * 4) (pixelBytes cf data di), di + 1).
Proof.
  intros Hcf Hofs Hb Hx Hpix. unfold putPixel, pixelBytes.
  assert (forall bs, (length bs <= 4)%nat ->
            length (overlay pix (base + x * 4) bs) = length pix) as Hlen
    by (intros bs Hbs; apply length_overlay; lia).
  destruct Hcf as [(-> & Hd0 & Hd3)|(-> & Hd0 & Hd2)]; simpl in Hofs |- *.
  - rewrite !load_ok by lia. cbn [bindP].
    rewrite storeLine_ok by lia. cbn [bindP].
    rewrite storeLine_ok by (rewrite ?Hlen by (simpl; lia); lia). cbn [bindP].
    rewrite (overlay_overlay pix) by (simpl; lia).
    rewrite storeLine_ok by (rewrite ?Hlen by (simpl; lia); lia). cbn [bindP].
    rewrite (overlay_overlay pix) by (simpl; lia).
    rewrite storeLine_ok by (rewrite ?Hlen by (simpl; lia); lia). cbn [bindP].
    rewrite (overlay_overlay pix) by (simpl; lia). done.
  - rewrite !load_ok by lia. cbn [bindP].
    rewrite storeLine_ok by lia. cbn [bindP].
    rewrite storeLine_ok by (rewrite ?Hlen by (simpl; lia); lia). cbn [bindP].
    rewrite (overlay_overlay pix) by (simpl; lia).
    rewrite storeLine_ok by (rewrite ?Hlen by (simpl; lia); lia). cbn [bindP].
    rewrite (overlay_overlay pix) by (simpl; lia).
    rewrite storeLine_ok by (rewrite ?Hlen by (simpl; lia); lia). cbn [bindP].
    rewrite (overlay_overlay pix) by (simpl; lia). done.
Qed.

Lemma lineFrom_ok pix base :
  0 <= base <= Z.of_nat (length pix) -> lineFrom pix base = inr tt.
Proof.
  intros H. unfold lineFrom. destruct (Z.leb_spec 0 base); [|lia].
  by destruct (Z.leb_spec base (Z.of_nat (length pix))); [|lia].
Qed.

(** One scanline of a tile. *)
Lemma scanline_ok cf data base n : forall left pix di,
  planesFit cf data di (Z.of_nat n) ->
  0 <= base -> 0 <= left ->
  base + (left + Z.of_nat n) * 4 <= Z.of_nat (length pix) ->
  forP n left (putPixel cf data base) (pix, di)
  = inr (overlay pix (base + left * 4) (rowBytes n cf data di),
         di + Z.of_nat n).
Proof.
  induction n as [|n IH]; intros left pix di Hfit Hb Hl Hpix.
  { simpl. rewrite overlay_nil, Z.add_0_r. done. }
  cbn [forP rowBytes]. destruct Hfit as (Hd & Hcap & Hcf).
  rewrite putPixel_ok; [| | |done|done|lia].
  2:{ destruct Hcf as [(-> & ? & ?)|(-> & ? & ?)]; [left|right]; lia. }
  2:{ by destruct Hcf as [(-> & ? & ?)|(-> & ? & ?)]. }
  rewrite IH; [| |done|lia|].
  - rewrite overlay_overlay;
      [|lia|rewrite length_pixelBytes; lia|rewrite length_pixelBytes; lia].
    do 2 f_equal. lia.
  - split; [lia|]. split; [done|].
    destruct Hcf as [(-> & ? & ?)|(-> & ? & ?)]; [left|right];
      repeat split; try done; lia.
  - rewrite length_overlay; [lia|]. rewrite length_pixelBytes. lia.
Qed.

Lemma tile_rows_ok cf data stride left w n : forall top pix di0,
  planesFit cf data di0 (Z.of_nat w * Z.of_nat n) ->
  0 <= stride -> 0 <= left -> 0 <= top ->
  (left + Z.of_nat w) * 4 <= stride ->
  stride * (top + Z.of_nat n) <= Z.of_nat (length pix) ->
  exists pix',
    forP n top
      (fun y st =>
         let+ _ := lineFrom (fst st) (stride * y) in
         forP w left (putPixel cf data (stride * y)) st)
      (pix, di0)
    = inr (pix', di0 + Z.of_nat w * Z.of_nat n)
    /\ rowsDone cf data stride left top (Z.of_nat w) n di0 pix pix'.
Proof.
  induction n as [|n IH]; intros top pix di0 Hfit Hs Hl Ht Hw Hpix.
  { exists pix. simpl. split; [do 2 f_equal; lia|].
    split; [done|]. split; [intros; lia|done]. }
  cbn [forP fst].
  assert (0 <= stride * top) by lia.
  assert (stride * top + stride <= Z.of_nat (length pix)) as Hrow by nia.
  rewrite lineFrom_ok by lia. cbn [bindP].
  destruct Hfit as (Hd & Hcap & Hcf).
  rewrite scanline_ok; [| |done|done|lia].
  2:{ split; [done|]. split; [done|].
      destruct Hcf as [(-> & ? & ?)|(-> & ? & ?)]; [left|right];
        repeat split; try done; nia. }
  set (pix1 := overlay pix (stride * top + left * 4) (rowBytes w cf data di0)).
  assert (length pix1 = length pix) as Hlen1.
  { apply length_overlay. rewrite length_rowBytes. lia. }
  destruct (IH (top + 1) pix1 (di0 + Z.of_nat w)) as (pix' & -> & Hlen & Hin & Hout);
    [|done|done|lia|done|rewrite Hlen1; lia|].
  { split; [lia|]. split; [done|].
    destruct Hcf as [(-> & ? & ?)|(-> & ? & ?)]; [left|right];
      repeat split; try done; nia. }
  exists pix'. split; [do 2 f_equal; lia|].
  assert (forall k, pix1 !! k
            = if decide (Z.to_nat (stride * top + left * 4) <= k
                         < Z.to_nat (stride * top + left * 4) + 4 * w)%nat
              then rowBytes w cf data di0
                     !! (k - Z.to_nat (stride * top + left * 4))%nat
              else pix !! k) as Hpix1.
  { intros k. subst pix1. rewrite lookup_overlay; [|lia|].
    - by rewrite length_rowBytes.
    - rewrite length_rowBytes. lia. }
  split; [congruence|]. split.
  - intros j i c Hj Hi Hc.
    destruct (decide (j = 0)) as [->|Hj0].
    + rewrite Hout.
      2:{ intros j' Hj'. assert (0 <= stride * j') by nia. nia. }
      rewrite Hpix1. rewrite decide_True by lia.
      replace (Z.to_nat (stride * (top + 0) + (left + i) * 4 + c)
               - Z.to_nat (stride * top + left * 4))%nat
        with (4 * Z.to_nat i + Z.to_nat c)%nat by lia.
      rewrite lookup_rowBytes by lia. do 2 f_equal. lia.
    + specialize (Hin (j - 1) i c ltac:(lia) Hi Hc).
      replace (stride * (top + 1 + (j - 1))) with (stride * (top + j))
        in Hin by lia.
      rewrite Hin. do 2 f_equal. lia.
  - intros k Hk. rewrite Hout.
    2:{ intros j' Hj'. specialize (Hk (j' + 1) ltac:(lia)).
        replace (stride * (top + (j' + 1))) with (stride * (top + 1 + j'))
          in Hk by lia. done. }
    rewrite Hpix1. rewrite decide_False; [done|].
    specialize (Hk 0 ltac:(lia)). rewrite Z.add_0_r in Hk. lia.
Qed.

Lemma at0_lookup l i b : l !! i = Some b -> at0 l i = b.
Proof. unfold at0. by intros ->. Qed.

(** The image [readImageData] makes for a layer of [W] x [H] at
    [layerX], [layerY]. *)
Lemma NewRGBA_layer layerX layerY W H img :
  0 <= W -> 0 <= H ->
  NewRGBA (imageRect layerX layerY (layerX + W) (layerY + H)) = inr img ->
  Rect img = imageRect layerX layerY (layerX + W) (layerY + H)
  /\ Stride img = 4 * W
  /\ Z.of_nat (length (Pix img)) = 4 * W * H.
Proof.
  intros HW HH. unfold NewRGBA, imageRect, Dx, Dy.
  destruct (Z.ltb_spec (layerX + W) layerX); [lia|].
  destruct (Z.ltb_spec (layerY + H) layerY); [lia|].
  cbn [MinX MinY MaxX MaxY].
  replace (layerX + W - layerX) with W by lia.
  replace (layerY + H - layerY) with H by lia.
  destruct ((0 <=? 4 * W * H) && (4 * W * H <? 2 ^ 63)); [|done].
  intros [= <-]. cbn [Rect Stride Pix]. rewrite length_replicate.
  repeat split. nia.
Qed.

(** C4.  A decoded tile of [w] x [h] pixels at [left], [top] of a layer at
    [layerX], [layerY]: with alpha (four planes of [w * h] bytes) the pixel
    in column [i] and row [j] of the tile gets its red from plane 0, green
    from plane 1, blue from plane 2 and alpha from plane 3, each at byte
    [j * w + i]; without alpha (three planes) it gets red, green and blue
    in the same way and alpha 255.  The pixel is the one at
    [layerX + left + i], [layerY + top + j] of the image, and no pixel
    outside the tile changes.  The image is one with the bounds, the
    stride and the buffer length that [image.NewRGBA] gives the layer
    ([NewRGBA_layer]). *)
Theorem scatterTile_deplanarizes
    cf data img layerX layerY W H left top w h :
  0 <= W -> 0 <= H ->
  Rect img = imageRect layerX layerY (layerX + W) (layerY + H) ->
  Stride img = 4 * W -> Z.of_nat (length (Pix img)) = 4 * W * H ->
  0 <= left -> 0 <= top -> 0 <= w -> 0 <= h ->
  left + w <= W -> top + h <= H ->
  len data <= cap data ->
  (cf = rgbAlpha /\ len data = w * h * 4
   \/ cf = rgbNoAlpha /\ len data = w * h * 3) ->
  exists pix',
    scatterTile cf (Stride img) data left top w h (Pix img) = inr pix'
    /\ length pix' = length (Pix img)
    /\ let img' := {| Pix := pix'; Stride := Stride img; Rect := Rect img |} in
       (forall i j, 0 <= i < w -> 0 <= j < h ->
          RGBAAt img' (layerX + left + i) (layerY + top + j)
          = {| R := plane data (w * h) 0 (j * w + i);
               G := plane data (w * h) 1 (j * w + i);
               B := plane data (w * h) 2 (j * w + i);
               A := if cf =? rgbAlpha
                    then plane data (w * h) 3 (j * w + i) else xff |})
       /\ (forall x y,
             ~ (left <= x - layerX < left + w /\ top <= y - layerY < top + h) ->
             RGBAAt img' x y = RGBAAt img x y).
Proof.
  intros HW HH HRect HStride HPix Hl Ht Hw Hh HlW HtH Hcap Hcf.
  assert (Rect img = {| MinX := layerX; MinY := layerY;
                        MaxX := layerX + W; MaxY := layerY + H |}) as HR.
  { rewrite HRect. unfold imageRect.
    destruct (Z.ltb_spec (layerX + W) layerX); [lia|].
    by destruct (Z.ltb_spec (layerY + H) layerY); [lia|]. }
  clear HRect. unfold cap in Hcap.
  assert (0 <= w * h) as Hwh by nia.
  assert (len data / (if cf =? rgbAlpha then 4 else 3) = w * h) as Hofs.
  { destruct Hcf as [(-> & ->)|(-> & ->)]; simpl; by rewrite Z.div_mul. }
  destruct (tile_rows_ok cf data (Stride img) left (Z.to_nat w) (Z.to_nat h)
              top (Pix img) 0) as (pix' & Hrun & Hlen & Hin & Hout);
    [|lia|done|done|lia|nia|].
  { split; [done|]. split; [done|].
    destruct Hcf as [(-> & E)|(-> & E)]; simpl in Hofs; [left|right];
      rewrite Hofs; repeat split; try done; nia. }
  rewrite !Z2Nat.id in * by done.
  exists pix'. unfold scatterTile. rewrite Hrun. split; [done|].
  split; [done|].
  cbv zeta. unfold RGBAAt, PixOffset. cbn [Pix Stride Rect].
  rewrite HR. cbn [MinX MinY MaxX MaxY]. split.
  - intros i j Hi Hj.
    destruct (Z.leb_spec layerX (layerX + left + i)); [|lia].
    destruct (Z.ltb_spec (layerX + left + i) (layerX + W)); [|lia].
    destruct (Z.leb_spec layerY (layerY + top + j)); [|lia].
    destruct (Z.ltb_spec (layerY + top + j) (layerY + H)); [|lia].
    cbn [andb].
    set (off := (layerY + top + j - layerY) * Stride img
                + (layerX + left + i - layerX) * 4).
    assert (off = Stride img * (top + j) + (left + i) * 4) as Hoff
      by (subst off; lia).
    assert (0 <= off) as Hoff0 by (rewrite Hoff; nia).
    assert (forall c, 0 <= c < 4 ->
              at0 pix' (Z.to_nat off + Z.to_nat c)
              = default x00 (pixelBytes cf data (j * w + i) !! Z.to_nat c))
      as Hbyte.
    { intros c Hc. unfold at0 at 1. f_equal.
      replace (Z.to_nat off + Z.to_nat c)%nat
        with (Z.to_nat (Stride img * (top + j) + (left + i) * 4 + c)) by lia.
      rewrite (Hin j i c) by lia. do 2 f_equal. }
    pose proof (Hbyte 0 ltac:(lia)) as B0. rewrite Nat.add_0_r in B0.
    pose proof (Hbyte 1 ltac:(lia)) as B1.
    pose proof (Hbyte 2 ltac:(lia)) as B2.
    pose proof (Hbyte 3 ltac:(lia)) as B3.
    change (Z.to_nat 1) with 1%nat in B1.
    change (Z.to_nat 2) with 2%nat in B2.
    change (Z.to_nat 3) with 3%nat in B3.
    rewrite B0, B1, B2, B3. unfold pixelBytes, plane.
    destruct Hcf as [(-> & E)|(-> & E)]; simpl in Hofs |- *; rewrite Hofs;
      f_equal; f_equal; f_equal; lia.
  - intros x y Hxy.
    destruct ((layerX <=? x) && (x <? layerX + W) && (layerY <=? y)
              && (y <? layerY + H)) eqn:Hb; [|done].
    apply andb_prop in Hb as [Hb Hy2]. apply andb_prop in Hb as [Hb Hy1].
    apply andb_prop in Hb as [Hx1 Hx2].
    apply Z.leb_le in Hx1, Hy1. apply Z.ltb_lt in Hx2, Hy2.
    set (lx := x - layerX) in *. set (ly := y - layerY) in *.
    assert (0 <= ly * Stride img + lx * 4) as Hoff0 by nia.
    assert (forall c : nat, (c < 4)%nat ->
              at0 pix' (Z.to_nat (ly * Stride img + lx * 4) + c)
              = at0 (Pix img) (Z.to_nat (ly * Stride img + lx * 4) + c))
      as Hsame.
    { intros c Hc. unfold at0. f_equal. apply Hout. intros j Hj Hrange.
      destruct (Z.lt_trichotomy ly (top + j)) as [Hlt|[Heq|Hgt]].
      - assert (ly * Stride img + Stride img <= Stride img * (top + j)) by nia.
        lia.
      - subst ly. rewrite Heq in *. lia.
      - assert (Stride img * (top + j) + Stride img <= ly * Stride img) by nia.
        lia. }
    pose proof (Hsame 0%nat ltac:(lia)) as S0. rewrite Nat.add_0_r in S0.
    by rewrite S0, (Hsame 1%nat), (Hsame 2%nat), (Hsame 3%nat) by lia.
Qed.

(** The theorem at a tile of two pixels with alpha, planes 01 02, 03 04,
    05 06 and 07 08, in a layer at (1, -1). *)
Lemma scatterTile_deplanarizes_witness :
  exists pix',
    scatterTile rgbAlpha 8
      {| arr := [x01; x02; x03; x04; x05; x06; x07; x08]; len := 8 |}
      0 0 2 1 (replicate 8 x00) = inr pix'
    /\ RGBAAt {| Pix := pix'; Stride := 8; Rect := imageRect 1 (-1) 3 0 |}
         2 (-1)
       = {| R := x02; G := x04; B := x06; A := x08 |}.
Proof.
  destruct (scatterTile_deplanarizes rgbAlpha
              {| arr := [x01; x02; x03; x04; x05; x06; x07; x08]; len := 8 |}
              {| Pix := replicate 8 x00; Stride := 8;
                 Rect := imageRect 1 (-1) 3 0 |}
              1 (-1) 2 1 0 0 2 1)
    as (pix' & Hrun & _ & Hin & _);
    try (vm_compute; congruence); try reflexivity.
  { left. split; reflexivity. }
  exists pix'. split; [exact Hrun|].
  exact (Hin 1 0 ltac:(lia) ltac:(lia)).
Defined.

(** ** The properties of a layer *)

Lemma readUint32_enough file pos :
  (4 <= length (avail file pos))%nat ->
  readUint32 file pos = Ok (be32 (take 4 (avail file pos))) (pos + 4).
Proof.
  intros H. unfold readUint32.
  by rewrite (bind_Ok _ _ _ _ _ _ (ReadFull_enough 4 file pos H)).
Qed.

Lemma readInt32_enough file pos :
  (4 <= length (avail file pos))%nat ->
  readInt32 file pos = Ok (be32s (take 4 (avail file pos))) (pos + 4).
Proof.
  intros H. unfold readInt32.
  by rewrite (bind_Ok _ _ _ _ _ _ (ReadFull_enough 4 file pos H)).
Qed.

Lemma readPropertyHeader_enough file pos :
  (8 <= length (avail file pos))%nat ->
  readPropertyHeader file pos
  = Ok (propertyHeader.decode (take 8 (avail file pos))) (pos + 8).
Proof.
  intros H. unfold readPropertyHeader.
  by rewrite (bind_Ok _ _ _ _ _ _ (ReadFull_enough 8 file pos H)).
Qed.

Lemma skipProperty_enough header file pos :
  (Z.to_nat (propertyHeader.Length header) <= length (avail file pos))%nat ->
  skipProperty header file pos
  = Ok tt (pos + Z.to_nat (propertyHeader.Length header)).
Proof.
  intros H. unfold skipProperty, wrapErr, CopyN.
  rewrite decide_True by (rewrite length_take; lia).
  rewrite length_take. f_equal. lia.
Qed.

Lemma propsResult_nil st : propsResult st [] = st.
Proof. by destruct st. Qed.

Lemma propsResult_cons st p ps :
  propsResult st (p :: ps) = propsResult (propStep st p) ps.
Proof.
  destruct st as [v o x y].
  destruct p; unfold propsResult, visibleOf, opacityOf, offsetsOf, omap;
    simpl; rewrite ?last_cons;
    repeat match goal with |- context [last ?l] => destruct (last l) end;
    reflexivity.
Qed.

(** The loop of [loadLayer] over a property sequence. *)
Lemma loadLayer_props_ok bs ps rest :
  propsAt bs ps rest ->
  forall file pos st fuel,
    avail file pos = bs -> (length bs < fuel)%nat ->
    exists pos',
      loadLayer_props fuel st file pos = Ok (propsResult st ps) pos'
      /\ avail file pos' = rest.
Proof.
  induction 1 as [bs Hlen Hid|bs ps rest Hlen Hid _ IH|bs ps rest Hlen Hid _ IH
                 |bs ps rest Hlen Hid _ IH|bs ps rest Hlen H0 H1 H2 H3 _ IH];
    intros file pos st fuel E Hfuel;
    (destruct fuel as [|fuel]; [lia|]); cbn [loadLayer_props];
    rewrite (bind_Ok _ _ _ _ _ _
               (readPropertyHeader_enough file pos ltac:(rewrite E; lia)));
    rewrite E; unfold propId in *.
  - rewrite Hid. simpl. exists (pos + 8)%nat.
    rewrite propsResult_nil, avail_add, E. done.
  - rewrite Hid. simpl.
    assert (avail file (pos + 8) = drop 8 bs) as E8
      by (by rewrite avail_add, E).
    assert (avail file (pos + 8 + 4) = drop 12 bs) as E12
      by (rewrite avail_add, E8, drop_drop; done).
    rewrite (bind_Ok _ _ _ _ _ _
               (readInt32_enough file (pos + 8)
                  ltac:(rewrite E8, length_drop; lia))).
    rewrite (bind_Ok _ _ _ _ _ _
               (readInt32_enough file (pos + 8 + 4)
                  ltac:(rewrite E12, length_drop; lia))).
    rewrite E8, E12, propsResult_cons. apply IH.
    + rewrite avail_add, E12, drop_drop. done.
    + rewrite length_drop. lia.
  - rewrite Hid. simpl.
    assert (avail file (pos + 8) = drop 8 bs) as E8
      by (by rewrite avail_add, E).
    rewrite (bind_Ok _ _ _ _ _ _
               (readUint32_enough file (pos + 8)
                  ltac:(rewrite E8, length_drop; lia))).
    rewrite E8, propsResult_cons. apply IH.
    + rewrite avail_add, E8, drop_drop. done.
    + rewrite length_drop. lia.
  - rewrite Hid. simpl.
    assert (avail file (pos + 8) = drop 8 bs) as E8
      by (by rewrite avail_add, E).
    rewrite (bind_Ok _ _ _ _ _ _
               (readUint32_enough file (pos + 8)
                  ltac:(rewrite E8, length_drop; lia))).
    rewrite E8, propsResult_cons. apply IH.
    + rewrite avail_add, E8, drop_drop. done.
    + rewrite length_drop. lia.
  - destruct (Z.eqb_spec (propertyHeader.MagicID
                            (propertyHeader.decode (take 8 bs))) propEnd);
      [done|].
    destruct (Z.eqb_spec (propertyHeader.MagicID
                            (propertyHeader.decode (take 8 bs))) propOffsets);
      [done|].
    destruct (Z.eqb_spec (propertyHeader.MagicID
                            (propertyHeader.decode (take 8 bs))) propVisible);
      [done|].
    destruct (Z.eqb_spec (propertyHeader.MagicID
                            (propertyHeader.decode (take 8 bs))) propOpacity);
      [done|].
    assert (avail file (pos + 8) = drop 8 bs) as E8
      by (by rewrite avail_add, E).
    unfold propLength in *.
    rewrite (bind_Ok _ _ _ _ _ _
               (skipProperty_enough (propertyHeader.decode (take 8 bs))
                  file (pos + 8) ltac:(rewrite E8, length_drop; lia))).
    rewrite propsResult_cons. apply IH.
    + rewrite avail_add, E8, drop_drop. done.
    + rewrite length_drop. lia.
Qed.

Lemma u8_uint8 z : u8 (uint8 z) = z mod 256.
Proof.
  unfold u8, uint8.
  pose proof (Z.mod_pos_bound z 256 ltac:(lia)) as Hm.
  destruct (Byte.of_N (Z.to_N (z mod 256))) as [b|] eqn:E.
  - apply Byte.to_of_N in E. simpl. rewrite E. lia.
  - apply Byte.of_N_None_iff in E. lia.
Qed.

(** ** What a successful run went through *)

Lemma bind_Ok_inv {A B} (m : M A) (k : A -> M B) file pos b pos' :
  bind m k file pos = Ok b pos' ->
  exists a p, m file pos = Ok a p /\ k a file p = Ok b pos'.
Proof. unfold bind. destruct (m file pos); try done. eauto. Qed.

Lemma wrapErr_Ok_inv {A} prefix (m : M A) file pos a pos' :
  wrapErr prefix m file pos = Ok a pos' -> m file pos = Ok a pos'.
Proof. unfold wrapErr. by destruct (m file pos). Qed.

Lemma lift_Ok_inv {A} (x : panic + A) file pos a pos' :
  lift x file pos = Ok a pos' -> x = inr a /\ pos' = pos.
Proof. unfold lift. destruct x; [done|]. unfold ret. by intros [= -> ->]. Qed.

Lemma ReadFull_Ok_inv n file pos got pos' :
  ReadFull n file pos = Ok got pos' ->
  got = take (Z.to_nat n) (avail file pos) /\ length got = Z.to_nat n
  /\ pos' = (pos + Z.to_nat n)%nat.
Proof.
  intros H. pose proof (ReadFull_cursor n file pos) as Hc.
  rewrite H in Hc. destruct Hc as (-> & Hl & ->). rewrite Hl. done.
Qed.

(** The image [readImageData] returns has the bounds of the layer. *)
Lemma readImageData_Rect lh layerX layerY offset file pos img pos' :
  readImageData lh layerX layerY offset file pos = Ok img pos' ->
  Rect img = imageRect layerX layerY (layerX + layerHeader.Width lh)
               (layerY + layerHeader.Height lh).
Proof.
  unfold readImageData. intros H.
  repeat (apply bind_Ok_inv in H as (? & ? & ? & H)).
  match goal with
  | Hnew : lift (NewRGBA _) _ _ = Ok _ _ |- _ =>
      apply lift_Ok_inv in Hnew as [Hnew _]; unfold NewRGBA in Hnew;
      case_match; [|done]; injection Hnew as <-
  end.
  unfold ret in H. by injection H as <- _.
Qed.

(** ** loadLayer *)

(** C7.  For a decoded layer whose property sequence is [ps]: it is
    visible when [ps] has no Visible property, and otherwise exactly when
    the value of the (last) Visible property is not zero; its opacity is 0
    when [ps] has no Opacity property, and otherwise the low 8 bits of the
    value of the (last) Opacity property; its position is (0, 0) when [ps]
    has no Offsets property, and otherwise the pair of the (last) one. *)
Theorem loadLayer_property_defaults
    file pos offset layer pos' name p1 ps rest :
  loadLayer offset file pos = Ok layer pos' ->
  readString file (Z.to_nat offset + 12) = Ok name p1 ->
  propsAt (avail file p1) ps rest ->
  Visible layer
  = match visibleOf ps with Some v => negb (v =? 0) | None => true end
  /\ u8 (Opacity layer)
     = match opacityOf ps with Some v => v mod 256 | None => 0 end
  /\ (MinX (Rect (Image layer)), MinY (Rect (Image layer)))
     = match offsetsOf ps with Some xy => xy | None => (0, 0) end.
Proof.
  intros Hload Hname Hps. unfold loadLayer in Hload.
  apply bind_Ok_inv in Hload as ([] & p0 & Hseek & Hload).
  unfold Seek in Hseek. injection Hseek as <-.
  apply bind_Ok_inv in Hload as (header & p & Hhdr & Hload).
  unfold readLayerHeader in Hhdr.
  apply bind_Ok_inv in Hhdr as (bs & p' & Hbs & Hret).
  apply ReadFull_Ok_inv in Hbs as (_ & _ & ->).
  unfold ret in Hret. injection Hret as <- <-.
  change (Z.to_nat layerHeader.size) with 12%nat in Hload.
  destruct (negb _); [done|].
  apply bind_Ok_inv in Hload as (name' & p1' & Hname' & Hload).
  rewrite Hname in Hname'. injection Hname' as <- <-.
  apply bind_Ok_inv in Hload as (props & p2 & Hprops & Hload).
  unfold withFuel in Hprops.
  destruct (loadLayer_props_ok _ _ _ Hps file p1
              {| lpVisible := true; lpOpacity := x00; lpX := 0; lpY := 0 |}
              (S (length (avail file p1))) eq_refl ltac:(lia))
    as (p2' & Hloop & _).
  rewrite Hloop in Hprops. injection Hprops as <- <-.
  apply bind_Ok_inv in Hload as (pixelPointer & p3 & _ & Hload).
  apply bind_Ok_inv in Hload as (maskPointer & p4 & _ & Hload).
  apply bind_Ok_inv in Hload as (img & p5 & Himg & Hret).
  unfold ret in Hret. injection Hret as <- <-.
  apply readImageData_Rect in Himg. cbn [Visible Opacity Image].
  unfold propsResult in *. cbn [lpVisible lpOpacity lpX lpY] in *.
  split; [done|]. split.
  - destruct (opacityOf ps); [apply u8_uint8|done].
  - rewrite Himg. unfold imageRect, layerHeader.decode.
    cbn [layerHeader.Width layerHeader.Height].
    pose proof (be32_range (take 4 bs)) as HW.
    pose proof (be32_range (take 4 (drop 4 bs))) as HH.
    destruct (offsetsOf ps) as [[x y]|]; cbn [fst snd].
    + destruct (Z.ltb_spec (x + be32 (take 4 bs)) x); [lia|].
      by destruct (Z.ltb_spec (y + be32 (take 4 (drop 4 bs))) y); [lia|].
    + destruct (Z.ltb_spec (0 + be32 (take 4 bs)) 0); [lia|].
      by destruct (Z.ltb_spec (0 + be32 (take 4 (drop 4 bs))) 0); [lia|].
Qed.

(** The theorem at the first layer of the small file. *)
Lemma loadLayer_property_defaults_witness :
  exists layer pos',
    loadLayer 65 sample_xcf 0 = Ok layer pos'
    /\ Visible layer = false
    /\ u8 (Opacity layer) = 255
    /\ (MinX (Rect (Image layer)), MinY (Rect (Image layer))) = (1, -1).
Proof.
  eexists _, _. split; [vm_compute; reflexivity|].
  eapply (loadLayer_property_defaults sample_xcf 0 65 _ _ "bg" 84
           [PVisible 0; POpacity 511; POffsets 1 (-1)]
           (drop 132 sample_xcf)).
  - vm_compute. reflexivity.
  - vm_compute. reflexivity.
  - apply props_Visible; [vm_compute; lia|reflexivity|].
    apply props_Opacity; [vm_compute; lia|reflexivity|].
    apply props_Offsets; [vm_compute; lia|reflexivity|].
    apply props_End; [vm_compute; lia|reflexivity].
Defined.

(** ** Decode *)

Lemma layerOffsetList_nonzero bs : Forall (fun ptr => ptr <> 0) (layerOffsetList bs).
Proof.
  induction bs as [bs IH] using (induction_ltof1 _ (@length byte)).
  destruct bs as [|b0 [|b1 [|b2 [|b3 rest]]]]; try by constructor.
  cbn [layerOffsetList]. cbv zeta.
  destruct (Z.eqb_spec (be32 [b0; b1; b2; b3]) 0); constructor; [done|].
  apply IH. unfold ltof. simpl. lia.
Qed.

Lemma layerOffsetList_short bs : (length bs < 4)%nat -> layerOffsetList bs = [].
Proof.
  intros H. by destruct bs as [|b0 [|b1 [|b2 [|b3 rest]]]]; [..|simpl in H; lia].
Qed.

Lemma layerOffsetList_step bs :
  (4 <= length bs)%nat ->
  layerOffsetList bs
  = if be32 (take 4 bs) =? 0 then []
    else be32 (take 4 bs) :: layerOffsetList (drop 4 bs).
Proof.
  intros H.
  by destruct bs as [|b0 [|b1 [|b2 [|b3 rest]]]]; [simpl in H; lia..|].
Qed.

(** Once the file has ended with a pointer read, the loop over the layer
    pointers goes on for ever. *)
Lemma Decode_layerPointers_spins fuel : forall ptr layerPointers file pos,
  ptr <> 0 -> avail file pos = [] ->
  Decode_layerPointers fuel ptr layerPointers file pos = OutOfFuel.
Proof.
  induction fuel as [|fuel IH]; intros ptr acc file pos Hptr Hav; [done|].
  cbn [Decode_layerPointers].
  assert (readUint32 file pos = Err "EOF" pos) as ->.
  { unfold readUint32, bind, ReadFull. simpl. rewrite Hav. done. }
  destruct (Z.eqb_spec ptr 0); [done|]. by apply IH.
Qed.

(** When the loop returns, it returns the layer offset list. *)
Lemma Decode_layerPointers_ok fuel :
  forall ptr layerPointers file pos ptrs pos',
    Decode_layerPointers fuel ptr layerPointers file pos = Ok ptrs pos' ->
    ptrs = layerPointers ++ layerOffsetList (avail file pos).
Proof.
  induction fuel as [|fuel IH]; intros ptr acc file pos ptrs pos' H; [done|].
  cbn [Decode_layerPointers] in H.
  destruct (le_lt_dec 4 (length (avail file pos))) as [Hlen|Hlen].
  - rewrite readUint32_enough in H by done.
    rewrite layerOffsetList_step by done.
    destruct (be32 (take 4 (avail file pos)) =? 0).
    + injection H as <- _. by rewrite app_nil_r.
    + apply IH in H. rewrite H, avail_add, <- app_assoc. done.
  - rewrite layerOffsetList_short, app_nil_r by done.
    destruct (ReadFull_short 4 file pos ltac:(simpl; lia))
      as (e & p & Hread & Hav).
    unfold readUint32, bind in H. rewrite Hread in H.
    destruct (Z.eqb_spec ptr 0); [by injection H as <- _|].
    by rewrite Decode_layerPointers_spins in H.
Qed.

Lemma loadLayer_from_start offset file pos :
  loadLayer offset file pos = loadLayer offset file 0.
Proof. done. Qed.

(** The layers are loaded from the pointers, in their order. *)
Lemma Decode_layers_ok layerPointers :
  forall layers file pos result pos',
    Decode_layers layerPointers layers file pos = Ok result pos' ->
    exists new,
      result = layers ++ new
      /\ Forall2 (fun ptr layer => exists p, loadLayer ptr file 0 = Ok layer p)
           layerPointers new.
Proof.
  induction layerPointers as [|ptr rest IH];
    intros layers file pos result pos' H; cbn [Decode_layers] in H.
  - injection H as <- _. exists []. by rewrite app_nil_r.
  - apply bind_Ok_inv in H as (layer & p & Hload & H).
    apply wrapErr_Ok_inv in Hload. rewrite loadLayer_from_start in Hload.
    apply IH in H as (new & -> & Hall).
    exists (layer :: new). rewrite <- app_assoc. split; [done|].
    constructor; [by exists p|done].
Qed.

(** C9.  The canvas of a successful [Decode] has the width and the height
    of the file header, and its layers are the layers loaded from the
    entries of the layer offset list, the list of non-zero pointers that
    follows the canvas properties: one layer for each entry, in the order
    of the entries. *)
Theorem Decode_canvas fuel file pos canvas pos' :
  Decode fuel file pos = Ok canvas pos' ->
  let header := fileHeader.decode (take 26 (avail file pos)) in
  Width canvas = fileHeader.Width header
  /\ Height canvas = fileHeader.Height header
  /\ exists finalErr p1,
       withFuel (fun fuel => Decode_props fuel None) file (pos + 26)%nat
       = Ok finalErr p1
       /\ let layerPointers := layerOffsetList (avail file p1) in
          Forall (fun ptr => ptr <> 0) layerPointers
          /\ length (Layers canvas) = length layerPointers
          /\ Forall2
               (fun ptr layer => exists p, loadLayer ptr file 0 = Ok layer p)
               layerPointers (Layers canvas).
Proof.
  intros H. unfold Decode in H.
  apply bind_Ok_inv in H as (header & p0 & Hhdr & H).
  apply wrapErr_Ok_inv in Hhdr. unfold readFileHeader in Hhdr.
  apply bind_Ok_inv in Hhdr as (bs & p & Hbs & Hret).
  apply ReadFull_Ok_inv in Hbs as (-> & _ & ->).
  unfold ret in Hret. injection Hret as <- <-.
  change (Z.to_nat fileHeader.size) with 26%nat in *.
  repeat (destruct (negb _); [done|]).
  apply bind_Ok_inv in H as (finalErr & p1 & Hprops & H).
  apply bind_Ok_inv in H as (layerPointers & p2 & Hptrs & H).
  apply bind_Ok_inv in H as (layers & p3 & Hlayers & H).
  unfold ret in H. injection H as <- _. cbn [Width Height Layers].
  apply Decode_layerPointers_ok in Hptrs. simpl in Hptrs. subst layerPointers.
  apply Decode_layers_ok in Hlayers as (new & -> & Hall). simpl.
  split; [done|]. split; [done|].
  exists finalErr, p1. split; [done|].
  split; [apply layerOffsetList_nonzero|].
  split; [symmetry; by eapply Forall2_length|done].
Qed.

(** The theorem at the small file. *)
Lemma Decode_canvas_witness :
  exists canvas pos',
    Decode 3 sample_xcf 0 = Ok canvas pos'
    /\ Width canvas = 2 /\ Height canvas = 1
    /\ length (Layers canvas) = 2%nat.
Proof.
  destruct (Decode 3 sample_xcf 0) as [canvas pos'| | |] eqn:E;
    try (vm_compute in E; discriminate).
  exists canvas, pos'. split; [reflexivity|].
  destruct (Decode_canvas 3 sample_xcf 0 canvas pos' E)
    as (HW & HH & finalErr & p1 & Hprops & _ & Hlen & _).
  vm_compute in Hprops. injection Hprops as _ <-.
  rewrite HW, HH, Hlen. vm_compute. repeat split.
Defined.

(** [Decode] from the layer pointers on, once header and canvas properties
    are read. *)
Lemma Decode_after_props fuel file pos header p0 finalErr p1 :
  readFileHeader file pos = Ok header p0 ->
  gostring (fileHeader.MagicID header) = "gimp xcf " ->
  gostring (fileHeader.Version header) = "file" ->
  fileHeader.ColorFormat header = rgb ->
  withFuel (fun fuel => Decode_props fuel None) file p0 = Ok finalErr p1 ->
  Decode fuel file pos
  = bind (Decode_layerPointers fuel 0 [])
      (fun layerPointers =>
         let* layers := Decode_layers layerPointers [] in
         ret {| Width := fileHeader.Width header;
                Height := fileHeader.Height header;
                Layers := layers |}) file p1.
Proof.
  intros Hhdr Hmagic Hversion Hcf Hprops. unfold Decode.
  rewrite (bind_Ok _ _ _ _ header p0) by (unfold wrapErr; by rewrite Hhdr).
  rewrite Hmagic, Hversion, Hcf. simpl.
  by rewrite (bind_Ok _ _ _ _ _ _ Hprops).
Qed.

(** C2: the failing inputs, cut from the small file.
    - Cut after the canvas properties: the read of the first layer pointer
      fails, the error is dropped, and [Decode] returns a canvas without
      layers and no error.
    - Cut after the first layer pointer: the read of the second fails, the
      pointer keeps its value, and the loop appends it again and again;
      [Decode] does not return.
    - Cut inside the unknown canvas property: skipping it fails, the
      error is assigned and the loop goes on; the error [Decode] returns
      is that of the next read of a property header. *)
Theorem Decode_goes_on_after_errors :
  (forall fuel,
      Decode (S fuel) (take 53 sample_xcf) 0
      = Ok {| Width := 2; Height := 1; Layers := [] |} 53)
  /\ (forall fuel, Decode fuel (take 57 sample_xcf) 0 = OutOfFuel)
  /\ (forall fuel,
        Decode fuel (take 44 sample_xcf) 0
        = Err "read XCF: error reading property header: EOF" 44).
Proof.
  split; [|split]; intros fuel.
  - erewrite Decode_after_props by (vm_compute; reflexivity).
    unfold bind. cbn [Decode_layerPointers].
    assert (readUint32 (take 53 sample_xcf) 53%nat = Err "EOF" 53) as ->
      by (vm_compute; reflexivity).
    vm_compute. reflexivity.
  - erewrite Decode_after_props by (vm_compute; reflexivity).
    unfold bind. destruct fuel as [|fuel]; [reflexivity|].
    cbn [Decode_layerPointers].
    assert (readUint32 (take 57 sample_xcf) 53%nat = Ok 65 57) as ->
      by (vm_compute; reflexivity).
    change (65 =? 0) with false. cbv iota.
    rewrite Decode_layerPointers_spins; [reflexivity|lia|].
    vm_compute. reflexivity.
  - vm_compute. reflexivity.
Qed.

(** ** Termination *)

Lemma consumes_total {A} (m : M A) k : consumes m k -> total m.
Proof. intros H file pos E. specialize (H file pos). by rewrite E in H. Qed.

Lemma consumes_weaken {A} (m : M A) k k' :
  (k' <= k)%nat -> consumes m k -> consumes m k'.
Proof.
  intros Hk H file pos. specialize (H file pos).
  destruct (m file pos); try done. lia.
Qed.

Lemma consumes_ret {A} (a : A) : consumes (ret a) 0.
Proof. intros file pos. simpl. lia. Qed.

Lemma consumes_fail {A} e k : consumes (@fail A e) k.
Proof. by intros file pos. Qed.

Lemma consumes_lift {A} (x : panic + A) : consumes (lift x) 0.
Proof. intros file pos. destruct x; simpl; [done|lia]. Qed.

Lemma consumes_wrapErr {A} prefix (m : M A) k :
  consumes m k -> consumes (wrapErr prefix m) k.
Proof.
  intros H file pos. specialize (H file pos). unfold wrapErr.
  by destruct (m file pos).
Qed.

Lemma consumes_bind {A B} (m : M A) (f : A -> M B) a b :
  consumes m a -> (forall x, consumes (f x) b) -> consumes (bind m f) (a + b).
Proof.
  intros Hm Hf file pos. specialize (Hm file pos). unfold bind.
  destruct (m file pos) as [x p| | |]; try done.
  specialize (Hf x file p). destruct (f x file p); try done. lia.
Qed.

Lemma consumes_ReadFull n : consumes (ReadFull n) (Z.to_nat n).
Proof.
  intros file pos. pose proof (ReadFull_cursor n file pos) as H.
  destruct (ReadFull n file pos) as [got p| | |]; try done.
  destruct H as (-> & Hl & Hgot).
  apply (f_equal length) in Hgot. rewrite length_take in Hgot.
  rewrite avail_add, length_drop. lia.
Qed.

Lemma consumes_Read n : consumes (Read n) (if 0 <? n then 1 else 0).
Proof.
  intros file pos. pose proof (Read_cursor n file pos) as H.
  destruct (Read n file pos) as [got p| | |]; try done.
  destruct H as (-> & Hne & Hgot).
  apply (f_equal length) in Hgot. rewrite length_take in Hgot.
  rewrite avail_add, length_drop.
  destruct (Z.ltb_spec 0 n) as [Hn|Hn]; [|lia].
  specialize (Hne Hn). destruct got; [done|]. simpl in *. lia.
Qed.

Lemma consumes_CopyN n : consumes (CopyN n) 0.
Proof.
  intros file pos. pose proof (CopyN_cursor n file pos) as H.
  destruct (CopyN n file pos) as [[] p| | |]; try done.
  destruct H as (-> & Hl). rewrite avail_add, length_drop. lia.
Qed.

Lemma consumes_readUint32 : consumes readUint32 4.
Proof.
  apply (consumes_bind _ _ 4 0); [apply (consumes_ReadFull 4)|].
  intros bs. apply consumes_ret.
Qed.

Lemma consumes_readInt32 : consumes readInt32 4.
Proof.
  apply (consumes_bind _ _ 4 0); [apply (consumes_ReadFull 4)|].
  intros bs. apply consumes_ret.
Qed.

Lemma consumes_readPropertyHeader : consumes readPropertyHeader 8.
Proof.
  apply (consumes_bind _ _ 8 0); [apply (consumes_ReadFull 8)|].
  intros bs. apply consumes_ret.
Qed.

Lemma consumes_skipProperty header : consumes (skipProperty header) 0.
Proof. apply consumes_wrapErr, consumes_CopyN. Qed.

(** A loop whose body consumes input before it goes round again has
    enough fuel with [withFuel]. *)
Lemma consumes_withFuel {A} (loop : nat -> M A) :
  (forall fuel file pos,
      (length (avail file pos) < fuel)%nat ->
      match loop fuel file pos with
      | Ok _ pos' => (length (avail file pos') <= length (avail file pos))%nat
      | OutOfFuel => False
      | _ => True
      end) ->
  consumes (withFuel loop) 0.
Proof.
  intros H file pos. unfold withFuel.
  specialize (H (S (length (avail file pos))) file pos ltac:(lia)).
  destruct (loop _ file pos); try done. lia.
Qed.

(** The step of such a loop: [m] consumes at least one byte, then the loop
    goes round with one unit of fuel less. *)
Lemma loop_step {A B} (m : M A) (k : A -> M B) n fuel file pos :
  consumes m (S n) ->
  (length (avail file pos) < S fuel)%nat ->
  (forall a pos',
      (length (avail file pos') < fuel)%nat ->
      (length (avail file pos') <= length (avail file pos))%nat ->
      match k a file pos' with
      | Ok _ p => (length (avail file p) <= length (avail file pos'))%nat
      | OutOfFuel => False
      | _ => True
      end) ->
  match bind m k file pos with
  | Ok _ p => (length (avail file p) <= length (avail file pos))%nat
  | OutOfFuel => False
  | _ => True
  end.
Proof.
  intros Hm Hfuel Hk. specialize (Hm file pos). unfold bind.
  destruct (m file pos) as [a p| | |]; try done.
  specialize (Hk a p ltac:(lia) ltac:(lia)).
  destruct (k a file p); try done. lia.
Qed.

Lemma skipLevelPointers_fuel fuel : forall file pos,
  (length (avail file pos) < fuel)%nat ->
  match skipLevelPointers fuel file pos with
  | Ok _ pos' => (length (avail file pos') <= length (avail file pos))%nat
  | OutOfFuel => False
  | _ => True
  end.
Proof.
  induction fuel as [|fuel IH]; intros file pos Hfuel; [lia|].
  cbn [skipLevelPointers].
  apply (loop_step _ _ 3 fuel); [apply consumes_readUint32|done|].
  intros ptr p Hp _. destruct (ptr =? 0); [simpl; lia|by apply IH].
Qed.

Lemma loadLayer_props_fuel fuel : forall st file pos,
  (length (avail file pos) < fuel)%nat ->
  match loadLayer_props fuel st file pos with
  | Ok _ pos' => (length (avail file pos') <= length (avail file pos))%nat
  | OutOfFuel => False
  | _ => True
  end.
Proof.
  induction fuel as [|fuel IH]; intros st file pos Hfuel; [lia|].
  cbn [loadLayer_props].
  apply (loop_step _ _ 7 fuel); [apply consumes_readPropertyHeader|done|].
  intros header p Hp _.
  assert (forall {A} (m : M A) k st',
            consumes m k ->
            match bind m (fun _ => loadLayer_props fuel st') file p with
            | Ok _ p' => (length (avail file p') <= length (avail file p))%nat
            | OutOfFuel => False
            | _ => True
            end) as Hone.
  { intros A m k st' Hm. specialize (Hm file p). unfold bind.
    destruct (m file p) as [a p'| | |]; try done.
    specialize (IH st' file p' ltac:(lia)).
    destruct (loadLayer_props fuel st' file p'); try done. lia. }
  destruct (propertyHeader.MagicID header =? propEnd); [simpl; lia|].
  destruct (propertyHeader.MagicID header =? propOffsets).
  { pose proof (consumes_readInt32 file p) as Hx. unfold bind at 1.
    destruct (readInt32 file p) as [x p'| | |]; try done.
    pose proof (consumes_readInt32 file p') as Hy. unfold bind.
    destruct (readInt32 file p') as [y p''| | |]; try done.
    specialize (IH {| lpVisible := lpVisible st; lpOpacity := lpOpacity st;
                      lpX := x; lpY := y |} file p'' ltac:(lia)).
    destruct (loadLayer_props fuel _ file p''); try done. lia. }
  destruct (propertyHeader.MagicID header =? propVisible).
  { pose proof (consumes_readUint32 file p) as Hx. unfold bind.
    destruct (readUint32 file p) as [x p'| | |]; try done.
    specialize (IH {| lpVisible := negb (x =? 0); lpOpacity := lpOpacity st;
                      lpX := lpX st; lpY := lpY st |} file p' ltac:(lia)).
    destruct (loadLayer_props fuel _ file p'); try done. lia. }
  destruct (propertyHeader.MagicID header =? propOpacity).
  { pose proof (consumes_readUint32 file p) as Hx. unfold bind.
    destruct (readUint32 file p) as [x p'| | |]; try done.
    specialize (IH {| lpVisible := lpVisible st; lpOpacity := uint8 x;
                      lpX := lpX st; lpY := lpY st |} file p' ltac:(lia)).
    destruct (loadLayer_props fuel _ file p'); try done. lia. }
  apply (Hone _ _ 0%nat), consumes_skipProperty.
Qed.

Lemma Decode_props_fuel fuel : forall finalErr file pos,
  (length (avail file pos) < fuel)%nat ->
  match Decode_props fuel finalErr file pos with
  | Ok _ pos' => (length (avail file pos') <= length (avail file pos))%nat
  | OutOfFuel => False
  | _ => True
  end.
Proof.
  induction fuel as [|fuel IH]; intros finalErr file pos Hfuel; [lia|].
  cbn [Decode_props].
  apply (loop_step _ _ 7 fuel);
    [apply consumes_wrapErr, consumes_readPropertyHeader|done|].
  intros header p Hp _.
  destruct (propertyHeader.MagicID header =? propEnd); [simpl; lia|].
  destruct (propertyHeader.MagicID header =? propColormap).
  { pose proof (consumes_wrapErr
                  "read XCF: unable to read number of colors in color map: "
                  _ _ consumes_readUint32 file p) as Hx.
    unfold bind at 1. destruct (wrapErr _ readUint32 file p) as [x p'| | |];
      try done.
    pose proof (consumes_wrapErr "read XCF: error skipping color map: "
                  _ _ (consumes_CopyN (wrap32 (3 * x))) file p') as Hy.
    unfold bind. destruct (wrapErr _ (CopyN _) file p') as [y p''| | |];
      try done.
    specialize (IH finalErr file p'' ltac:(lia)).
    destruct (Decode_props fuel finalErr file p''); try done. lia. }
  destruct (propertyHeader.MagicID header =? propCompression).
  { pose proof (consumes_wrapErr "read XCF: error reading compression: "
                  _ _ (consumes_Read 1) file p) as Hx.
    unfold bind. destruct (wrapErr _ (Read 1) file p) as [x p'| | |];
      try done.
    destruct (negb _); [done|].
    specialize (IH finalErr file p' ltac:(simpl in Hx; lia)).
    destruct (Decode_props fuel finalErr file p'); try done.
    simpl in Hx. lia. }
  unfold skipProperty, wrapErr.
  pose proof (CopyN_cursor (propertyHeader.Length header) file p) as Hc.
  destruct (CopyN (propertyHeader.Length header) file p) as [[] p'|e p'| |];
    try done.
  - destruct Hc as (-> & Hl).
    assert (length (avail file (p + Z.to_nat (propertyHeader.Length header)))
            <= length (avail file p))%nat as Hle
      by (rewrite avail_add, length_drop; lia).
    specialize (IH finalErr file
                  (p + Z.to_nat (propertyHeader.Length header))%nat
                  ltac:(lia)).
    destruct (Decode_props fuel finalErr file _); try done. lia.
  - destruct Hc as (_ & Hav).
    specialize (IH (Some ("unable to skip property: "
                            +:+ "read XCF: unable to skip property: " +:+ e))
                  file p' ltac:(rewrite Hav; simpl; lia)).
    destruct (Decode_props fuel _ file p'); try done.
    rewrite Hav in IH. simpl in *. lia.
Qed.

Lemma total_bind {A B} (m : M A) (k : A -> M B) :
  total m -> (forall a, total (k a)) -> total (bind m k).
Proof.
  intros Hm Hk file pos. specialize (Hm file pos). unfold bind.
  destruct (m file pos); try done. apply Hk.
Qed.

Lemma total_forM {St} (body : Z -> St -> M St) n :
  (forall i s, total (body i s)) -> forall i s, total (forM n i body s).
Proof.
  intros Hbody. induction n as [|n IH]; intros i s; [done|].
  cbn [forM]. apply total_bind; [apply Hbody|]. intros s'. apply IH.
Qed.

Lemma total_wrapErr {A} prefix (m : M A) : total m -> total (wrapErr prefix m).
Proof.
  intros H file pos. specialize (H file pos). unfold wrapErr.
  by destruct (m file pos).
Qed.

Lemma total_lift {A} (x : panic + A) : total (lift x).
Proof. by destruct x. Qed.

(** [readImageData] and [loadLayer] return, fail or panic on every
    file. *)
Lemma readTile_total lh bytesPerPixel stride tileY tileX st :
  total (readTile lh bytesPerPixel stride tileY tileX st).
Proof.
  unfold readTile. destruct st as [buffer pix].
  apply total_bind; [apply total_lift|]. intros _.
  apply total_bind; [intros file pos; apply decodeRLE_terminates|].
  intros data. apply total_bind; [apply total_lift|done].
Qed.

Lemma readImageData_total lh layerX layerY offset :
  total (readImageData lh layerX layerY offset).
Proof.
  unfold readImageData.
  apply total_bind; [done|]. intros _.
  apply total_bind.
  { unfold readHierarchyHeader. apply total_bind; [|done].
    apply (consumes_total _ _ (consumes_ReadFull _)). }
  intros header.
  apply total_bind.
  { apply (consumes_total _ 0), consumes_withFuel, skipLevelPointers_fuel. }
  intros _. apply total_bind; [done|]. intros _.
  do 2 (apply total_bind;
        [apply (consumes_total _ _ consumes_readUint32)|intros ?]).
  apply total_bind; [apply (consumes_total _ _ (consumes_ReadFull _))|].
  intros tilePointers. apply total_bind; [apply total_lift|].
  intros rgba. apply total_bind; [|done].
  apply total_forM. intros tileY st. apply total_forM. intros tileX st'.
  apply readTile_total.
Qed.

Lemma loadLayer_total offset : total (loadLayer offset).
Proof.
  unfold loadLayer.
  apply total_bind; [done|]. intros _.
  apply total_bind.
  { unfold readLayerHeader. apply total_bind; [|done].
    apply (consumes_total _ _ (consumes_ReadFull _)). }
  intros header. destruct (negb _); [done|].
  apply total_bind.
  { unfold readString.
    apply total_bind;
      [apply total_wrapErr, (consumes_total _ _ consumes_readUint32)|].
    intros n. destruct (n =? 0); [done|].
    apply total_bind;
      [apply total_wrapErr, (consumes_total _ _ (consumes_Read _))|done]. }
  intros name. apply total_bind.
  { apply (consumes_total _ 0), consumes_withFuel. intros fuel.
    apply loadLayer_props_fuel. }
  intros props.
  do 2 (apply total_bind;
        [apply (consumes_total _ _ consumes_readUint32)|intros ?]).
  apply total_bind; [apply readImageData_total|done].
Qed.

Lemma Decode_layers_total layerPointers : forall layers,
  total (Decode_layers layerPointers layers).
Proof.
  induction layerPointers as [|ptr rest IH]; intros layers; [done|].
  cbn [Decode_layers].
  apply total_bind; [apply total_wrapErr, loadLayer_total|]. intros l. apply IH.
Qed.

(** The one way for [Decode] not to return: header and canvas properties
    are read, and the loop over the layer pointers goes on for ever. *)
Lemma Decode_OutOfFuel fuel file pos :
  Decode fuel file pos = OutOfFuel ->
  exists finalErr p1,
    withFuel (fun fuel => Decode_props fuel None) file (pos + 26)%nat
    = Ok finalErr p1
    /\ Decode_layerPointers fuel 0 [] file p1 = OutOfFuel.
Proof.
  unfold Decode. intros H. unfold bind at 1 in H.
  pose proof (consumes_wrapErr "read XCF: error reading header: " _ _
                (consumes_bind _ _ _ 0%nat (consumes_ReadFull fileHeader.size)
                   (fun bs => consumes_ret (fileHeader.decode bs))) file pos)
    as Hhdr.
  unfold readFileHeader in H.
  destruct (wrapErr _ _ file pos) as [header p0| | |] eqn:E; try done.
  apply wrapErr_Ok_inv, bind_Ok_inv in E as (bs & p & Hbs & Hret).
  apply ReadFull_Ok_inv in Hbs as (_ & _ & ->). injection Hret as _ <-.
  repeat (destruct (negb _); [done|]).
  unfold bind at 1 in H.
  pose proof (consumes_withFuel _ (fun fuel => Decode_props_fuel fuel None)
                file (pos + Z.to_nat fileHeader.size)%nat) as Hp.
  destruct (withFuel _ file _) as [finalErr p1| | |] eqn:Eprops; try done.
  exists finalErr, p1. split; [done|].
  unfold bind at 1 in H.
  destruct (Decode_layerPointers fuel 0 [] file p1) as [ptrs p2| | |];
    try done.
  exfalso. revert H. apply (total_bind _ _ (Decode_layers_total ptrs [])).
  done.
Qed.

(** ** A tile in [readImageData] *)

Lemma fillRun_shape count : forall dest next value dest' next',
  fillRun count dest next value = inr (dest', next') ->
  len dest' = len dest /\ length (arr dest') = length (arr dest)
  /\ next <= next'.
Proof.
  induction count as [|count IH]; intros dest next value dest' next' H.
  { injection H as <- <-. repeat split. lia. }
  cbn [fillRun] in H. unfold store in H.
  destruct ((0 <=? next) && (next <? len dest)); [|done].
  apply IH in H as (Hl & Ha & Hn). cbn [len arr] in *.
  rewrite length_insert in Ha. repeat split; [done|done|lia].
Qed.

Lemma copyRun_shape count dest next file pos dest' next' pos' :
  0 <= next -> 0 <= count ->
  copyRun count dest next file pos = Ok (dest', next') pos' ->
  len dest' = len dest /\ length (arr dest') = length (arr dest)
  /\ next <= next'.
Proof.
  intros Hnext Hcount H. unfold copyRun in H.
  apply bind_Ok_inv in H as ([] & p & Hsub & H).
  apply lift_Ok_inv in Hsub as [Hsub ->]. unfold subslice in Hsub.
  destruct (Z.leb_spec (next + count) (cap dest)) as [Hcap|]; [|done].
  apply bind_Ok_inv in H as (got & p & Hread & H).
  injection H as <- <- _. cbn [len arr]. unfold cap in Hcap.
  pose proof (Read_cursor count file pos) as Hc. rewrite Hread in Hc.
  destruct Hc as (_ & _ & Hgot).
  apply (f_equal length) in Hgot. rewrite length_take in Hgot.
  split; [done|]. split; [|lia].
  apply length_overlay. lia.
Qed.

(** [decodeRLE] leaves length and capacity of the destination as they
    are. *)
Lemma decodeRLE_loop_shape fuel : forall buffer dest next file pos data pos',
  0 <= next ->
  decodeRLE_loop fuel buffer dest next file pos = Ok data pos' ->
  len data = len dest /\ length (arr data) = length (arr dest).
Proof.
  induction fuel as [|fuel IH]; intros buffer dest next file pos data pos' H0 H.
  { simpl in H. destruct (next <? len dest); [done|]. by injection H as <- _. }
  cbn [decodeRLE_loop] in H.
  destruct (next <? len dest); [|by injection H as <- _].
  apply bind_Ok_inv in H as (got & p & _ & H).
  assert (forall count value b p0,
            bind (lift (fillRun count dest next value))
              (fun st => decodeRLE_loop fuel b (fst st) (snd st)) file p0
            = Ok data pos' ->
            len data = len dest /\ length (arr data) = length (arr dest))
    as Hfill.
  { intros count value b p0 Hb.
    apply bind_Ok_inv in Hb as ([d nx] & p1 & Hf & Hb).
    apply lift_Ok_inv in Hf as [Hf ->].
    apply fillRun_shape in Hf as (Hl & Ha & Hn).
    apply IH in Hb as [Hl' Ha']; [|simpl; lia]. simpl in *.
    split; congruence. }
  assert (forall count b p0, 0 <= count ->
            bind (copyRun count dest next)
              (fun st => decodeRLE_loop fuel b (fst st) (snd st)) file p0
            = Ok data pos' ->
            len data = len dest /\ length (arr data) = length (arr dest))
    as Hcopy.
  { intros count b p0 Hcount Hb.
    apply bind_Ok_inv in Hb as ([d nx] & p1 & Hc & Hb).
    apply copyRun_shape in Hc as (Hl & Ha & Hn); [|done|done].
    apply IH in Hb as [Hl' Ha']; [|simpl; lia]. simpl in *.
    split; congruence. }
  pose proof (u8_range (at0 (overlay buffer 0 got) 0)) as Hop.
  destruct (Z.leb_spec (u8 (at0 (overlay buffer 0 got) 0)) 126).
  { apply bind_Ok_inv in H as (got1 & p1 & _ & H). by eapply Hfill. }
  destruct (u8 (at0 (overlay buffer 0 got) 0) =? 127).
  { apply bind_Ok_inv in H as (got1 & p1 & _ & H). by eapply Hfill. }
  destruct (u8 (at0 (overlay buffer 0 got) 0) =? 128).
  { apply bind_Ok_inv in H as (got1 & p1 & _ & H).
    eapply Hcopy; [|exact H].
    pose proof (u8_range (at0 (overlay (overlay buffer 0 got) 1 got1) 1)).
    pose proof (u8_range (at0 (overlay (overlay buffer 0 got) 1 got1) 2)).
    lia. }
  eapply Hcopy; [|exact H]. lia.
Qed.

Lemma decodeRLE_shape dest file pos data pos' :
  decodeRLE dest file pos = Ok data pos' ->
  len data = len dest /\ length (arr data) = length (arr dest).
Proof. unfold decodeRLE, withFuel. by apply decodeRLE_loop_shape. Qed.

(** The loops of a tile run through, and leave the length of the pixel
    buffer as it is. *)
Lemma scatterTile_runs cf data stride pix W H left top w h :
  0 <= W -> 0 <= H -> stride = 4 * W -> Z.of_nat (length pix) = 4 * W * H ->
  0 <= left -> 0 <= top -> 0 <= w -> 0 <= h ->
  left + w <= W -> top + h <= H ->
  len data <= cap data ->
  (cf = rgbAlpha /\ len data = w * h * 4
   \/ cf = rgbNoAlpha /\ len data = w * h * 3) ->
  exists pix',
    scatterTile cf stride data left top w h pix = inr pix'
    /\ length pix' = length pix.
Proof.
  intros HW HH -> HPix Hl Ht Hw Hh HlW HtH Hcap Hcf. unfold cap in Hcap.
  assert (0 <= w * h) as Hwh by nia.
  assert (len data / (if cf =? rgbAlpha then 4 else 3) = w * h) as Hofs.
  { destruct Hcf as [(-> & ->)|(-> & ->)]; simpl; by rewrite Z.div_mul. }
  destruct (tile_rows_ok cf data (4 * W) left (Z.to_nat w) (Z.to_nat h)
              top pix 0) as (pix' & Hrun & Hlen & _);
    [|lia|done|done|lia|nia|].
  { split; [done|]. split; [done|].
    destruct Hcf as [(-> & E)|(-> & E)]; simpl in Hofs; [left|right];
      rewrite Hofs; repeat split; try done; nia. }
  exists pix'. unfold scatterTile. by rewrite Hrun.
Qed.

(** A tile of the grid of a layer, once its data is decoded: [readTile]
    moves the decoded planes to the pixels of the tile with the loops of
    [scatterTile], in the image of the layer. *)
Lemma readTile_in_grid lh bytesPerPixel img layerX layerY tileX tileY
    buffer file pos data pos' :
  let W := layerHeader.Width lh in
  let H := layerHeader.Height lh in
  let cf := layerHeader.ColorFormat lh in
  0 <= W -> W + 63 < 2 ^ 32 -> 0 <= H -> H + 63 < 2 ^ 32 ->
  (cf = rgbAlpha /\ bytesPerPixel = 4 \/ cf = rgbNoAlpha /\ bytesPerPixel = 3) ->
  0 <= tileX < tileCountX lh -> 0 <= tileY < tileCountY lh ->
  len buffer = 64 * 64 * bytesPerPixel -> cap buffer = 64 * 64 * bytesPerPixel ->
  NewRGBA (imageRect layerX layerY (layerX + W) (layerY + H)) = inr img ->
  forall pix, length pix = length (Pix img) ->
  decodeRLE {| arr := arr buffer;
               len := tileW lh tileX * tileH lh tileY * bytesPerPixel |}
    file pos = Ok data pos' ->
  exists pix',
    readTile lh bytesPerPixel (Stride img) tileY tileX (buffer, pix) file pos
    = Ok ({| arr := arr data; len := len buffer |}, pix') pos'
    /\ scatterTile cf (Stride img) data (tileX * 64) (tileY * 64)
         (tileW lh tileX) (tileH lh tileY) pix = inr pix'
    /\ length pix' = length pix.
Proof.
  intros W H cf HW HW' HH HH' Hcf Hx Hy Hlen Hcap Hnew pix Hpix Hdec.
  destruct (tile_grid_geometry lh HW HW') as (_ & _ & Hgx).
  destruct (tile_grid_geometry_Y lh HH HH') as (_ & _ & Hgy).
  destruct (Hgx tileX Hx) as (_ & _ & Hw & Hwfit & _).
  destruct (Hgy tileY Hy) as (_ & _ & Hh & Hhfit & _).
  destruct (NewRGBA_layer _ _ _ _ _ HW HH Hnew) as (HRect & HStride & HPix).
  destruct (decodeRLE_shape _ _ _ _ _ Hdec) as [Hdl Hda].
  cbn [len arr] in Hdl, Hda.
  assert (bytesPerPixel = 4 \/ bytesPerPixel = 3) as Hbpp
    by (destruct Hcf as [[_ ->]|[_ ->]]; auto).
  assert (tileW lh tileX * tileH lh tileY <= 64 * 64) as Harea by nia.
  assert (0 < tileW lh tileX * tileH lh tileY) as Harea0 by nia.
  destruct (scatterTile_runs cf data (Stride img) pix W H
              (tileX * 64) (tileY * 64) (tileW lh tileX) (tileH lh tileY))
    as (pix' & Hrun & Hlen');
    [done|done|done|lia|lia|lia|lia|lia|lia|lia| | |].
  { unfold cap. rewrite Hdl, Hda. unfold cap in Hcap. nia. }
  { rewrite Hdl. destruct Hcf as [[? ->]|[? ->]]; auto. }
  exists pix'. split; [|done].
  unfold readTile. fold cf.
  assert (subslice buffer (tileW lh tileX * tileH lh tileY * bytesPerPixel)
          = inr tt) as Hsub.
  { unfold subslice. destruct (Z.leb_spec
      (tileW lh tileX * tileH lh tileY * bytesPerPixel) (cap buffer));
      [done|nia]. }
  rewrite Hsub. unfold bind at 1. cbn [lift ret].
  rewrite (bind_Ok _ _ _ _ _ _ Hdec).
  unfold bind, lift. rewrite Hrun. done.
Qed.

(** ** The header check of [Decode] *)

Lemma readFileHeader_enough file pos :
  (26 <= length (avail file pos))%nat ->
  readFileHeader file pos
  = Ok (fileHeader.decode (take 26 (avail file pos))) (pos + 26).
Proof.
  intros H. unfold readFileHeader.
  by rewrite (bind_Ok _ _ _ _ _ _ (ReadFull_enough 26 file pos H)).
Qed.

(** X1.  A file that ends before the 26 bytes of the file header are read
    is refused, whatever it holds: with "read XCF: error reading header:
    EOF" when there is no byte at all, and with "... unexpected EOF" when
    there are some. *)
Theorem Decode_short_file fuel file pos :
  (length (avail file pos) < 26)%nat ->
  Decode fuel file pos
  = Err ("read XCF: error reading header: "
           +:+ match avail file pos with
               | [] => "EOF"
               | _ => "unexpected EOF"
               end)
      (pos + length (avail file pos)).
Proof.
  intros H. unfold Decode, bind, wrapErr, readFileHeader, bind, ReadFull.
  change (fileHeader.size <=? 0) with false. cbv iota.
  change (Z.to_nat fileHeader.size) with 26%nat.
  rewrite decide_False by (rewrite length_take; lia).
  rewrite take_ge by lia.
  destruct (avail file pos); [|done]. simpl. by rewrite Nat.add_0_r.
Qed.

Lemma Decode_short_file_witness :
  Decode 0 (take 20 sample_xcf) 0
  = Err "read XCF: error reading header: unexpected EOF" 20.
Proof.
  apply (Decode_short_file 0 (take 20 sample_xcf) 0). vm_compute. lia.
Defined.

(** X2.  With the 26 bytes of the header there, [Decode] checks the magic
    ID, then the version, then the colour format, and refuses the file at
    the first that is not "gimp xcf ", "file" and RGB, with a message that
    quotes the value found. *)
Theorem Decode_header_checks fuel file pos :
  (26 <= length (avail file pos))%nat ->
  let header := fileHeader.decode (take 26 (avail file pos)) in
  let magic := gostring (fileHeader.MagicID header) in
  let version := gostring (fileHeader.Version header) in
  (magic <> "gimp xcf " ->
   Decode fuel file pos
   = Err ("read XCF: wrong magic ID: " +:+ magic) (pos + 26))
  /\ (magic = "gimp xcf " -> version <> "file" ->
      Decode fuel file pos
      = Err ("read XCF: unsupported file version: " +:+ version) (pos + 26))
  /\ (magic = "gimp xcf " -> version = "file" ->
      fileHeader.ColorFormat header <> rgb ->
      Decode fuel file pos
      = Err ("read XCF: unsupported color format: "
               +:+ fmtv (fileHeader.ColorFormat header)) (pos + 26)).
Proof.
  intros H header magic version. unfold Decode.
  rewrite (bind_Ok _ _ _ _ header (pos + 26)%nat)
    by (unfold wrapErr; by rewrite readFileHeader_enough).
  fold magic version. split; [|split].
  - intros Hm. apply String.eqb_neq in Hm. by rewrite Hm.
  - intros -> Hv. apply String.eqb_neq in Hv. by rewrite Hv.
  - intros -> -> Hcf. apply Z.eqb_neq in Hcf. by rewrite Hcf.
Qed.

(** The small file with the colour format changed to grayscale. *)
Lemma Decode_header_checks_witness :
  Decode 0 (take 22 sample_xcf ++ u32 grayscale ++ drop 26 sample_xcf) 0
  = Err "read XCF: unsupported color format: 1" 26.
Proof.
  apply (Decode_header_checks 0
           (take 22 sample_xcf ++ u32 grayscale ++ drop 26 sample_xcf) 0);
    [vm_compute; lia|reflexivity|reflexivity|vm_compute; discriminate].
Defined.

(** ** The canvas properties *)

(** The loop of [Decode] over a run of canvas properties: one turn for
    each, and the error slot [finalErr] is left as it was. *)
Lemma Decode_props_over bs ps rest :
  canvasPropsAt bs ps rest ->
  forall file pos finalErr fuel,
    avail file pos = bs ->
    exists pos',
      avail file pos' = rest
      /\ (length rest + 8 * length ps <= length bs)%nat
      /\ Decode_props (length ps + fuel) finalErr file pos
         = Decode_props fuel finalErr file pos'.
Proof.
  induction 1 as [bs|bs ps rest Hlen Hid _ IH|bs ps rest Hlen Hid Hc _ IH
                 |bs ps rest Hlen H0 H1 H2 _ IH];
    intros file pos finalErr fuel E.
  { exists pos. split; [done|]. split; [simpl; lia|done]. }
  all: cbn [length Nat.add Decode_props];
    rewrite (bind_Ok _ _ _ _ (propertyHeader.decode (take 8 bs)) (pos + 8)%nat)
      by (unfold wrapErr; rewrite readPropertyHeader_enough, ?E;
          [done|rewrite E; lia]);
    unfold propId, propLength in *;
    assert (avail file (pos + 8) = drop 8 bs) as E8
      by (by rewrite avail_add, E).
  - rewrite Hid. simpl.
    rewrite (bind_Ok _ _ _ _ (be32 (take 4 (drop 8 bs))) (pos + 8 + 4)%nat)
      by (unfold wrapErr; rewrite readUint32_enough, ?E8;
          [done|rewrite E8, length_drop; lia]).
    assert (avail file (pos + 8 + 4) = drop 12 bs) as E12
      by (rewrite avail_add, E8, drop_drop; done).
    set (n := Z.to_nat (wrap32 (3 * be32 (take 4 (drop 8 bs))))) in *.
    rewrite (bind_Ok _ _ _ _ tt (pos + 8 + 4 + n)%nat).
    2:{ unfold wrapErr, CopyN. fold n.
        rewrite decide_True by (rewrite length_take, E12, length_drop; lia).
        rewrite length_take, E12, length_drop. f_equal. lia. }
    destruct (IH file (pos + 8 + 4 + n)%nat finalErr fuel)
      as (pos' & Hrest & Hl & Hloop).
    { rewrite avail_add, E12, drop_drop. done. }
    exists pos'. split; [done|]. split; [|done].
    rewrite length_drop in Hl. lia.
  - rewrite Hid. simpl.
    assert (exists b l, drop 8 bs = b :: l /\ at0 bs 8 = b) as (b & l & Eb & Hb).
    { destruct (drop 8 bs) as [|b l] eqn:Ed.
      - apply (f_equal length) in Ed. rewrite length_drop in Ed. simpl in Ed. lia.
      - exists b, l. split; [done|]. unfold at0.
        rewrite <- (Nat.add_0_r 8), <- lookup_drop, Ed. done. }
    rewrite (bind_Ok _ _ _ _ [b] (pos + 8 + 1)%nat).
    2:{ unfold wrapErr.
        rewrite (Read_prefix 1 file (pos + 8) [b] l); [done| |done].
        by rewrite E8, Eb. }
    change (at0 (overlay [x00] 0 [b]) 0) with b.
    rewrite <- Hb, Hc. simpl.
    destruct (IH file (pos + 8 + 1)%nat finalErr fuel)
      as (pos' & Hrest & Hl & Hloop).
    { rewrite avail_add, E8, drop_drop. done. }
    exists pos'. split; [done|]. split; [|done].
    rewrite length_drop in Hl. lia.
  - destruct (Z.eqb_spec (propertyHeader.MagicID
                            (propertyHeader.decode (take 8 bs))) propEnd);
      [done|].
    destruct (Z.eqb_spec (propertyHeader.MagicID
                            (propertyHeader.decode (take 8 bs))) propColormap);
      [done|].
    destruct (Z.eqb_spec (propertyHeader.MagicID
                            (propertyHeader.decode (take 8 bs)))
                propCompression); [done|].
    rewrite skipProperty_enough by (rewrite E8, length_drop; lia).
    destruct (IH file (pos + 8 + Z.to_nat (propertyHeader.Length
                                             (propertyHeader.decode (take 8 bs))))%nat
                finalErr fuel) as (pos' & Hrest & Hl & Hloop).
    { rewrite avail_add, E8, drop_drop. done. }
    exists pos'. split; [done|]. split; [|done].
    rewrite length_drop in Hl. lia.
Qed.

(** X3.  Where the canvas properties are well formed and end with the End
    property, the loop of [Decode] stops right behind it, without an
    error.  On its way it steps over a colour map by three bytes per
    colour of the colour count, whatever length the header of the property
    gives, over the one byte of Compression, and over any other property by
    the length its header gives. *)
Theorem Decode_props_stops_after_End file pos ps mid :
  canvasPropsAt (avail file pos) ps mid ->
  (8 <= length mid)%nat -> propId mid = propEnd ->
  exists pos',
    withFuel (fun fuel => Decode_props fuel None) file pos = Ok None pos'
    /\ avail file pos' = drop 8 mid.
Proof.
  intros Hps Hlen Hid.
  destruct (Decode_props_over _ _ _ Hps file pos None
              (S (length (avail file pos)) - length ps) eq_refl)
    as (p & Hmid & Hl & Hloop).
  unfold withFuel.
  replace (S (length (avail file pos)))
    with (length ps + (S (length (avail file pos)) - length ps))%nat by lia.
  rewrite Hloop.
  destruct (S (length (avail file pos)) - length ps)%nat as [|fuel] eqn:Ef;
    [lia|].
  cbn [Decode_props].
  rewrite (bind_Ok _ _ _ _ (propertyHeader.decode (take 8 mid)) (p + 8)%nat)
    by (unfold wrapErr; rewrite readPropertyHeader_enough, ?Hmid;
        [done|rewrite Hmid; lia]).
  unfold propId in Hid. rewrite Hid. simpl.
  exists (p + 8)%nat. split; [done|]. by rewrite avail_add, Hmid.
Qed.

(** Applies a constructor of [canvasPropsAt] at the bytes of the goal. *)
Ltac canvas_prop c :=
  match goal with |- canvasPropsAt ?bs _ _ => apply (c bs) end.

(** A colour map of two colours whose header gives the length 0, then the
    canvas properties of the small file. *)
Lemma Decode_props_stops_after_End_witness :
  exists pos',
    withFuel (fun fuel => Decode_props fuel None)
      (u32 propColormap ++ u32 0 ++ u32 2 ++ [x01; x02; x03; x04; x05; x06]
         ++ drop 26 (take 53 sample_xcf) ++ [xaa]) 0%nat
    = Ok None pos'
    /\ pos' = 45%nat.
Proof.
  destruct (Decode_props_stops_after_End
              (u32 propColormap ++ u32 0 ++ u32 2
                 ++ [x01; x02; x03; x04; x05; x06]
                 ++ drop 26 (take 53 sample_xcf) ++ [xaa]) 0
              [CColormap 2; CCompression; COther 19 2]
              (u32 propEnd ++ u32 0 ++ [xaa]))
    as (pos' & Hrun & Hrest).
  - canvas_prop cprops_Colormap; [vm_compute; lia|reflexivity|].
    canvas_prop cprops_Compression; [vm_compute; lia|reflexivity|reflexivity|].
    canvas_prop cprops_Other; [vm_compute; lia|done|done|done|].
    apply cprops_nil.
  - vm_compute. lia.
  - reflexivity.
  - exists pos'. split; [exact Hrun|].
    vm_compute in Hrun. by injection Hrun as <-.
Defined.

(** [Decode] from the canvas properties on, once the header is accepted. *)
Lemma Decode_after_header fuel file pos :
  (26 <= length (avail file pos))%nat ->
  let header := fileHeader.decode (take 26 (avail file pos)) in
  headerAccepted header ->
  Decode fuel file pos
  = bind (withFuel (fun fuel => Decode_props fuel None))
      (fun _ =>
         let* layerPointers := Decode_layerPointers fuel 0 [] in
         let* layers := Decode_layers layerPointers [] in
         ret {| Width := fileHeader.Width header;
                Height := fileHeader.Height header;
                Layers := layers |}) file (pos + 26)%nat.
Proof.
  intros H header (Hmagic & Hversion & Hcf). unfold Decode.
  rewrite (bind_Ok _ _ _ _ header (pos + 26)%nat)
    by (unfold wrapErr; by rewrite readFileHeader_enough).
  by rewrite Hmagic, Hversion, Hcf.
Qed.

(** The loop at the property that follows a run of well-formed ones. *)
Lemma Decode_props_then file pos ps mid :
  canvasPropsAt (avail file pos) ps mid ->
  exists p fuel,
    avail file p = mid
    /\ withFuel (fun fuel => Decode_props fuel None) file pos
       = Decode_props (S fuel) None file p.
Proof.
  intros Hps.
  destruct (Decode_props_over _ _ _ Hps file pos None
              (S (length (avail file pos)) - length ps) eq_refl)
    as (p & Hmid & Hl & Hloop).
  exists p, (length (avail file pos) - length ps)%nat. split; [done|].
  unfold withFuel.
  replace (S (length (avail file pos)))
    with (length ps + (S (length (avail file pos)) - length ps))%nat by lia.
  rewrite Hloop. f_equal. lia.
Qed.

(** X4.  A file whose Compression property names another compression than
    RLE is refused with "read XCF: unsupported compression:" and the byte
    found. *)
Theorem Decode_unsupported_compression fuel file pos ps mid :
  (26 <= length (avail file pos))%nat ->
  headerAccepted (fileHeader.decode (take 26 (avail file pos))) ->
  canvasPropsAt (avail file (pos + 26)) ps mid ->
  (9 <= length mid)%nat -> propId mid = propCompression ->
  u8 (at0 mid 8) <> rleCompression ->
  exists p,
    Decode fuel file pos
    = Err ("read XCF: unsupported compression: " +:+ fmtv (u8 (at0 mid 8))) p.
Proof.
  intros Hlen Hhdr Hps Hmid Hid Hc.
  rewrite Decode_after_header by done.
  destruct (Decode_props_then _ _ _ _ Hps) as (p & fuel' & E & Hloop).
  unfold bind at 1. rewrite Hloop. cbn [Decode_props].
  rewrite (bind_Ok _ _ _ _ (propertyHeader.decode (take 8 mid)) (p + 8)%nat)
    by (unfold wrapErr; rewrite readPropertyHeader_enough, ?E;
        [done|rewrite E; lia]).
  unfold propId in Hid. rewrite Hid. simpl.
  assert (avail file (p + 8) = drop 8 mid) as E8 by (by rewrite avail_add, E).
  assert (exists b l, drop 8 mid = b :: l /\ at0 mid 8 = b) as (b & l & Eb & Hb).
  { destruct (drop 8 mid) as [|b l] eqn:Ed.
    - apply (f_equal length) in Ed. rewrite length_drop in Ed. simpl in Ed. lia.
    - exists b, l. split; [done|]. unfold at0.
      rewrite <- (Nat.add_0_r 8), <- lookup_drop, Ed. done. }
  rewrite (bind_Ok _ _ _ _ [b] (p + 8 + 1)%nat).
  2:{ unfold wrapErr.
      rewrite (Read_prefix 1 file (p + 8) [b] l); [done| |done].
      by rewrite E8, Eb. }
  change (at0 (overlay [x00] 0 [b]) 0) with b. rewrite <- Hb.
  apply Z.eqb_neq in Hc. rewrite Hc. simpl. by eexists.
Qed.

(** The small file with zlib (2) for its compression. *)
Lemma Decode_unsupported_compression_witness :
  exists p,
    Decode 0 (take 34 sample_xcf ++ [x02] ++ drop 35 sample_xcf) 0
    = Err "read XCF: unsupported compression: 2" p.
Proof.
  apply (Decode_unsupported_compression 0
           (take 34 sample_xcf ++ [x02] ++ drop 35 sample_xcf) 0 []
           (drop 26 (take 34 sample_xcf ++ [x02] ++ drop 35 sample_xcf))).
  - vm_compute. lia.
  - repeat split.
  - apply cprops_nil.
  - vm_compute. lia.
  - reflexivity.
  - vm_compute. discriminate.
Defined.

(** X5.  A file that ends where the header of a canvas property is due,
    the properties before it being well formed, is refused with
    "read XCF: error reading property header:" and the end-of-file
    error. *)
Theorem Decode_props_cut_off fuel file pos ps mid :
  (26 <= length (avail file pos))%nat ->
  headerAccepted (fileHeader.decode (take 26 (avail file pos))) ->
  canvasPropsAt (avail file (pos + 26)) ps mid ->
  (length mid < 8)%nat ->
  exists p,
    Decode fuel file pos
    = Err ("read XCF: error reading property header: "
             +:+ match mid with [] => "EOF" | _ => "unexpected EOF" end) p.
Proof.
  intros Hlen Hhdr Hps Hmid.
  rewrite Decode_after_header by done.
  destruct (Decode_props_then _ _ _ _ Hps) as (p & fuel' & E & Hloop).
  unfold bind at 1. rewrite Hloop. cbn [Decode_props].
  unfold bind at 1, wrapErr, readPropertyHeader, bind, ReadFull.
  change (propertyHeader.size <=? 0) with false. cbv iota.
  change (Z.to_nat propertyHeader.size) with 8%nat.
  rewrite decide_False by (rewrite length_take, E; lia).
  rewrite take_ge by (rewrite E; lia). rewrite E.
  destruct mid; by eexists.
Qed.

(** The small file cut inside the End property of the canvas. *)
Lemma Decode_props_cut_off_witness :
  exists p,
    Decode 0 (take 50 sample_xcf) 0
    = Err "read XCF: error reading property header: unexpected EOF" p.
Proof.
  apply (Decode_props_cut_off 0 (take 50 sample_xcf) 0
           [CCompression; COther 19 2] (drop 45 (take 50 sample_xcf))).
  - vm_compute. lia.
  - repeat split.
  - canvas_prop cprops_Compression; [vm_compute; lia|reflexivity|reflexivity|].
    canvas_prop cprops_Other; [vm_compute; lia|done|done|done|].
    apply cprops_nil.
  - vm_compute. lia.
Defined.

(** ** The layer offset list and the layers *)

Lemma offsetListEnds_short bs : (length bs < 4)%nat -> offsetListEnds bs = false.
Proof.
  intros H. by destruct bs as [|b0 [|b1 [|b2 [|b3 rest]]]]; [..|simpl in H; lia].
Qed.

Lemma offsetListEnds_step bs :
  (4 <= length bs)%nat ->
  offsetListEnds bs
  = if be32 (take 4 bs) =? 0 then true else offsetListEnds (drop 4 bs).
Proof.
  intros H.
  by destruct bs as [|b0 [|b1 [|b2 [|b3 rest]]]]; [simpl in H; lia..|].
Qed.

(** The loop over the layer pointers on a list that has its zero entry. *)
Lemma Decode_layerPointers_ends fuel : forall ptr layerPointers file pos,
  offsetListEnds (avail file pos) = true ->
  (length (layerOffsetList (avail file pos)) < fuel)%nat ->
  Decode_layerPointers fuel ptr layerPointers file pos
  = Ok (layerPointers ++ layerOffsetList (avail file pos))
      (pos + 4 * S (length (layerOffsetList (avail file pos)))).
Proof.
  induction fuel as [|fuel IH]; intros ptr acc file pos Hends Hfuel; [lia|].
  cbn [Decode_layerPointers].
  destruct (le_lt_dec 4 (length (avail file pos))) as [Hlen|Hlen];
    [|by rewrite offsetListEnds_short in Hends].
  rewrite readUint32_enough by done.
  rewrite offsetListEnds_step in Hends by done.
  rewrite layerOffsetList_step in Hfuel |- * by done.
  destruct (be32 (take 4 (avail file pos)) =? 0).
  - rewrite app_nil_r. done.
  - cbn [length] in Hfuel. rewrite <- avail_add in Hends, Hfuel |- *.
    rewrite IH by (done || lia). cbn [length].
    rewrite <- app_assoc. f_equal. lia.
Qed.

(** The loop on a list that the end of the file cuts off. *)
Lemma Decode_layerPointers_cut fuel : forall ptr layerPointers file pos,
  offsetListEnds (avail file pos) = false ->
  ptr <> 0 \/ layerOffsetList (avail file pos) <> [] ->
  Decode_layerPointers fuel ptr layerPointers file pos = OutOfFuel.
Proof.
  induction fuel as [|fuel IH]; intros ptr acc file pos Hends Hne; [done|].
  cbn [Decode_layerPointers].
  destruct (le_lt_dec 4 (length (avail file pos))) as [Hlen|Hlen].
  - rewrite readUint32_enough by done.
    rewrite offsetListEnds_step in Hends by done.
    destruct (Z.eqb_spec (be32 (take 4 (avail file pos))) 0); [done|].
    apply IH; [by rewrite avail_add|by left].
  - rewrite layerOffsetList_short in Hne by done.
    destruct Hne as [Hptr|]; [|done].
    destruct (ReadFull_short 4 file pos ltac:(simpl; lia))
      as (e & p & Hread & Hav).
    unfold readUint32, bind. rewrite Hread.
    destruct (Z.eqb_spec ptr 0); [done|].
    by apply Decode_layerPointers_spins.
Qed.

(** The loop where the file ends before a first entry is read. *)
Lemma Decode_layerPointers_none fuel layerPointers file pos :
  offsetListEnds (avail file pos) = false ->
  layerOffsetList (avail file pos) = [] ->
  exists p, Decode_layerPointers (S fuel) 0 layerPointers file pos
            = Ok layerPointers p.
Proof.
  intros Hends Hnil. cbn [Decode_layerPointers].
  destruct (le_lt_dec 4 (length (avail file pos))) as [Hlen|Hlen].
  - rewrite offsetListEnds_step in Hends by done.
    rewrite layerOffsetList_step in Hnil by done.
    by destruct (be32 (take 4 (avail file pos)) =? 0).
  - destruct (ReadFull_short 4 file pos ltac:(simpl; lia))
      as (e & p & Hread & Hav).
    unfold readUint32, bind. rewrite Hread. by exists p.
Qed.

Lemma Decode_layers_all layerPointers : forall layers new file pos,
  Forall2 (fun ptr layer => exists p, loadLayer ptr file 0 = Ok layer p)
    layerPointers new ->
  exists p, Decode_layers layerPointers layers file pos = Ok (layers ++ new) p.
Proof.
  induction layerPointers as [|ptr rest IH]; intros layers new file pos Hall.
  - apply Forall2_nil_inv_l in Hall as ->. exists pos.
    by rewrite app_nil_r.
  - apply Forall2_cons_inv_l in Hall as (layer & new' & [p Hload] & Hall & ->).
    cbn [Decode_layers].
    rewrite (bind_Ok _ _ _ _ layer p)
      by (unfold wrapErr; by rewrite loadLayer_from_start, Hload).
    destruct (IH (layers ++ [layer]) new' file p Hall) as [p' ->].
    exists p'. by rewrite <- app_assoc.
Qed.

Lemma Decode_layers_error good : forall bad more layers file pos e p,
  Forall (fun ptr => exists layer p, loadLayer ptr file 0 = Ok layer p) good ->
  loadLayer bad file 0 = Err e p ->
  Decode_layers (good ++ bad :: more) layers file pos
  = Err ("read XCF: error reading layers: " +:+ e) p.
Proof.
  induction good as [|ptr good IH]; intros bad more layers file pos e p Hgood Hbad.
  - cbn [app Decode_layers]. unfold bind, wrapErr.
    by rewrite loadLayer_from_start, Hbad.
  - apply Forall_cons in Hgood as [(layer & p0 & Hload) Hgood].
    cbn [app Decode_layers].
    rewrite (bind_Ok _ _ _ _ layer p0)
      by (unfold wrapErr; by rewrite loadLayer_from_start, Hload).
    by apply IH.
Qed.

(** X6.  [Decode] returns the canvas with every layer of the layer offset
    list: when header and canvas properties are accepted, the list has its
    zero entry (or the file ends before a first entry), and each entry
    loads as a layer, the result is the canvas with the size of the header
    and these layers in the order of the list, and no error. *)
Theorem Decode_loads_every_layer fuel file pos p1 layers :
  offsetListAt file pos p1 ->
  offsetListEnds (avail file p1) = true
  \/ layerOffsetList (avail file p1) = [] ->
  Forall2 (fun ptr layer => exists p, loadLayer ptr file 0 = Ok layer p)
    (layerOffsetList (avail file p1)) layers ->
  (length layers < fuel)%nat ->
  exists p,
    Decode fuel file pos
    = Ok {| Width := fileHeader.Width
                       (fileHeader.decode (take 26 (avail file pos)));
            Height := fileHeader.Height
                        (fileHeader.decode (take 26 (avail file pos)));
            Layers := layers |} p.
Proof.
  intros (Hlen & Hhdr & finalErr & Hprops) Hends Hall Hfuel.
  rewrite Decode_after_header by done.
  rewrite (bind_Ok _ _ _ _ _ _ Hprops).
  assert (exists p2, Decode_layerPointers fuel 0 [] file p1
                     = Ok (layerOffsetList (avail file p1)) p2) as [p2 Hptrs].
  { destruct (offsetListEnds (avail file p1)) eqn:E.
    - eexists. rewrite Decode_layerPointers_ends; [done|done|].
      apply Forall2_length in Hall. lia.
    - destruct Hends as [|Hnil]; [done|].
      destruct fuel as [|fuel]; [lia|].
      destruct (Decode_layerPointers_none fuel [] file p1 E Hnil) as [p2 ->].
      exists p2. by rewrite Hnil. }
  rewrite (bind_Ok _ _ _ _ _ _ Hptrs).
  destruct (Decode_layers_all _ [] layers file p2 Hall) as [p3 Hlayers].
  rewrite (bind_Ok _ _ _ _ _ _ Hlayers). by exists p3.
Qed.

(** The theorem at the small file. *)
Lemma Decode_loads_every_layer_witness :
  exists layer1 layer2 p,
    Decode 3 sample_xcf 0
    = Ok {| Width := 2; Height := 1; Layers := [layer1; layer2] |} p
    /\ Name layer1 = "bg" /\ Name layer2 = "".
Proof.
  assert (exists layer1 q1, loadLayer 65 sample_xcf 0 = Ok layer1 q1)
    as (layer1 & q1 & E1) by (vm_compute; eexists _, _; reflexivity).
  assert (exists layer2 q2, loadLayer 185 sample_xcf 0 = Ok layer2 q2)
    as (layer2 & q2 & E2) by (vm_compute; eexists _, _; reflexivity).
  destruct (Decode_loads_every_layer 3 sample_xcf 0 53 [layer1; layer2])
    as [p Hp].
  - split; [vm_compute; lia|]. split; [repeat split|].
    exists None. vm_compute. reflexivity.
  - left. vm_compute. reflexivity.
  - change (layerOffsetList (avail sample_xcf 53)) with [65; 185].
    constructor; [by exists q1|]. constructor; [by exists q2|]. constructor.
  - simpl. lia.
  - exists layer1, layer2, p. split; [exact Hp|].
    vm_compute in E1. injection E1 as <- _.
    vm_compute in E2. injection E2 as <- _. split; reflexivity.
Defined.

(** X7.  A layer that fails to load stops [Decode]: the layers before it
    are dropped, the entries after it are not looked at, and the result is
    the error of that layer behind "read XCF: error reading layers: ". *)
Theorem Decode_stops_at_failing_layer
    fuel file pos p1 good bad more e p :
  offsetListAt file pos p1 ->
  offsetListEnds (avail file p1) = true ->
  layerOffsetList (avail file p1) = good ++ bad :: more ->
  Forall (fun ptr => exists layer p, loadLayer ptr file 0 = Ok layer p) good ->
  loadLayer bad file 0 = Err e p ->
  (length (good ++ bad :: more) < fuel)%nat ->
  Decode fuel file pos = Err ("read XCF: error reading layers: " +:+ e) p.
Proof.
  intros (Hlen & Hhdr & finalErr & Hprops) Hends Hlist Hgood Hbad Hfuel.
  rewrite Decode_after_header by done.
  rewrite (bind_Ok _ _ _ _ _ _ Hprops).
  rewrite (bind_Ok _ _ _ _ _ _
             (Decode_layerPointers_ends fuel 0 [] file p1 Hends
                ltac:(by rewrite Hlist))).
  cbn [app]. rewrite Hlist. unfold bind at 1.
  by rewrite (Decode_layers_error good bad more [] file _ e p).
Qed.

(** The small file with the colour format of its second layer changed to
    grayscale. *)
Lemma Decode_stops_at_failing_layer_witness :
  Decode 3 (take 196 sample_xcf ++ [x02] ++ drop 197 sample_xcf) 0
  = Err ("read XCF: error reading layers: "
           +:+ "unsupported layer color format, must be RGB: 2") 197.
Proof.
  apply (Decode_stops_at_failing_layer 3
           (take 196 sample_xcf ++ [x02] ++ drop 197 sample_xcf) 0 53
           [65] 185 []).
  - split; [vm_compute; lia|]. split; [repeat split|].
    exists None. vm_compute. reflexivity.
  - vm_compute. reflexivity.
  - vm_compute. reflexivity.
  - constructor; [|constructor]. vm_compute. eexists _, _. reflexivity.
  - vm_compute. reflexivity.
  - simpl. lia.
Defined.

Lemma Decode_OutOfFuel_header fuel file pos :
  Decode fuel file pos = OutOfFuel ->
  (26 <= length (avail file pos))%nat
  /\ headerAccepted (fileHeader.decode (take 26 (avail file pos))).
Proof.
  intros H. destruct (le_lt_dec 26 (length (avail file pos))) as [Hlen|Hlen].
  - split; [done|]. unfold Decode in H.
    rewrite (bind_Ok _ _ _ _ (fileHeader.decode (take 26 (avail file pos)))
               (pos + 26)%nat) in H
      by (unfold wrapErr; by rewrite readFileHeader_enough).
    destruct (String.eqb_spec
                (gostring (fileHeader.MagicID
                             (fileHeader.decode (take 26 (avail file pos)))))
                "gimp xcf "); [|done].
    destruct (String.eqb_spec
                (gostring (fileHeader.Version
                             (fileHeader.decode (take 26 (avail file pos)))))
                "file"); [|done].
    destruct (Z.eqb_spec
                (fileHeader.ColorFormat
                   (fileHeader.decode (take 26 (avail file pos)))) rgb);
      [|done].
    done.
  - destruct (ReadFull_short 26 file pos ltac:(simpl; lia))
      as (e & p & Hread & _).
    unfold Decode, bind, wrapErr, readFileHeader, bind in H.
    change fileHeader.size with 26 in H. by rewrite Hread in H.
Qed.

(** X8.  [Decode] runs for ever on exactly these files: header and canvas
    properties are accepted, and the layer offset list has at least one
    entry and no zero entry before the file ends.  On every other file it
    returns a canvas or an error, or panics. *)
Theorem Decode_never_returns_iff file pos :
  (forall fuel, Decode fuel file pos = OutOfFuel)
  <-> exists p1,
        offsetListAt file pos p1
        /\ offsetListEnds (avail file p1) = false
        /\ layerOffsetList (avail file p1) <> [].
Proof.
  split.
  - intros H.
    destruct (Decode_OutOfFuel_header 0 file pos (H 0%nat)) as [Hlen Hhdr].
    destruct (Decode_OutOfFuel 0 file pos (H 0%nat))
      as (finalErr & p1 & Hprops & _).
    exists p1. split; [split; [done|split; [done|by exists finalErr]]|].
    assert (forall fuel, Decode_layerPointers fuel 0 [] file p1 = OutOfFuel)
      as Hptrs.
    { intros fuel. destruct (Decode_OutOfFuel fuel file pos (H fuel))
        as (finalErr' & p1' & Hprops' & Hspin).
      rewrite Hprops in Hprops'. by injection Hprops' as _ <-. }
    destruct (offsetListEnds (avail file p1)) eqn:Hends.
    + specialize (Hptrs (S (length (layerOffsetList (avail file p1))))).
      rewrite Decode_layerPointers_ends in Hptrs by (done || lia). done.
    + split; [done|]. intros Hnil.
      destruct (Decode_layerPointers_none 0 [] file p1 Hends Hnil) as [p Hp].
      by rewrite Hptrs in Hp.
  - intros (p1 & (Hlen & Hhdr & finalErr & Hprops) & Hends & Hne) fuel.
    rewrite Decode_after_header by done.
    rewrite (bind_Ok _ _ _ _ _ _ Hprops). unfold bind.
    rewrite Decode_layerPointers_cut; [done|done|by right].
Qed.

(** ** The errors and the result of [loadLayer] *)

Lemma readLayerHeader_enough file pos :
  (12 <= length (avail file pos))%nat ->
  readLayerHeader file pos
  = Ok (layerHeader.decode (take 12 (avail file pos))) (pos + 12).
Proof.
  intros H. unfold readLayerHeader.
  by rewrite (bind_Ok _ _ _ _ _ _ (ReadFull_enough 12 file pos H)).
Qed.

(** X9.  A layer pointer after which the file has fewer than the 12 bytes
    of a layer header, one that points behind the end of the file among
    them, makes [loadLayer] fail with the end-of-file error of the read:
    "EOF" when no byte is there, "unexpected EOF" otherwise. *)
Theorem loadLayer_pointer_out_of_file offset file pos :
  (length (avail file (Z.to_nat offset)) < 12)%nat ->
  loadLayer offset file pos
  = Err match avail file (Z.to_nat offset) with
        | [] => "EOF"
        | _ => "unexpected EOF"
        end
      (Z.to_nat offset + length (avail file (Z.to_nat offset))).
Proof.
  intros H. unfold loadLayer, bind, Seek, readLayerHeader, bind, ReadFull.
  change (layerHeader.size <=? 0) with false. cbv iota.
  change (Z.to_nat layerHeader.size) with 12%nat.
  rewrite decide_False by (rewrite length_take; lia).
  rewrite take_ge by lia.
  destruct (avail file (Z.to_nat offset)); [|done].
  simpl. by rewrite Nat.add_0_r.
Qed.

Lemma loadLayer_pointer_out_of_file_witness :
  loadLayer 1000 sample_xcf 0 = Err "EOF" 1000.
Proof.
  apply (loadLayer_pointer_out_of_file 1000 sample_xcf 0). vm_compute. lia.
Defined.

(** X10.  A layer whose colour format is neither RGB with alpha nor RGB
    without is refused right after its header, with "unsupported layer
    color format, must be RGB:" and the number of the format. *)
Theorem loadLayer_unsupported_color_format offset file pos :
  (12 <= length (avail file (Z.to_nat offset)))%nat ->
  let header := layerHeader.decode (take 12 (avail file (Z.to_nat offset))) in
  layerHeader.ColorFormat header <> rgbAlpha ->
  layerHeader.ColorFormat header <> rgbNoAlpha ->
  loadLayer offset file pos
  = Err ("unsupported layer color format, must be RGB: "
           +:+ fmtv (layerHeader.ColorFormat header))
      (Z.to_nat offset + 12).
Proof.
  intros H header H1 H0. unfold loadLayer.
  rewrite (bind_Ok _ _ _ _ tt (Z.to_nat offset)) by done.
  rewrite (bind_Ok _ _ _ _ _ _ (readLayerHeader_enough _ _ H)).
  fold header. apply Z.eqb_neq in H1, H0. by rewrite H1, H0.
Qed.

(** The first layer of the small file with the format indexed with alpha
    (5). *)
Lemma loadLayer_unsupported_color_format_witness :
  loadLayer 65 (take 76 sample_xcf ++ [x05] ++ drop 77 sample_xcf) 0
  = Err "unsupported layer color format, must be RGB: 5" 77.
Proof.
  apply (loadLayer_unsupported_color_format 65
           (take 76 sample_xcf ++ [x05] ++ drop 77 sample_xcf) 0);
    [vm_compute; lia|vm_compute; discriminate|vm_compute; discriminate].
Defined.

Lemma readImageData_from_start lh layerX layerY offset file pos :
  readImageData lh layerX layerY offset file pos
  = readImageData lh layerX layerY offset file 0%nat.
Proof. done. Qed.

(** X11.  [loadLayer] on a well-formed layer: the 12 bytes of the header
    with an RGB format, the name, a property sequence with its End
    property, and the pointers to the pixels and to the mask.  The layer
    has the name read, visibility and opacity from the properties, and the
    image read at the pixel pointer with the size of the header and the
    position from the properties.  The mask pointer plays no part. *)
Theorem loadLayer_reads_layout offset file pos name p1 ps rest img p' :
  (12 <= length (avail file (Z.to_nat offset)))%nat ->
  let header := layerHeader.decode (take 12 (avail file (Z.to_nat offset))) in
  let props :=
    propsResult {| lpVisible := true; lpOpacity := x00; lpX := 0; lpY := 0 |}
      ps in
  layerHeader.ColorFormat header = rgbAlpha
  \/ layerHeader.ColorFormat header = rgbNoAlpha ->
  readString file (Z.to_nat offset + 12) = Ok name p1 ->
  propsAt (avail file p1) ps rest ->
  (8 <= length rest)%nat ->
  readImageData header (lpX props) (lpY props) (be32 (take 4 rest)) file 0%nat
  = Ok img p' ->
  loadLayer offset file pos
  = Ok {| Image := img; Name := name;
          Visible := lpVisible props; Opacity := lpOpacity props |} p'.
Proof.
  intros H header props Hcf Hname Hps Hrest Himg. unfold loadLayer.
  rewrite (bind_Ok _ _ _ _ tt (Z.to_nat offset)) by done.
  rewrite (bind_Ok _ _ _ _ _ _ (readLayerHeader_enough _ _ H)).
  fold header.
  assert (negb ((layerHeader.ColorFormat header =? rgbAlpha)
                || (layerHeader.ColorFormat header =? rgbNoAlpha)) = false)
    as -> by (by destruct Hcf as [-> | ->]).
  rewrite (bind_Ok _ _ _ _ _ _ Hname).
  destruct (loadLayer_props_ok _ _ _ Hps file p1
              {| lpVisible := true; lpOpacity := x00; lpX := 0; lpY := 0 |}
              (S (length (avail file p1))) eq_refl ltac:(lia))
    as (p2 & Hloop & Hav).
  rewrite (bind_Ok _ _ _ _ props p2) by done.
  rewrite (bind_Ok _ _ _ _ _ _
             (readUint32_enough file p2 ltac:(rewrite Hav; lia))).
  rewrite (bind_Ok _ _ _ _ _ _
             (readUint32_enough file (p2 + 4)
                ltac:(rewrite avail_add, Hav, length_drop; lia))).
  rewrite Hav.
  by rewrite (bind_Ok _ _ _ _ img p')
    by (by rewrite readImageData_from_start).
Qed.

(** The theorem at the first layer of the small file. *)
Lemma loadLayer_reads_layout_witness :
  exists img p',
    loadLayer 65 sample_xcf 0
    = Ok {| Image := img; Name := "bg"; Visible := false; Opacity := xff |} p'
    /\ Pix img = [x01; x03; x05; x07; x02; x04; x06; x08].
Proof.
  assert (exists img p',
            readImageData (layerHeader.decode (take 12 (avail sample_xcf 65)))
              1 (-1) 140 sample_xcf 0%nat = Ok img p'
            /\ Pix img = [x01; x03; x05; x07; x02; x04; x06; x08])
    as (img & p' & Himg & Hpix)
    by (vm_compute; eexists _, _; split; reflexivity).
  exists img, p'. split; [|exact Hpix].
  apply (loadLayer_reads_layout 65 sample_xcf 0 "bg" 84
           [PVisible 0; POpacity 511; POffsets 1 (-1)]
           (drop 132 sample_xcf) img p').
  - vm_compute. lia.
  - left. reflexivity.
  - vm_compute. reflexivity.
  - apply props_Visible; [vm_compute; lia|reflexivity|].
    apply props_Opacity; [vm_compute; lia|reflexivity|].
    apply props_Offsets; [vm_compute; lia|reflexivity|].
    apply props_End; [vm_compute; lia|reflexivity].
  - vm_compute. lia.
  - exact Himg.
Defined.

(** ** The size of the image of a layer *)

Lemma forP_inv {St} (P : St -> Prop) (body : Z -> St -> panic + St) :
  (forall i s s', P s -> body i s = inr s' -> P s') ->
  forall n i s s', P s -> forP n i body s = inr s' -> P s'.
Proof.
  intros Hbody. induction n as [|n IH]; intros i s s' Hs H; cbn [forP] in H.
  - by injection H as <-.
  - destruct (body i s) as [|s1] eqn:E; [done|].
    eapply IH; [|exact H]. by eapply Hbody.
Qed.

Lemma forM_inv {St} (P : St -> Prop) (body : Z -> St -> M St) file :
  (forall i s pos s' pos', P s -> body i s file pos = Ok s' pos' -> P s') ->
  forall n i s pos s' pos',
    P s -> forM n i body s file pos = Ok s' pos' -> P s'.
Proof.
  intros Hbody. induction n as [|n IH]; intros i s pos s' pos' Hs H;
    cbn [forM] in H.
  - by injection H as <- _.
  - apply bind_Ok_inv in H as (s1 & p1 & H1 & H).
    eapply IH; [|exact H]. by eapply Hbody.
Qed.

Lemma storeLine_length pix base i v pix' :
  storeLine pix base i v = inr pix' -> length pix' = length pix.
Proof.
  unfold storeLine. destruct (_ && _); [|done].
  intros [= <-]. apply length_insert.
Qed.

(** Whatever the planes hold, a pixel that is written leaves the length of
    the pixel buffer as it is. *)
Lemma putPixel_length cf data base x st st' :
  putPixel cf data base x st = inr st' -> length (fst st') = length (fst st).
Proof.
  destruct st as [pix di]. unfold putPixel.
  destruct (cf =? rgbAlpha); [|destruct (cf =? rgbNoAlpha)];
    [| |by intros [= <-]];
    intros H;
    repeat match type of H with
      | bindP ?x _ = inr _ =>
          let E := fresh "E" in
          destruct x eqn:E; [done|]; cbn [bindP] in H;
          try apply storeLine_length in E
      end;
    injection H as <-; cbn [fst]; congruence.
Qed.

Lemma scatterTile_length cf stride data left top w h pix pix' :
  scatterTile cf stride data left top w h pix = inr pix' ->
  length pix' = length pix.
Proof.
  unfold scatterTile. intros H.
  destruct (forP (Z.to_nat h) top _ (pix, 0)) as [|st] eqn:E; [done|].
  cbn [bindP] in H. injection H as <-.
  apply (forP_inv (fun st => length (fst st) = length pix)) in E; [done| |done].
  intros y s s' Hs Hrow.
  destruct (lineFrom (fst s) (stride * y)); [done|]. cbn [bindP] in Hrow.
  apply (forP_inv (fun st => length (fst st) = length pix)) in Hrow;
    [done| |done].
  intros x s1 s2 Hs1 Hpx. apply putPixel_length in Hpx. congruence.
Qed.

Lemma readTile_length lh bytesPerPixel stride tileY tileX st file pos st' pos' :
  readTile lh bytesPerPixel stride tileY tileX st file pos = Ok st' pos' ->
  length (snd st') = length (snd st).
Proof.
  destruct st as [buffer pix]. unfold readTile. intros H.
  apply bind_Ok_inv in H as ([] & p0 & _ & H).
  apply bind_Ok_inv in H as (data & p1 & _ & H).
  apply bind_Ok_inv in H as (pix' & p2 & Hpix & H).
  apply lift_Ok_inv in Hpix as [Hpix _]. injection H as <- _.
  by apply scatterTile_length in Hpix.
Qed.

(** The image [readImageData] returns has the bounds of the layer, four
    bytes for each pixel of a row in its stride, and a buffer of
    [4 * Width * Height] bytes. *)
Lemma readImageData_shape lh layerX layerY offset file pos img pos' :
  0 <= layerHeader.Width lh -> 0 <= layerHeader.Height lh ->
  readImageData lh layerX layerY offset file pos = Ok img pos' ->
  Rect img = imageRect layerX layerY (layerX + layerHeader.Width lh)
               (layerY + layerHeader.Height lh)
  /\ Stride img = 4 * layerHeader.Width lh
  /\ Z.of_nat (length (Pix img))
     = 4 * layerHeader.Width lh * layerHeader.Height lh.
Proof.
  intros HW HH H. unfold readImageData in H.
  do 7 (apply bind_Ok_inv in H as (? & ? & _ & H)).
  apply bind_Ok_inv in H as (rgba & p & Hnew & H).
  apply bind_Ok_inv in H as (st & p' & Hloop & H).
  apply lift_Ok_inv in Hnew as [Hnew _].
  apply (NewRGBA_layer _ _ _ _ _ HW HH) in Hnew as (HRect & HStride & HPix).
  injection H as <- _. cbn [Rect Stride Pix].
  split; [done|]. split; [done|]. rewrite <- HPix. f_equal.
  apply (forM_inv (fun st => length (snd st) = length (Pix rgba))) in Hloop;
    [done| |done].
  intros tileY s q s' q' Hs Hrow.
  apply (forM_inv (fun st => length (snd st) = length (Pix rgba))) in Hrow;
    [done| |done].
  intros tileX s1 q1 s2 q2 Hs1 Htile.
  apply readTile_length in Htile. congruence.
Qed.

(** X12.  The image of a loaded layer has the width and the height of the
    layer header.  Its stride is four bytes per pixel of a row, and its
    pixel buffer has four bytes for each of the Width x Height pixels,
    whatever the tiles held. *)
Theorem loadLayer_image_size offset file pos layer pos' :
  loadLayer offset file pos = Ok layer pos' ->
  let header := layerHeader.decode (take 12 (avail file (Z.to_nat offset))) in
  Dx (Rect (Image layer)) = layerHeader.Width header
  /\ Dy (Rect (Image layer)) = layerHeader.Height header
  /\ Stride (Image layer) = 4 * layerHeader.Width header
  /\ Z.of_nat (length (Pix (Image layer)))
     = 4 * layerHeader.Width header * layerHeader.Height header.
Proof.
  intros Hload header. unfold loadLayer in Hload.
  apply bind_Ok_inv in Hload as ([] & p0 & Hseek & Hload).
  unfold Seek in Hseek. injection Hseek as <-.
  apply bind_Ok_inv in Hload as (header' & p & Hhdr & Hload).
  unfold readLayerHeader in Hhdr.
  apply bind_Ok_inv in Hhdr as (bs & p' & Hbs & Hret).
  apply ReadFull_Ok_inv in Hbs as (-> & _ & ->).
  unfold ret in Hret. injection Hret as <- <-.
  change (Z.to_nat layerHeader.size) with 12%nat in Hload. fold header in Hload.
  destruct (negb _); [done|].
  apply bind_Ok_inv in Hload as (name & p1 & _ & Hload).
  apply bind_Ok_inv in Hload as (props & p2 & _ & Hload).
  do 2 (apply bind_Ok_inv in Hload as (? & ? & _ & Hload)).
  apply bind_Ok_inv in Hload as (img & p5 & Himg & Hret).
  unfold ret in Hret. injection Hret as <- _. cbn [Image].
  assert (0 <= layerHeader.Width header < 2 ^ 32) as HW
    by apply be32_range.
  assert (0 <= layerHeader.Height header < 2 ^ 32) as HH
    by apply be32_range.
  apply readImageData_shape in Himg as (HRect & HStride & HPix); [|lia|lia].
  rewrite HRect. unfold imageRect, Dx, Dy.
  destruct (Z.ltb_spec (lpX props + layerHeader.Width header) (lpX props));
    [lia|].
  destruct (Z.ltb_spec (lpY props + layerHeader.Height header) (lpY props));
    [lia|].
  cbn [MinX MinY MaxX MaxY]. repeat split; [lia|lia|done|done].
Qed.

(** The theorem at the first layer of the small file: 2 x 1 pixels. *)
Lemma loadLayer_image_size_witness :
  exists layer pos',
    loadLayer 65 sample_xcf 0 = Ok layer pos'
    /\ Dx (Rect (Image layer)) = 2 /\ Dy (Rect (Image layer)) = 1
    /\ length (Pix (Image layer)) = 8%nat.
Proof.
  assert (exists layer pos', loadLayer 65 sample_xcf 0 = Ok layer pos')
    as (layer & pos' & E) by (vm_compute; eexists _, _; reflexivity).
  exists layer, pos'. split; [exact E|].
  destruct (loadLayer_image_size 65 sample_xcf 0 layer pos' E)
    as (HDx & HDy & _ & HPix).
  rewrite HDx, HDy. split; [reflexivity|]. split; [reflexivity|].
  change (layerHeader.Width _) with 2 in HPix.
  change (layerHeader.Height _) with 1 in HPix. lia.
Defined.

(** ** [readString] at the end of the file *)

(** X13.  [readString] where the file ends early.  With fewer than four
    bytes for the length field it fails with "reading string length:" and
    the end-of-file error.  With a length field of n >= 1 and no byte
    behind it, it fails with "reading string: EOF".  With some bytes
    behind it, but fewer than n, it does not fail: it returns these bytes
    followed by zero bytes, n-1 bytes in all, and the cursor stops at the
    end of the file. *)
Theorem readString_cut_off file pos :
  ((length (avail file pos) < 4)%nat ->
   readString file pos
   = Err ("reading string length: "
            +:+ match avail file pos with
                | [] => "EOF"
                | _ => "unexpected EOF"
                end)
       (pos + length (avail file pos)))
  /\ (forall field payload,
        avail file pos = field ++ payload -> length field = 4%nat ->
        Z.of_nat (length payload) < be32 field ->
        readString file pos
        = match payload with
          | [] => Err "reading string: EOF" (pos + 4)
          | _ =>
              Ok (gostring
                    (payload
                       ++ replicate
                            (Z.to_nat (be32 field) - 1 - length payload) x00))
                (pos + 4 + length payload)
          end).
Proof.
  split.
  - intros H. unfold readString, bind, wrapErr, readUint32, bind, ReadFull.
    change (4 <=? 0) with false. cbv iota. change (Z.to_nat 4) with 4%nat.
    rewrite decide_False by (rewrite length_take; lia).
    rewrite take_ge by lia.
    destruct (avail file pos); [|done]. simpl. by rewrite Nat.add_0_r.
  - intros field payload E Hfield Hshort.
    assert (readUint32 file pos = Ok (be32 field) (pos + 4)) as Hlen.
    { unfold readUint32.
      rewrite (bind_Ok _ _ _ _ field (pos + 4)%nat); [done|].
      rewrite <- Hfield.
      apply (ReadFull_prefix 4 _ _ _ payload); [done|lia]. }
    unfold readString.
    rewrite (bind_Ok _ _ _ _ (be32 field) (pos + 4)%nat)
      by (unfold wrapErr; by rewrite Hlen).
    destruct (Z.eqb_spec (be32 field) 0); [lia|].
    assert (avail file (pos + 4) = payload) as E'.
    { rewrite <- Hfield. by apply avail_prefix. }
    unfold bind, wrapErr, Read.
    destruct (Z.leb_spec (be32 field) 0); [lia|].
    rewrite E', take_ge by lia.
    destruct payload as [|b payload]; [done|].
    unfold ret. do 2 f_equal.
    rewrite overlay_at_0 by (rewrite length_replicate; lia).
    rewrite drop_replicate, take_app_ge by lia.
    rewrite take_replicate. do 2 f_equal. lia.
Qed.

(** A length field of 5 and the two bytes of "bg" before the file ends:
    the string is "bg" and two zero bytes. *)
Lemma readString_cut_off_witness :
  readString [x00; x00; x00; x05; x62; x67] 0
  = Ok (gostring [x62; x67; x00; x00]) 6.
Proof.
  apply (proj2 (readString_cut_off [x00; x00; x00; x05; x62; x67] 0)
           [x00; x00; x00; x05] [x62; x67]);
    [reflexivity|reflexivity|vm_compute; reflexivity].
Defined.

(** ** [decodeRLE] and the cursor *)

(** X14.  Where the stream ends with the destination not yet full,
    [decodeRLE] fails with [io.EOF] when the end comes at a control byte,
    and also when it comes right behind the control byte of a run of
    identical bytes or of a long run of literal bytes (0..128), whose
    operands are then missing. *)
Theorem decodeRLE_stream_ends_early rs dest file pos :
  Forall run_wf rs ->
  Z.of_nat (length (expand_runs rs)) < len dest <= cap dest ->
  (avail file pos = encode_runs rs ->
   decodeRLE dest file pos = Err "EOF" (pos + length (encode_runs rs)))
  /\ (forall op, u8 op <= 128 ->
        avail file pos = encode_runs rs ++ [op] ->
        decodeRLE dest file pos
        = Err "EOF" (pos + length (encode_runs rs) + 1)).
Proof.
  intros Hwf Hlen. split; [intros E; by apply decodeRLE_ends_at_control_byte|].
  intros op Hop E. destruct dest as [a n]. unfold cap in Hlen. simpl in Hlen.
  unfold decodeRLE, withFuel.
  pose proof (encode_runs_length rs) as Hrs.
  destruct (decodeRLE_loop_runs rs (S (length (avail file pos)))
              [x00; x00; x00; x00] a n 0 file pos [op])
    as (fuel' & buffer' & pos' & -> & Hb & Hfuel & Hpos);
    [done|done|done|lia|lia|lia|rewrite E, length_app; simpl; lia|].
  rewrite Hpos by lia. clear Hpos pos'.
  rewrite E, length_app in Hfuel. simpl in Hfuel.
  destruct fuel' as [|fuel]; [lia|].
  cbn [decodeRLE_loop]. cbn [len].
  destruct (Z.ltb_spec (0 + Z.of_nat (length (expand_runs rs))) n); [|lia].
  pose proof (avail_prefix _ _ _ _ E) as E1.
  rewrite (bind_Ok _ _ _ _ [op] (pos + length (encode_runs rs) + 1)%nat)
    by (apply (Read_prefix 1 _ _ [op] []); [by rewrite app_nil_r|done]).
  destruct (buffer_overlay_0 buffer' op Hb) as [-> _].
  assert (avail file (pos + length (encode_runs rs) + 1) = []) as Hend.
  { rewrite avail_add, E1. done. }
  assert (forall k, 0 < k ->
            Read k file (pos + length (encode_runs rs) + 1)%nat
            = Err "EOF" (pos + length (encode_runs rs) + 1)) as Hread.
  { intros k Hk. unfold Read. destruct (Z.leb_spec k 0); [lia|].
    by rewrite Hend, take_nil. }
  destruct (Z.leb_spec (u8 op) 126).
  { unfold bind. by rewrite Hread. }
  destruct (Z.eqb_spec (u8 op) 127).
  { unfold bind. by rewrite Hread. }
  destruct (Z.eqb_spec (u8 op) 128); [|lia].
  unfold bind. by rewrite Hread.
Qed.

(** A destination of four bytes and the stream 00 07 7F: one byte 07, then
    the control byte of a long run whose count and value are missing. *)
Lemma decodeRLE_stream_ends_early_witness :
  decodeRLE (make 4) [x00; x07; x7f] 0 = Err "EOF" 3.
Proof.
  apply (proj2 (decodeRLE_stream_ends_early [ShortFill x00 x07] (make 4)
                  [x00; x07; x7f] 0
                  ltac:(repeat constructor; vm_compute; congruence)
                  ltac:(split; vm_compute; congruence)) x7f);
    [vm_compute; congruence|reflexivity].
Defined.

(** The turn of the loop for a run that fills the destination up to its
    end: the loop returns with the cursor behind the run. *)
Lemma decodeRLE_loop_last fuel buffer a n next file pos r rest :
  run_wf r -> avail file pos = encode_run r ++ rest ->
  length buffer = 4%nat ->
  0 <= next < n -> next + Z.of_nat (length (expand_run r)) = n ->
  n <= Z.of_nat (length a) ->
  decodeRLE_loop (S fuel) buffer {| arr := a; len := n |} next file pos
  = Ok {| arr := overlay a next (expand_run r); len := n |}
      (pos + length (encode_run r)).
Proof.
  intros Hr E Hbuf Hnext Hfit Hcap.
  destruct r as [op value|hi lo value|hi lo bytes|op bytes];
    simpl in Hr, Hfit, E.
  - rewrite length_replicate in Hfit.
    destruct (step_ShortFill fuel buffer {| arr := a; len := n |} next file
                pos op value rest) as (buffer1 & Hb1 & ->);
      [simpl; lia|done|done|done|].
    rewrite fillRun_fits by lia. cbn [fst snd].
    by rewrite decodeRLE_loop_done by (simpl; lia).
  - rewrite length_replicate in Hfit. pose proof (count16_range hi lo) as Hc.
    destruct (step_LongFill fuel buffer {| arr := a; len := n |} next file
                pos x7f hi lo value rest) as (buffer1 & Hb1 & ->);
      [simpl; lia|done|done|done|].
    rewrite fillRun_fits by lia. cbn [fst snd].
    by rewrite decodeRLE_loop_done by (simpl; lia).
  - destruct (step_LongCopy fuel buffer {| arr := a; len := n |} next file
                pos x80 hi lo (bytes ++ rest)) as (buffer1 & Hb1 & ->);
      [simpl; lia|done|done|done|].
    pose proof (avail_prefix _ _ [x80; hi; lo] _ E) as E3. simpl in E3.
    assert (next + count16 hi lo <= cap {| arr := a; len := n |}) as Hc
      by (unfold cap; simpl; lia).
    rewrite (bind_Ok _ _ _ _ _ _ (copyRun_fits _ _ _ _ _ _ _ E3 Hr Hc)).
    cbn [fst snd]. rewrite decodeRLE_loop_done by (simpl; lia).
    simpl. f_equal. lia.
  - destruct Hr as [Hop Hr].
    destruct (step_ShortCopy fuel buffer {| arr := a; len := n |} next file
                pos op (bytes ++ rest)) as (buffer1 & Hb1 & ->);
      [simpl; lia|done|done|done|].
    pose proof (avail_prefix _ _ [op] _ E) as E1. simpl in E1.
    assert (next + (256 - u8 op) <= cap {| arr := a; len := n |}) as Hc
      by (unfold cap; simpl; lia).
    rewrite (bind_Ok _ _ _ _ _ _ (copyRun_fits _ _ _ _ _ _ _ E1 Hr Hc)).
    cbn [fst snd]. rewrite decodeRLE_loop_done by (simpl; lia).
    simpl. f_equal. lia.
Qed.

Lemma expand_runs_app rs1 rs2 :
  expand_runs (rs1 ++ rs2) = expand_runs rs1 ++ expand_runs rs2.
Proof. unfold expand_runs. by rewrite map_app, concat_app. Qed.

Lemma encode_runs_app rs1 rs2 :
  encode_runs (rs1 ++ rs2) = encode_runs rs1 ++ encode_runs rs2.
Proof. unfold encode_runs. by rewrite map_app, concat_app. Qed.

Lemma expand_runs_one r : expand_runs [r] = expand_run r.
Proof. unfold expand_runs. simpl. apply app_nil_r. Qed.

Lemma encode_runs_one r : encode_runs [r] = encode_run r.
Proof. unfold encode_runs. simpl. apply app_nil_r. Qed.

(** [decodeRLE] on runs that fill the destination: the result, and the
    cursor behind the last run. *)
Lemma decodeRLE_runsFill rs dest file pos rest :
  runsFill (len dest) rs ->
  avail file pos = encode_runs rs ++ rest ->
  len dest <= cap dest ->
  decodeRLE dest file pos
  = Ok {| arr := expand_runs rs ++ drop (length (expand_runs rs)) (arr dest);
          len := len dest |}
      (pos + length (encode_runs rs)).
Proof.
  destruct dest as [a n]. unfold cap. cbn [arr len].
  intros (Hwf & Hlen & rs0 & r & -> & Hlt) E Hcap.
  apply Forall_app in Hwf as [Hwf0 Hr]. apply Forall_cons in Hr as [Hr _].
  rewrite expand_runs_app, expand_runs_one, length_app in Hlen.
  rewrite encode_runs_app, encode_runs_one, <- app_assoc in E.
  pose proof (encode_runs_length rs0) as Hrs.
  pose proof (encode_run_length r) as Hr1.
  unfold decodeRLE, withFuel.
  destruct (decodeRLE_loop_runs rs0 (S (length (avail file pos)))
              [x00; x00; x00; x00] a n 0 file pos (encode_run r ++ rest))
    as (fuel' & buffer' & pos' & -> & Hb & Hfuel & Hpos);
    [done|done|done|lia|lia|lia|rewrite E, !length_app; lia|].
  rewrite Hpos by lia. clear Hpos pos'.
  rewrite E, !length_app in Hfuel.
  destruct fuel' as [|fuel]; [lia|].
  rewrite (decodeRLE_loop_last _ _ _ _ _ _ _ r rest);
    [|done|by apply avail_prefix|done|lia|lia|rewrite length_overlay; lia].
  rewrite overlay_overlay by lia.
  rewrite overlay_at_0 by (rewrite length_app; lia).
  rewrite expand_runs_app, encode_runs_app, expand_runs_one, encode_runs_one.
  rewrite !length_app. f_equal. lia.
Qed.

(** X15.  [decodeRLE] reads the runs it needs and no more: on runs that
    fill the destination exactly, the last of them being needed, the
    destination holds their expansions and the cursor stops right behind
    the last run, whatever follows it in the stream. *)
Theorem decodeRLE_stops_behind_last_run rs dest file pos rest :
  runsFill (len dest) rs ->
  avail file pos = encode_runs rs ++ rest ->
  len dest <= cap dest ->
  exists data pos',
    decodeRLE dest file pos = Ok data pos'
    /\ take (length (expand_runs rs)) (arr data) = expand_runs rs
    /\ pos' = (pos + length (encode_runs rs))%nat
    /\ avail file pos' = rest.
Proof.
  intros Hfill E Hcap. eexists _, _.
  split; [by apply (decodeRLE_runsFill rs dest file pos rest)|].
  cbn [arr]. split; [by rewrite take_app_length|].
  split; [done|]. by apply avail_prefix.
Qed.

(** The stream 04 AA 80 00 02 11 22 33: the byte 33 is not read. *)
Lemma decodeRLE_stops_behind_last_run_witness :
  exists data,
    decodeRLE (make 7) [x04; xaa; x80; x00; x02; x11; x22; x33] 0
    = Ok data 7
    /\ take 7 (arr data) = [xaa; xaa; xaa; xaa; xaa; x11; x22].
Proof.
  destruct (decodeRLE_stops_behind_last_run
              [ShortFill x04 xaa; LongCopy x00 x02 [x11; x22]] (make 7)
              [x04; xaa; x80; x00; x02; x11; x22; x33] 0 [x33])
    as (data & pos' & Hrun & Hdata & -> & _).
  - split; [repeat constructor; vm_compute; congruence|].
    split; [reflexivity|].
    exists [ShortFill x04 xaa], (LongCopy x00 x02 [x11; x22]).
    split; [reflexivity|vm_compute; reflexivity].
  - reflexivity.
  - vm_compute. congruence.
  - exists data. split; [exact Hrun|exact Hdata].
Defined.

(** ** The tiles of a layer, from the stream to the image *)

Lemma at0_app_l (l k : list byte) (i : nat) :
  (i < length l)%nat -> at0 (l ++ k) i = at0 l i.
Proof. intros H. unfold at0. by rewrite lookup_app_l. Qed.

(** The pixels of a tile depend on the planes only. *)
Lemma pixelBytes_tileData cf rs junk di :
  let n := Z.of_nat (length (expand_runs rs)) in
  0 <= di ->
  (cf = rgbAlpha /\ 0 <= n / 4 /\ di + 3 * (n / 4) < n
   \/ cf = rgbNoAlpha /\ 0 <= n / 3 /\ di + 2 * (n / 3) < n) ->
  pixelBytes cf {| arr := expand_runs rs ++ junk; len := n |} di
  = pixelBytes cf (tileData rs) di.
Proof.
  intros n Hdi Hcf. unfold pixelBytes, tileData. cbn [arr len]. fold n.
  destruct Hcf as [(-> & H0 & H1)|(-> & H0 & H1)]; simpl;
    rewrite !at0_app_l by lia; done.
Qed.

(** A pixel of a layer lies in the tile of the grid that its coordinates
    divided by 64 name. *)
Lemma pixel_in_tile (lh : layerHeader.t) x y :
  let W := layerHeader.Width lh in
  let H := layerHeader.Height lh in
  0 <= W -> W + 63 < 2 ^ 32 -> 0 <= H -> H + 63 < 2 ^ 32 ->
  0 <= x < W -> 0 <= y < H ->
  0 <= x / 64 < tileCountX lh /\ 0 <= y / 64 < tileCountY lh
  /\ 0 <= x mod 64 < tileW lh (x / 64) /\ 0 <= y mod 64 < tileH lh (y / 64).
Proof.
  intros W H HW HW' HH HH' Hx Hy.
  destruct (tile_grid_geometry lh HW HW') as (Hcx & _ & Hgx).
  destruct (tile_grid_geometry_Y lh HH HH') as (Hcy & _ & Hgy).
  fold W in Hcx. fold H in Hcy.
  pose proof (Z.div_mod x 64 ltac:(lia)) as Dx.
  pose proof (Z.mod_pos_bound x 64 ltac:(lia)) as Mx.
  pose proof (Z.div_mod y 64 ltac:(lia)) as Dy.
  pose proof (Z.mod_pos_bound y 64 ltac:(lia)) as My.
  assert (0 <= x / 64 < tileCountX lh) as Htx by lia.
  assert (0 <= y / 64 < tileCountY lh) as Hty by lia.
  destruct (Hgx _ Htx) as (Hw64 & _ & _ & _ & Hwlast).
  destruct (Hgy _ Hty) as (Hh64 & _ & _ & _ & Hhlast).
  fold W in Hwlast. fold H in Hhlast.
  split; [done|]. split; [done|]. split.
  - destruct (decide (x / 64 = tileCountX lh - 1)) as [E|E];
      [specialize (Hwlast E)|specialize (Hw64 E)]; lia.
  - destruct (decide (y / 64 = tileCountY lh - 1)) as [E|E];
      [specialize (Hhlast E)|specialize (Hh64 E)]; lia.
Qed.

Section tiles.

Variables (lh : layerHeader.t) (bpp : Z) (file : list byte).
Variable runsOf : Z -> Z -> list rle_run.

Local Abbreviation W := (layerHeader.Width lh).
Local Abbreviation H := (layerHeader.Height lh).
Local Abbreviation cf := (layerHeader.ColorFormat lh).

Hypothesis HW : 0 <= W < 2 ^ 32 - 63.
Hypothesis HH : 0 <= H < 2 ^ 32 - 63.
Hypothesis Hcf : cf = rgbAlpha /\ bpp = 4 \/ cf = rgbNoAlpha /\ bpp = 3.
Hypothesis Hruns :
  forall tileY tileX,
    0 <= tileY < tileCountY lh -> 0 <= tileX < tileCountX lh ->
    runsFill (tileW lh tileX * tileH lh tileY * bpp) (runsOf tileY tileX).

(** One tile: its runs are decoded, and its pixels, and no others, are
    written. *)
Lemma readTile_ok tileY tileX buffer pix pos rest :
  0 <= tileY < tileCountY lh -> 0 <= tileX < tileCountX lh ->
  len buffer = 64 * 64 * bpp -> cap buffer = 64 * 64 * bpp ->
  Z.of_nat (length pix) = 4 * W * H ->
  avail file pos = encode_runs (runsOf tileY tileX) ++ rest ->
  exists buffer' pix',
    readTile lh bpp (4 * W) tileY tileX (buffer, pix) file pos
    = Ok (buffer', pix') (pos + length (encode_runs (runsOf tileY tileX)))
    /\ len buffer' = 64 * 64 * bpp /\ cap buffer' = 64 * 64 * bpp
    /\ length pix' = length pix
    /\ forall x y c, 0 <= x < W -> 0 <= y < H -> 0 <= c < 4 ->
         pix' !! pixIndex W x y c
         = if decide (tileX * 64 <= x < tileX * 64 + tileW lh tileX
                      /\ tileY * 64 <= y < tileY * 64 + tileH lh tileY)
           then pixelOf lh runsOf x y !! Z.to_nat c
           else pix !! pixIndex W x y c.
Proof.
  intros Hty Htx Hlen Hcap Hpix E. unfold cap in Hcap.
  destruct (tile_grid_geometry lh ltac:(lia) ltac:(lia)) as (_ & _ & Hgx).
  destruct (tile_grid_geometry_Y lh ltac:(lia) ltac:(lia)) as (_ & _ & Hgy).
  destruct (Hgx tileX Htx) as (_ & _ & Hw & Hwfit & _).
  destruct (Hgy tileY Hty) as (_ & _ & Hh & Hhfit & _).
  clear Hgx Hgy.
  destruct (Hruns tileY tileX Hty Htx) as (Hwf & Hn & Hlast).
  set (w := tileW lh tileX) in *. set (h := tileH lh tileY) in *.
  set (left := tileX * 64) in *. set (top := tileY * 64) in *.
  assert (bpp = 4 \/ bpp = 3) as Hbpp by (destruct Hcf as [[_ ->]|[_ ->]]; auto).
  assert (0 < w * h <= 64 * 64) as Harea by nia.
  pose proof (decodeRLE_runsFill (runsOf tileY tileX)
                {| arr := arr buffer; len := w * h * bpp |} file pos rest
                ltac:(split; [done|split; [done|done]]) E
                ltac:(unfold cap; cbn [arr len]; nia)) as Hdec.
  cbn [arr len] in Hdec.
  set (data := {| arr := expand_runs (runsOf tileY tileX)
                         ++ drop (length (expand_runs (runsOf tileY tileX)))
                              (arr buffer);
                  len := w * h * bpp |}) in *.
  assert (length (arr data) = length (arr buffer)) as Hda.
  { subst data. cbn [arr]. rewrite length_app, length_drop. lia. }
  assert (cf = rgbAlpha /\ 0 <= w * h * bpp / 4
          /\ w * h - 1 + 3 * (w * h * bpp / 4) < w * h * bpp
          \/ cf = rgbNoAlpha /\ 0 <= w * h * bpp / 3
             /\ w * h - 1 + 2 * (w * h * bpp / 3) < w * h * bpp) as Hofs.
  { destruct Hcf as [(Ecf & ->)|(Ecf & ->)]; [left|right];
      rewrite Z.div_mul by done; repeat split; (done || lia). }
  destruct (tile_rows_ok cf data (4 * W) left (Z.to_nat w) (Z.to_nat h)
              top pix 0) as (pix' & Hrun & Hlen' & Hin & Hout);
    [|lia|lia|lia|lia|nia|].
  { split; [done|]. split; [rewrite Hda; subst data; cbn [len]; nia|].
    subst data. cbn [len].
    destruct Hofs as [(? & ? & ?)|(? & ? & ?)]; [left|right];
      repeat split; (done || lia). }
  rewrite !Z2Nat.id in * by lia.
  exists {| arr := arr data; len := len buffer |}, pix'.
  split; [|split; [done|split; [unfold cap; cbn [arr]; lia|split; [done|]]]].
  { unfold readTile. fold w h left top.
    assert (subslice buffer (w * h * bpp) = inr tt) as ->.
    { unfold subslice, cap.
      destruct (Z.leb_spec (w * h * bpp) (Z.of_nat (length (arr buffer))));
        [done|nia]. }
    unfold bind at 1. cbn [lift ret].
    rewrite (bind_Ok _ _ _ _ _ _ Hdec).
    unfold bind, lift, scatterTile. rewrite Hrun. done. }
  intros x y c Hx Hy Hc.
  destruct (decide (left <= x < left + w /\ top <= y < top + h))
    as [[Hxin Hyin]|Hout'].
  - specialize (Hin (y - top) (x - left) c ltac:(lia) ltac:(lia) Hc).
    unfold pixIndex.
    replace (4 * W * y + x * 4 + c)
      with (4 * W * (top + (y - top)) + (left + (x - left)) * 4 + c) by lia.
    rewrite Hin. f_equal. unfold pixelOf.
    assert (x / 64 = tileX) as ->
      by (symmetry; apply (Z.div_unique x 64 tileX (x - left)); lia).
    assert (y / 64 = tileY) as ->
      by (symmetry; apply (Z.div_unique y 64 tileY (y - top)); lia).
    assert (x mod 64 = x - left) as ->
      by (symmetry; apply (Z.mod_unique x 64 tileX (x - left)); lia).
    assert (y mod 64 = y - top) as ->
      by (symmetry; apply (Z.mod_unique y 64 tileY (y - top)); lia).
    fold w. subst data. rewrite <- Hn.
    rewrite Z.add_0_l. apply pixelBytes_tileData; [nia|].
    rewrite Hn.
    assert ((y - top) * w + (x - left) <= w * h - 1) by nia.
    destruct Hofs as [(? & ? & ?)|(? & ? & ?)]; [left|right];
      repeat split; (done || lia).
  - apply Hout. intros j Hj Hr. apply Hout'. unfold pixIndex in Hr.
    rewrite Z2Nat.id in Hr by nia.
    destruct (Z.lt_trichotomy y (top + j)) as [Hlt|[Heq|Hgt]].
    + assert (4 * W * (y + 1) <= 4 * W * (top + j))
        by (apply Z.mul_le_mono_nonneg_l; lia).
      lia.
    + subst y. lia.
    + assert (4 * W * (top + j + 1) <= 4 * W * y)
        by (apply Z.mul_le_mono_nonneg_l; lia).
      lia.
Qed.

(** One row of tiles, from column [tileX] on: the tiles are read one
    behind the other from the stream. *)
Lemma tileRow_ok tileY :
  0 <= tileY < tileCountY lh ->
  forall n tileX buffer pix pos rest,
    0 <= tileX -> tileX + Z.of_nat n = tileCountX lh ->
    len buffer = 64 * 64 * bpp -> cap buffer = 64 * 64 * bpp ->
    Z.of_nat (length pix) = 4 * W * H ->
    avail file pos
    = concat (map (fun tx => encode_runs (runsOf tileY tx))
                (seqZ tileX (Z.of_nat n))) ++ rest ->
    exists buffer' pix' pos',
      forM n tileX (readTile lh bpp (4 * W) tileY) (buffer, pix) file pos
      = Ok (buffer', pix') pos'
      /\ avail file pos' = rest
      /\ len buffer' = 64 * 64 * bpp /\ cap buffer' = 64 * 64 * bpp
      /\ length pix' = length pix
      /\ forall x y c, 0 <= x < W -> 0 <= y < H -> 0 <= c < 4 ->
           pix' !! pixIndex W x y c
           = if decide (tileX * 64 <= x
                        /\ tileY * 64 <= y < tileY * 64 + tileH lh tileY)
             then pixelOf lh runsOf x y !! Z.to_nat c
             else pix !! pixIndex W x y c.
Proof.
  intros Hty.
  destruct (tile_grid_geometry lh ltac:(lia) ltac:(lia)) as (Hcx & _ & Hgx).
  induction n as [|n IH]; intros tileX buffer pix pos rest Htx Hn Hlen Hcap
    Hpix E.
  { exists buffer, pix, pos. cbn [forM]. split; [done|]. split; [done|].
    do 3 (split; [done|]). intros x y c Hx Hy Hc.
    destruct (decide _) as [[Hge _]|]; [lia|done]. }
  rewrite seqZ_cons in E by lia. cbn [map concat] in E.
  rewrite <- app_assoc in E.
  replace (Z.pred (Z.of_nat (S n))) with (Z.of_nat n) in E by lia.
  destruct (readTile_ok tileY tileX buffer pix pos _ Hty ltac:(lia) Hlen Hcap
              Hpix E) as (buffer1 & pix1 & Hstep & Hlen1 & Hcap1 & Hpix1 & Hin1).
  destruct (IH (Z.succ tileX) buffer1 pix1
              (pos + length (encode_runs (runsOf tileY tileX)))%nat rest
              ltac:(lia) ltac:(lia) Hlen1 Hcap1 ltac:(lia)
              (avail_prefix _ _ _ _ E))
    as (buffer' & pix' & pos' & Hloop & Hrest & Hlen' & Hcap' & Hpix' & Hin').
  exists buffer', pix', pos'. cbn [forM].
  rewrite (bind_Ok _ _ _ _ _ _ Hstep).
  replace (tileX + 1) with (Z.succ tileX) by lia.
  split; [done|]. split; [done|]. split; [done|]. split; [done|].
  split; [congruence|].
  intros x y c Hx Hy Hc. rewrite Hin', Hin1 by done.
  destruct (Hgx tileX ltac:(lia)) as (Hw64 & _ & Hw & _ & Hwlast).
  destruct (decide (tileX = tileCountX lh - 1)) as [Elast|Elast];
    [specialize (Hwlast Elast)|specialize (Hw64 Elast)];
    repeat destruct (decide _); try done; lia.
Qed.

(** The rows of tiles, from row [tileY] on. *)
Lemma tileGrid_ok :
  forall n tileY buffer pix pos rest,
    0 <= tileY -> tileY + Z.of_nat n = tileCountY lh ->
    len buffer = 64 * 64 * bpp -> cap buffer = 64 * 64 * bpp ->
    Z.of_nat (length pix) = 4 * W * H ->
    avail file pos
    = concat
        (map (fun ty =>
                concat (map (fun tx => encode_runs (runsOf ty tx))
                          (seqZ 0 (tileCountX lh))))
           (seqZ tileY (Z.of_nat n))) ++ rest ->
    exists buffer' pix' pos',
      forM n tileY
        (fun ty => forM (Z.to_nat (tileCountX lh)) 0
                     (readTile lh bpp (4 * W) ty))
        (buffer, pix) file pos
      = Ok (buffer', pix') pos'
      /\ avail file pos' = rest
      /\ length pix' = length pix
      /\ forall x y c, 0 <= x < W -> 0 <= y < H -> 0 <= c < 4 ->
           pix' !! pixIndex W x y c
           = if decide (tileY * 64 <= y)
             then pixelOf lh runsOf x y !! Z.to_nat c
             else pix !! pixIndex W x y c.
Proof.
  destruct (tile_grid_geometry lh ltac:(lia) ltac:(lia)) as (Hcx & _ & _).
  destruct (tile_grid_geometry_Y lh ltac:(lia) ltac:(lia)) as (Hcy & _ & Hgy).
  induction n as [|n IH]; intros tileY buffer pix pos rest Hty Hn Hlen Hcap
    Hpix E.
  { exists buffer, pix, pos. cbn [forM]. split; [done|]. split; [done|].
    split; [done|]. intros x y c Hx Hy Hc.
    destruct (decide _); [lia|done]. }
  rewrite (seqZ_cons tileY) in E by lia. cbn [map concat] in E.
  rewrite <- app_assoc in E.
  replace (Z.pred (Z.of_nat (S n))) with (Z.of_nat n) in E by lia.
  assert (0 <= tileCountX lh) as Hcx0 by lia.
  rewrite <- (Z2Nat.id (tileCountX lh)) in E at 1 by done.
  destruct (tileRow_ok tileY ltac:(lia) (Z.to_nat (tileCountX lh)) 0 buffer
              pix pos _ ltac:(lia) ltac:(lia) Hlen Hcap Hpix E)
    as (buffer1 & pix1 & pos1 & Hrow & Hrest1 & Hlen1 & Hcap1 & Hpix1 & Hin1).
  destruct (IH (Z.succ tileY) buffer1 pix1 pos1 rest
              ltac:(lia) ltac:(lia) Hlen1 Hcap1 ltac:(lia) Hrest1)
    as (buffer' & pix' & pos' & Hloop & Hrest & Hpix' & Hin').
  exists buffer', pix', pos'. cbn [forM].
  rewrite (bind_Ok _ _ _ _ _ _ Hrow).
  replace (tileY + 1) with (Z.succ tileY) by lia.
  split; [done|]. split; [done|]. split; [congruence|].
  intros x y c Hx Hy Hc. rewrite Hin', Hin1 by done.
  destruct (Hgy tileY ltac:(lia)) as (Hh64 & _ & Hh & _ & Hhlast).
  destruct (decide (tileY = tileCountY lh - 1)) as [Elast|Elast];
    [specialize (Hhlast Elast)|specialize (Hh64 Elast)];
    repeat destruct (decide _); try done; lia.
Qed.

End tiles.

Lemma readHierarchyHeader_enough file pos :
  (16 <= length (avail file pos))%nat ->
  readHierarchyHeader file pos
  = Ok (hierarchyHeader.decode (take 16 (avail file pos))) (pos + 16).
Proof.
  intros H. unfold readHierarchyHeader.
  by rewrite (bind_Ok _ _ _ _ _ _ (ReadFull_enough 16 file pos H)).
Qed.

(** The loop over the level pointers on a list that has its zero entry:
    it stops behind that entry. *)
Lemma skipLevelPointers_ends fuel : forall file pos,
  offsetListEnds (avail file pos) = true ->
  (length (layerOffsetList (avail file pos)) < fuel)%nat ->
  skipLevelPointers fuel file pos
  = Ok tt (pos + 4 * S (length (layerOffsetList (avail file pos)))).
Proof.
  induction fuel as [|fuel IH]; intros file pos Hends Hfuel; [lia|].
  cbn [skipLevelPointers].
  destruct (le_lt_dec 4 (length (avail file pos))) as [Hlen|Hlen];
    [|by rewrite offsetListEnds_short in Hends].
  rewrite (bind_Ok _ _ _ _ _ _ (readUint32_enough file pos Hlen)).
  rewrite offsetListEnds_step in Hends by done.
  rewrite layerOffsetList_step in Hfuel |- * by done.
  destruct (be32 (take 4 (avail file pos)) =? 0); [done|].
  cbn [length] in Hfuel. rewrite <- avail_add in Hends, Hfuel |- *.
  rewrite IH by (done || lia). cbn [length]. f_equal. lia.
Qed.

Lemma layerOffsetList_length bs :
  (4 * length (layerOffsetList bs) <= length bs)%nat.
Proof.
  induction bs as [bs IH] using (induction_ltof1 _ (@length byte)).
  destruct bs as [|b0 [|b1 [|b2 [|b3 rest]]]]; try (simpl; lia).
  cbn [layerOffsetList]. cbv zeta.
  destruct (be32 [b0; b1; b2; b3] =? 0); [simpl; lia|].
  specialize (IH rest ltac:(unfold ltof; simpl; lia)). simpl in *. lia.
Qed.

(** [image.NewRGBA] for a layer whose buffer length is an [int]. *)
Lemma NewRGBA_ok layerX layerY W H :
  0 <= W -> 0 <= H -> 4 * W * H < 2 ^ 63 ->
  exists img,
    NewRGBA (imageRect layerX layerY (layerX + W) (layerY + H)) = inr img.
Proof.
  intros HW HH Hsize. unfold NewRGBA, imageRect, Dx, Dy.
  destruct (Z.ltb_spec (layerX + W) layerX); [lia|].
  destruct (Z.ltb_spec (layerY + H) layerY); [lia|].
  cbn [MinX MinY MaxX MaxY].
  replace (layerX + W - layerX) with W by lia.
  replace (layerY + H - layerY) with H by lia.
  destruct (Z.leb_spec 0 (4 * W * H)); [|nia].
  destruct (Z.ltb_spec (4 * W * H) (2 ^ 63)); [|lia].
  by eexists.
Qed.

(** [readImageData] up to its loops over the tiles: the hierarchy header,
    the level pointers, the level header and the tile pointers are read,
    and the cursor is left behind the tile pointers.  What the level
    header and the tile pointers hold plays no part. *)
Lemma readImageData_to_tiles lh layerX layerY offset file pos rgba :
  let header := hierarchyHeader.decode (take 16 (avail file (Z.to_nat offset))) in
  let level := Z.to_nat (hierarchyHeader.FirstLevelPointer header) in
  let tiles :=
    (level + 8 + 4 * Z.to_nat (tileCountX lh * tileCountY lh + 1))%nat in
  0 <= tileCountX lh * tileCountY lh ->
  (16 <= length (avail file (Z.to_nat offset)))%nat ->
  offsetListEnds (avail file (Z.to_nat offset + 16)) = true ->
  (tiles <= length file)%nat ->
  NewRGBA (imageRect layerX layerY (layerX + layerHeader.Width lh)
             (layerY + layerHeader.Height lh)) = inr rgba ->
  readImageData lh layerX layerY offset file pos
  = bind
      (forM (Z.to_nat (tileCountY lh)) 0
         (fun tileY =>
            forM (Z.to_nat (tileCountX lh)) 0
              (readTile lh (hierarchyHeader.BytesPerPixel header)
                 (Stride rgba) tileY))
         (make (wrap32 (64 * 64 * hierarchyHeader.BytesPerPixel header)),
          Pix rgba))
      (fun st => ret {| Pix := snd st; Stride := Stride rgba;
                        Rect := Rect rgba |})
      file tiles.
Proof.
  intros header level tiles Hcount Hhdr Hends Htiles Hnew.
  unfold readImageData.
  rewrite (bind_Ok _ _ _ _ tt (Z.to_nat offset)) by done.
  rewrite (bind_Ok _ _ _ _ _ _ (readHierarchyHeader_enough _ _ Hhdr)).
  fold header.
  rewrite (bind_Ok _ _ _ _ tt
             (Z.to_nat offset + 16
              + 4 * S (length (layerOffsetList
                                 (avail file (Z.to_nat offset + 16)))))%nat).
  2:{ unfold withFuel. apply skipLevelPointers_ends; [done|].
      pose proof (layerOffsetList_length (avail file (Z.to_nat offset + 16))).
      lia. }
  rewrite (bind_Ok _ _ _ _ tt level) by done.
  assert (length (avail file level) = (length file - level)%nat) as Hav
    by apply avail_length.
  rewrite (bind_Ok _ _ _ _ _ _ (readUint32_enough file level ltac:(lia))).
  rewrite (bind_Ok _ _ _ _ _ _
             (readUint32_enough file (level + 4)
                ltac:(rewrite avail_add, length_drop; lia))).
  rewrite (bind_Ok _ _ _ _ _ _
             (ReadFull_enough (4 * (tileCountX lh * tileCountY lh + 1)) file
                (level + 4 + 4)
                ltac:(rewrite !avail_add, !length_drop; lia))).
  rewrite Hnew. unfold bind at 1. cbn [lift ret].
  replace (level + 4 + 4
           + Z.to_nat (4 * (tileCountX lh * tileCountY lh + 1)))%nat
    with tiles by lia.
  done.
Qed.

(** X16.  [readImageData] on a well-formed hierarchy.  Given the hierarchy
    header with the bytes per pixel of the layer's format (4 with alpha, 3
    without), a level pointer list with its zero entry, and, behind the
    level header and the tile pointers, the tiles of the grid one after the
    other, row by row, each as runs that fill its planes: the image has
    the bounds of the layer, the cursor stops behind the last tile, and the
    pixel [x], [y] of the layer has the colour that the planes of the tile
    in column [x / 64] and row [y / 64] hold for its pixel in column
    [x mod 64] and row [y mod 64].  The tiles are read in sequence; the
    values of the tile pointers and the size in the level header play no
    part. *)
Theorem readImageData_decodes_tiles
    lh layerX layerY offset file pos runsOf rest :
  let W := layerHeader.Width lh in
  let H := layerHeader.Height lh in
  let cf := layerHeader.ColorFormat lh in
  let header := hierarchyHeader.decode (take 16 (avail file (Z.to_nat offset))) in
  let bpp := hierarchyHeader.BytesPerPixel header in
  let level := Z.to_nat (hierarchyHeader.FirstLevelPointer header) in
  let tiles :=
    (level + 8 + 4 * Z.to_nat (tileCountX lh * tileCountY lh + 1))%nat in
  0 <= W < 2 ^ 32 - 63 -> 0 <= H < 2 ^ 32 - 63 -> 4 * W * H < 2 ^ 63 ->
  (cf = rgbAlpha /\ bpp = 4 \/ cf = rgbNoAlpha /\ bpp = 3) ->
  (16 <= length (avail file (Z.to_nat offset)))%nat ->
  offsetListEnds (avail file (Z.to_nat offset + 16)) = true ->
  (tiles <= length file)%nat ->
  avail file tiles = tileStream lh runsOf ++ rest ->
  (forall tileY tileX,
     0 <= tileY < tileCountY lh -> 0 <= tileX < tileCountX lh ->
     runsFill (tileW lh tileX * tileH lh tileY * bpp) (runsOf tileY tileX)) ->
  exists img pos',
    readImageData lh layerX layerY offset file pos = Ok img pos'
    /\ avail file pos' = rest
    /\ Rect img = imageRect layerX layerY (layerX + W) (layerY + H)
    /\ forall x y, 0 <= x < W -> 0 <= y < H ->
         RGBAAt img (layerX + x) (layerY + y)
         = tilePixel cf (expand_runs (runsOf (y / 64) (x / 64)))
             (tileW lh (x / 64) * tileH lh (y / 64))
             (y mod 64 * tileW lh (x / 64) + x mod 64).
Proof.
  intros W H cf header bpp level tiles HW HH Hsize Hcf Hhdr Hends Htiles E
    Hruns.
  destruct (tile_grid_geometry lh ltac:(lia) ltac:(lia)) as (Hcx & _ & _).
  destruct (tile_grid_geometry_Y lh ltac:(lia) ltac:(lia)) as (Hcy & _ & _).
  fold W in Hcx. fold H in Hcy.
  assert (0 <= tileCountX lh) as Hcx0 by lia.
  assert (0 <= tileCountY lh) as Hcy0 by lia.
  destruct (NewRGBA_ok layerX layerY W H ltac:(lia) ltac:(lia) Hsize)
    as [rgba Hnew].
  destruct (NewRGBA_layer layerX layerY W H rgba (proj1 HW) (proj1 HH) Hnew)
    as (HRect & HStride & HPix).
  rewrite (readImageData_to_tiles lh layerX layerY offset file pos rgba)
    by (done || nia).
  fold header bpp level tiles. rewrite HStride.
  assert (wrap32 (64 * 64 * bpp) = 64 * 64 * bpp) as ->
    by (unfold wrap32; destruct Hcf as [[_ ->]|[_ ->]]; done).
  assert (0 <= 64 * 64 * bpp) as Hb0 by (destruct Hcf as [[_ ->]|[_ ->]]; done).
  unfold tileStream in E.
  rewrite <- (Z2Nat.id (tileCountY lh)) in E at 1 by done.
  destruct (tileGrid_ok lh bpp file runsOf HW HH Hcf Hruns
              (Z.to_nat (tileCountY lh)) 0 (make (64 * 64 * bpp)) (Pix rgba)
              tiles rest)
    as (buffer' & pix' & pos' & Hloop & Hrest & Hlen & Hin);
    [lia|lia|done| |done|done|].
  { unfold cap, make. cbn [arr]. rewrite length_replicate. lia. }
  rewrite (bind_Ok _ _ _ _ _ _ Hloop). cbn [snd].
  eexists _, pos'. split; [reflexivity|]. split; [done|].
  cbn [Rect]. split; [done|].
  intros x y Hx Hy.
  destruct (pixel_in_tile lh x y ltac:(lia) ltac:(lia) ltac:(lia) ltac:(lia)
              Hx Hy) as (Htx & Hty & Hi & Hj).
  destruct (Hruns _ _ Hty Htx) as (_ & Hn & _).
  set (w := tileW lh (x / 64)) in *. set (h := tileH lh (y / 64)) in *.
  set (rs := runsOf (y / 64) (x / 64)) in *.
  assert (forall c, 0 <= c < 4 ->
            at0 pix' (pixIndex W x y c)
            = default x00 (pixelOf lh runsOf x y !! Z.to_nat c)) as Hbyte.
  { intros c Hc. unfold at0 at 1. f_equal.
    pose proof (Hin x y c Hx Hy Hc) as Hv.
    by destruct (decide (0 * 64 <= y)) in Hv; [|lia]. }
  unfold RGBAAt, PixOffset. cbn [Pix Stride Rect].
  rewrite HRect. unfold imageRect.
  destruct (Z.ltb_spec (layerX + W) layerX); [lia|].
  destruct (Z.ltb_spec (layerY + H) layerY); [lia|].
  cbn [MinX MinY MaxX MaxY].
  destruct (Z.leb_spec layerX (layerX + x)); [|lia].
  destruct (Z.ltb_spec (layerX + x) (layerX + W)); [|lia].
  destruct (Z.leb_spec layerY (layerY + y)); [|lia].
  destruct (Z.ltb_spec (layerY + y) (layerY + H)); [|lia].
  cbn [andb].
  assert (0 <= W * y) as Hwy by (apply Z.mul_nonneg_nonneg; lia).
  replace (Z.to_nat ((layerY + y - layerY) * (4 * W)
                     + (layerX + x - layerX) * 4))
    with (pixIndex W x y 0) by (unfold pixIndex; lia).
  replace (pixIndex W x y 0 + 1)%nat with (pixIndex W x y 1)
    by (unfold pixIndex; lia).
  replace (pixIndex W x y 0 + 2)%nat with (pixIndex W x y 2)
    by (unfold pixIndex; lia).
  replace (pixIndex W x y 0 + 3)%nat with (pixIndex W x y 3)
    by (unfold pixIndex; lia).
  rewrite !Hbyte by lia.
  unfold pixelOf, pixelBytes, tilePixel, tileData. cbn [arr len].
  fold cf w h rs. rewrite Hn.
  destruct Hcf as [[Ecf Eb]|[Ecf Eb]]; rewrite Ecf, Eb; simpl;
    rewrite Z.div_mul by done; f_equal; f_equal; lia.
Qed.

(** A layer of 65 x 1 pixels without alpha, and so of two tiles: the
    first, of 64 pixels, as three runs of 64 identical bytes, the second,
    of one pixel, as three literal bytes.  The tile pointers hold 7 and 9. *)
Lemma readImageData_decodes_tiles_witness :
  exists img pos',
    readImageData {| layerHeader.Width := 65; layerHeader.Height := 1;
                     layerHeader.ColorFormat := rgbNoAlpha |} 0 0 0
      (u32 65 ++ u32 1 ++ u32 3 ++ u32 20 ++ u32 0
         ++ u32 65 ++ u32 1 ++ u32 7 ++ u32 9 ++ u32 0
         ++ [x3f; x0a; x3f; x0b; x3f; x0c; xfd; x01; x02; x03]) 0%nat
    = Ok img pos'
    /\ RGBAAt img 5 0 = {| R := x0a; G := x0b; B := x0c; A := xff |}
    /\ RGBAAt img 64 0 = {| R := x01; G := x02; B := x03; A := xff |}.
Proof.
  destruct (readImageData_decodes_tiles
              {| layerHeader.Width := 65; layerHeader.Height := 1;
                 layerHeader.ColorFormat := rgbNoAlpha |} 0 0 0
              (u32 65 ++ u32 1 ++ u32 3 ++ u32 20 ++ u32 0
                 ++ u32 65 ++ u32 1 ++ u32 7 ++ u32 9 ++ u32 0
                 ++ [x3f; x0a; x3f; x0b; x3f; x0c; xfd; x01; x02; x03])
              0%nat
              (fun _ tileX =>
                 if tileX =? 0
                 then [ShortFill x3f x0a; ShortFill x3f x0b; ShortFill x3f x0c]
                 else [ShortCopy xfd [x01; x02; x03]])
              [])
    as (img & pos' & Hrun & _ & _ & Hpixel).
  - vm_compute. split; [congruence|reflexivity].
  - vm_compute. split; [congruence|reflexivity].
  - vm_compute. reflexivity.
  - right. split; reflexivity.
  - vm_compute. lia.
  - vm_compute. reflexivity.
  - vm_compute. lia.
  - vm_compute. reflexivity.
  - intros tileY tileX HtileY HtileX.
    change (tileCountX _) with 2 in HtileX.
    change (tileCountY _) with 1 in HtileY.
    assert (tileY = 0) as -> by lia.
    assert (tileX = 0 \/ tileX = 1) as [-> | ->] by lia.
    + split; [repeat constructor; vm_compute; congruence|].
      split; [reflexivity|].
      exists [ShortFill x3f x0a; ShortFill x3f x0b], (ShortFill x3f x0c).
      split; [reflexivity|vm_compute; reflexivity].
    + split; [repeat constructor; vm_compute; congruence|].
      split; [reflexivity|].
      exists [], (ShortCopy xfd [x01; x02; x03]).
      split; [reflexivity|vm_compute; reflexivity].
  - exists img, pos'. split; [exact Hrun|]. split.
    + exact (Hpixel 5 0 ltac:(vm_compute; split; congruence)
               ltac:(vm_compute; split; congruence)).
    + exact (Hpixel 64 0 ltac:(vm_compute; split; congruence)
               ltac:(vm_compute; split; congruence)).
Defined.

(** ** A hierarchy that does not fit the layer *)

(** X17.  The bytes per pixel of the hierarchy header are not checked
    against the colour format of the layer.  With 0 bytes per pixel, and a
    layer of at least one pixel, the buffer of the first tile is empty,
    [decodeRLE] has nothing to decode, and the first pixel reads
    [data[0]]: [readImageData] panics with an index out of range, it does
    not return an error. *)
Theorem readImageData_zero_bytes_per_pixel lh layerX layerY offset file pos :
  let W := layerHeader.Width lh in
  let H := layerHeader.Height lh in
  let cf := layerHeader.ColorFormat lh in
  let header := hierarchyHeader.decode (take 16 (avail file (Z.to_nat offset))) in
  let level := Z.to_nat (hierarchyHeader.FirstLevelPointer header) in
  1 <= W < 2 ^ 32 - 63 -> 1 <= H < 2 ^ 32 - 63 -> 4 * W * H < 2 ^ 63 ->
  cf = rgbAlpha \/ cf = rgbNoAlpha ->
  hierarchyHeader.BytesPerPixel header = 0 ->
  (16 <= length (avail file (Z.to_nat offset)))%nat ->
  offsetListEnds (avail file (Z.to_nat offset + 16)) = true ->
  (level + 8 + 4 * Z.to_nat (tileCountX lh * tileCountY lh + 1)
   <= length file)%nat ->
  readImageData lh layerX layerY offset file pos
  = Panic (IndexOutOfRange 0 0).
Proof.
  intros W H cf header level HW HH Hsize Hcf Hbpp Hhdr Hends Htiles.
  destruct (tile_grid_geometry lh ltac:(lia) ltac:(lia)) as (Hcx & _ & Hgx).
  destruct (tile_grid_geometry_Y lh ltac:(lia) ltac:(lia)) as (Hcy & _ & Hgy).
  fold W in Hcx. fold H in Hcy.
  assert (1 <= tileCountX lh) as Hcx1 by lia.
  assert (1 <= tileCountY lh) as Hcy1 by lia.
  destruct (Hgx 0 ltac:(lia)) as (_ & _ & Hw & _).
  destruct (Hgy 0 ltac:(lia)) as (_ & _ & Hh & _).
  destruct (NewRGBA_ok layerX layerY W H ltac:(lia) ltac:(lia) Hsize)
    as [rgba Hnew].
  rewrite (readImageData_to_tiles lh layerX layerY offset file pos rgba)
    by (done || nia).
  fold header. rewrite Hbpp.
  destruct (Z.to_nat (tileCountY lh)) as [|ny] eqn:Eny; [lia|].
  destruct (Z.to_nat (tileCountX lh)) as [|nx] eqn:Enx; [lia|].
  unfold bind at 1. cbn [forM]. unfold bind at 1. unfold bind at 1.
  assert (forall pix p,
            readTile lh 0 (Stride rgba) 0 0 (make (wrap32 (64 * 64 * 0)), pix)
              file p = Panic (IndexOutOfRange 0 0)) as ->; [|done].
  intros pix p. unfold readTile.
  rewrite !Z.mul_0_r. change (wrap32 0) with 0.
  change (subslice (make 0) 0) with (@inr panic unit tt).
  unfold bind at 1. cbn [lift ret]. unfold bind at 1.
  unfold decodeRLE, withFuel. rewrite decodeRLE_loop_done by (simpl; lia).
  unfold bind, lift, scatterTile.
  destruct (Z.to_nat (tileH lh 0)) as [|nh] eqn:Enh; [lia|].
  destruct (Z.to_nat (tileW lh 0)) as [|nw] eqn:Enw; [lia|].
  cbn [forP fst]. rewrite lineFrom_ok by lia. cbn [bindP forP].
  fold cf. unfold putPixel, load. cbn [len].
  destruct Hcf as [-> | ->]; reflexivity.
Qed.

(** The first layer of the small file with 0 for the bytes per pixel of
    its hierarchy. *)
Lemma readImageData_zero_bytes_per_pixel_witness :
  readImageData {| layerHeader.Width := 2; layerHeader.Height := 1;
                   layerHeader.ColorFormat := rgbAlpha |} 1 (-1) 140
    (take 151 sample_xcf ++ [x00] ++ drop 152 sample_xcf) 0%nat
  = Panic (IndexOutOfRange 0 0).
Proof.
  apply (readImageData_zero_bytes_per_pixel
           {| layerHeader.Width := 2; layerHeader.Height := 1;
              layerHeader.ColorFormat := rgbAlpha |} 1 (-1) 140
           (take 151 sample_xcf ++ [x00] ++ drop 152 sample_xcf) 0%nat).
  - vm_compute. split; congruence.
  - vm_compute. split; congruence.
  - vm_compute. reflexivity.
  - left. reflexivity.
  - vm_compute. reflexivity.
  - vm_compute. lia.
  - vm_compute. reflexivity.
  - vm_compute. lia.
Defined.

(** The loop over the level pointers on a list that the end of the file
    cuts off. *)
Lemma skipLevelPointers_cut fuel : forall file pos,
  offsetListEnds (avail file pos) = false ->
  (length (avail file pos) < fuel)%nat ->
  exists p,
    skipLevelPointers fuel file pos
    = Err (if (length (avail file pos) mod 4 =? 0)%nat
           then "EOF" else "unexpected EOF") p.
Proof.
  induction fuel as [|fuel IH]; intros file pos Hends Hfuel; [lia|].
  cbn [skipLevelPointers].
  destruct (le_lt_dec 4 (length (avail file pos))) as [Hlen|Hlen].
  - rewrite (bind_Ok _ _ _ _ _ _ (readUint32_enough file pos Hlen)).
    rewrite offsetListEnds_step in Hends by done.
    destruct (be32 (take 4 (avail file pos)) =? 0); [done|].
    rewrite <- avail_add in Hends.
    assert (length (avail file (pos + 4)) = (length (avail file pos) - 4)%nat)
      as Hl by (by rewrite avail_add, length_drop).
    destruct (IH file (pos + 4)%nat Hends ltac:(lia)) as [p Hp].
    exists p. rewrite Hp, Hl. do 2 f_equal.
    replace (length (avail file pos))
      with (length (avail file pos) - 4 + 1 * 4)%nat at 2 by lia.
    by rewrite Nat.Div0.mod_add.
  - rewrite Nat.mod_small by lia.
    unfold bind, readUint32, bind, ReadFull.
    change (4 <=? 0) with false. cbv iota. change (Z.to_nat 4) with 4%nat.
    rewrite decide_False by (rewrite length_take; lia).
    rewrite take_ge by lia.
    destruct (avail file pos); by eexists.
Qed.

(** X18.  A level pointer list without a zero entry before the end of the
    file makes [readImageData] fail with the error of the read that finds
    the end: "EOF" where the file ends with a whole entry, "unexpected
    EOF" where it ends inside one.  This loop checks the error of each
    read, and so it ends on every file. *)
Theorem readImageData_level_pointers_cut lh layerX layerY offset file pos :
  (16 <= length (avail file (Z.to_nat offset)))%nat ->
  offsetListEnds (avail file (Z.to_nat offset + 16)) = false ->
  exists p,
    readImageData lh layerX layerY offset file pos
    = Err (if (length (avail file (Z.to_nat offset + 16)) mod 4 =? 0)%nat
           then "EOF" else "unexpected EOF") p.
Proof.
  intros Hhdr Hends. unfold readImageData.
  rewrite (bind_Ok _ _ _ _ tt (Z.to_nat offset)) by done.
  rewrite (bind_Ok _ _ _ _ _ _ (readHierarchyHeader_enough _ _ Hhdr)).
  destruct (skipLevelPointers_cut
              (S (length (avail file (Z.to_nat offset + 16)))) file
              (Z.to_nat offset + 16)%nat Hends ltac:(lia)) as [p Hp].
  exists p. unfold bind at 1, withFuel. by rewrite Hp.
Qed.

(** The first layer of the small file, cut inside the zero entry of its
    level pointer list. *)
Lemma readImageData_level_pointers_cut_witness :
  exists p,
    readImageData {| layerHeader.Width := 2; layerHeader.Height := 1;
                     layerHeader.ColorFormat := rgbAlpha |} 1 (-1) 140
      (take 158 sample_xcf) 0%nat
    = Err "unexpected EOF" p.
Proof.
  apply (readImageData_level_pointers_cut
           {| layerHeader.Width := 2; layerHeader.Height := 1;
              layerHeader.ColorFormat := rgbAlpha |} 1 (-1) 140
           (take 158 sample_xcf) 0%nat).
  - vm_compute. lia.
  - vm_compute. reflexivity.
Defined.

(** ** A layer whose properties are cut off *)

(** The loop of [loadLayer] over a run of properties: one turn for each. *)
Lemma loadLayer_props_over bs ps rest :
  propsStart bs ps rest ->
  forall file pos st fuel,
    avail file pos = bs ->
    exists pos',
      avail file pos' = rest
      /\ (length rest + 8 * length ps <= length bs)%nat
      /\ loadLayer_props (length ps + fuel) st file pos
         = loadLayer_props fuel (propsResult st ps) file pos'.
Proof.
  induction 1 as [bs|bs ps rest Hlen Hid _ IH|bs ps rest Hlen Hid _ IH
                 |bs ps rest Hlen Hid _ IH|bs ps rest Hlen H0 H1 H2 H3 _ IH];
    intros file pos st fuel E.
  { exists pos. rewrite propsResult_nil. split; [done|].
    split; [simpl; lia|done]. }
  all: cbn [length Nat.add loadLayer_props];
    rewrite (bind_Ok _ _ _ _ _ _
               (readPropertyHeader_enough file pos ltac:(rewrite E; lia)));
    rewrite E; unfold propId, propLength in *;
    assert (avail file (pos + 8) = drop 8 bs) as E8
      by (by rewrite avail_add, E);
    rewrite propsResult_cons.
  - rewrite Hid. simpl.
    assert (avail file (pos + 8 + 4) = drop 12 bs) as E12
      by (rewrite avail_add, E8, drop_drop; done).
    rewrite (bind_Ok _ _ _ _ _ _
               (readInt32_enough file (pos + 8)
                  ltac:(rewrite E8, length_drop; lia))).
    rewrite (bind_Ok _ _ _ _ _ _
               (readInt32_enough file (pos + 8 + 4)
                  ltac:(rewrite E12, length_drop; lia))).
    rewrite E8, E12.
    edestruct (IH file (pos + 8 + 4 + 4)%nat) as (pos' & Hrest & Hl & Hloop).
    { rewrite avail_add, E12, drop_drop. done. }
    exists pos'. split; [done|]. split; [|exact Hloop].
    rewrite length_drop in Hl. lia.
  - rewrite Hid. simpl.
    rewrite (bind_Ok _ _ _ _ _ _
               (readUint32_enough file (pos + 8)
                  ltac:(rewrite E8, length_drop; lia))).
    rewrite E8.
    edestruct (IH file (pos + 8 + 4)%nat) as (pos' & Hrest & Hl & Hloop).
    { rewrite avail_add, E8, drop_drop. done. }
    exists pos'. split; [done|]. split; [|exact Hloop].
    rewrite length_drop in Hl. lia.
  - rewrite Hid. simpl.
    rewrite (bind_Ok _ _ _ _ _ _
               (readUint32_enough file (pos + 8)
                  ltac:(rewrite E8, length_drop; lia))).
    rewrite E8.
    edestruct (IH file (pos + 8 + 4)%nat) as (pos' & Hrest & Hl & Hloop).
    { rewrite avail_add, E8, drop_drop. done. }
    exists pos'. split; [done|]. split; [|exact Hloop].
    rewrite length_drop in Hl. lia.
  - destruct (Z.eqb_spec (propertyHeader.MagicID
                            (propertyHeader.decode (take 8 bs))) propEnd);
      [done|].
    destruct (Z.eqb_spec (propertyHeader.MagicID
                            (propertyHeader.decode (take 8 bs))) propOffsets);
      [done|].
    destruct (Z.eqb_spec (propertyHeader.MagicID
                            (propertyHeader.decode (take 8 bs))) propVisible);
      [done|].
    destruct (Z.eqb_spec (propertyHeader.MagicID
                            (propertyHeader.decode (take 8 bs))) propOpacity);
      [done|].
    rewrite (bind_Ok _ _ _ _ _ _
               (skipProperty_enough (propertyHeader.decode (take 8 bs))
                  file (pos + 8) ltac:(rewrite E8, length_drop; lia))).
    edestruct (IH file) as (pos' & Hrest & Hl & Hloop).
    { rewrite avail_add, E8, drop_drop. done. }
    exists pos'. split; [done|]. split; [|exact Hloop].
    rewrite length_drop in Hl. lia.
Qed.

(** X19.  A layer whose property list is cut off by the end of the file,
    behind well-formed properties, is refused.  Where the file ends at or
    inside the header of a property, the error is that of the read: "EOF"
    with no byte left, "unexpected EOF" with some.  Where it ends inside
    the payload of a property that [loadLayer] skips, the error is
    "read XCF: unable to skip property: EOF". *)
Theorem loadLayer_property_cut offset file pos name p1 ps mid :
  (12 <= length (avail file (Z.to_nat offset)))%nat ->
  let header := layerHeader.decode (take 12 (avail file (Z.to_nat offset))) in
  layerHeader.ColorFormat header = rgbAlpha
  \/ layerHeader.ColorFormat header = rgbNoAlpha ->
  readString file (Z.to_nat offset + 12) = Ok name p1 ->
  propsStart (avail file p1) ps mid ->
  ((length mid < 8)%nat ->
   exists p,
     loadLayer offset file pos
     = Err match mid with [] => "EOF" | _ => "unexpected EOF" end p)
  /\ ((8 <= length mid < 8 + Z.to_nat (propLength mid))%nat ->
      propId mid <> propEnd -> propId mid <> propOffsets ->
      propId mid <> propVisible -> propId mid <> propOpacity ->
      exists p,
        loadLayer offset file pos
        = Err "read XCF: unable to skip property: EOF" p).
Proof.
  intros H header Hcf Hname Hps.
  assert (exists p fuel st,
            avail file p = mid
            /\ loadLayer offset file pos
               = bind (loadLayer_props (S fuel) st)
                   (fun props =>
                      let* pixelPointer := readUint32 in
                      let* maskPointer := readUint32 in
                      let* img :=
                        readImageData header (lpX props) (lpY props)
                          pixelPointer in
                      ret {| Image := img; Name := name;
                             Visible := lpVisible props;
                             Opacity := lpOpacity props |}) file p)
    as (p & fuel & st & E & ->).
  { destruct (loadLayer_props_over _ _ _ Hps file p1
                {| lpVisible := true; lpOpacity := x00; lpX := 0; lpY := 0 |}
                (S (length (avail file p1)) - length ps) eq_refl)
      as (p & Hmid & Hl & Hloop).
    exists p, (length (avail file p1) - length ps)%nat. eexists.
    split; [done|]. unfold loadLayer.
    rewrite (bind_Ok _ _ _ _ tt (Z.to_nat offset)) by done.
    rewrite (bind_Ok _ _ _ _ _ _ (readLayerHeader_enough _ _ H)).
    fold header.
    assert (negb ((layerHeader.ColorFormat header =? rgbAlpha)
                  || (layerHeader.ColorFormat header =? rgbNoAlpha)) = false)
      as -> by (by destruct Hcf as [-> | ->]).
    rewrite (bind_Ok _ _ _ _ _ _ Hname).
    unfold bind at 1, withFuel.
    replace (S (length (avail file p1)))
      with (length ps + (S (length (avail file p1)) - length ps))%nat by lia.
    rewrite Hloop.
    replace (S (length (avail file p1)) - length ps)%nat
      with (S (length (avail file p1) - length ps)) by lia.
    reflexivity. }
  cbn [loadLayer_props]. split.
  - intros Hshort. unfold bind at 1 2.
    unfold readPropertyHeader, bind, ReadFull.
    change (propertyHeader.size <=? 0) with false. cbv iota.
    change (Z.to_nat propertyHeader.size) with 8%nat.
    rewrite decide_False by (rewrite length_take, E; lia).
    rewrite take_ge by (rewrite E; lia). rewrite E.
    destruct mid; by eexists.
  - intros Hcut H0 H1 H2 H3. unfold propId, propLength in *.
    rewrite (bind_assoc _ _ _ file p).
    rewrite (bind_Ok _ _ _ _ _ _
               (readPropertyHeader_enough file p ltac:(rewrite E; lia))).
    rewrite E.
    apply Z.eqb_neq in H0, H1, H2, H3. rewrite H0, H1, H2, H3.
    unfold bind, skipProperty, wrapErr, CopyN.
    rewrite decide_False
      by (rewrite length_take, avail_add, E, length_drop; lia).
    by eexists.
Qed.

(** The first layer of the small file up to its name, then a Visible
    property and a property 7 of four bytes of which two are there. *)
Lemma loadLayer_property_cut_witness :
  exists p,
    loadLayer 65
      (take 84 sample_xcf ++ u32 propVisible ++ u32 4 ++ u32 1
         ++ u32 7 ++ u32 4 ++ [x00; x00]) 0
    = Err "read XCF: unable to skip property: EOF" p.
Proof.
  apply (proj2 (loadLayer_property_cut 65
                  (take 84 sample_xcf ++ u32 propVisible ++ u32 4 ++ u32 1
                     ++ u32 7 ++ u32 4 ++ [x00; x00]) 0 "bg" 84
                  [PVisible 1] (u32 7 ++ u32 4 ++ [x00; x00])
                  ltac:(vm_compute; lia) ltac:(left; reflexivity)
                  ltac:(vm_compute; reflexivity)
                  ltac:(match goal with
                        | |- propsStart ?bs _ _ =>
                            apply (pstart_Visible bs [])
                        end;
                        [vm_compute; lia|reflexivity|apply pstart_nil])));
    [vm_compute; lia|done|done|done|done].
Defined.
